(** * Lock Cards: the canvas lock-enforcement engine

    A shallow embedding of [CanvasLockManager] (src/canvas) and of the
    toggle command of the plugin (src/main.ts), followed by the properties
    the specification states about them.

    The file has three parts: the model (the functions of the source, under
    their names), the notions used to state the properties, and the
    properties with their proofs and with runs on a concrete canvas.  The
    rest of the plugin is modelled after the notions, and what it keeps is
    proved after the properties.

    Modelling conventions.
    - A JavaScript value of the host is a [value]: a tree.  Plain objects
      are finite maps from property names to values; [Map] instances keyed
      by strings are finite maps as well; [Set] and array instances are
      lists in iteration order.  The objects of different nodes, and the
      nested objects of one node, are distinct trees: no object is shared.
    - A JavaScript number is a rational ([Q]): a finite value, with exact
      arithmetic.
    - The DOM is the list of its elements; an element is named by its index
      and the indices follow the tree order of the document.
    - The engine holds views by reference: a view is named by a number and
      the host state maps the number to what the view holds.
    - [Date.now()] is an integer number of milliseconds, handed to the
      function that reads it.
    - [WeakSet] and [WeakMap] instances keyed by elements are finite sets
      and maps keyed by element indices.
    - What the CSS engine of the host does to the text of an inline style
      is a parameter ([CssEngine]). *)

From Stdlib Require Import QArith Qabs ZArith String Ascii.
From stdpp Require Import gmap strings list fin_maps.

Local Set Warnings "-register-all".

(** ** JavaScript values *)

(** Elements and views are named by numbers. *)
Abbreviation elemId := nat (only parsing).
Abbreviation viewId := nat (only parsing).

Inductive value :=
| VUndefined
| VNull
| VBool (b : bool)
| VNum (q : Q)
| VStr (s : string)
| VFun (throws : bool)
| VElem (e : elemId)
| VObj (fields : gmap string value)
| VArr (items : list value)
| VSet (items : list value)
| VMap (entries : gmap string value).

(** [typeof v === "number"] *)
Definition is_number (v : value) : bool :=
  match v with VNum _ => true | _ => false end.

(** [v && typeof v === "object"]: [null] has type "object" but is falsy. *)
Definition is_object (v : value) : bool :=
  match v with
  | VObj _ | VArr _ | VSet _ | VMap _ | VElem _ => true
  | _ => false
  end.

(** [v[k]]: property read.  Only plain objects carry the properties the
    engine looks at; a missing property reads as [undefined]. *)
Definition get_prop (v : value) (k : string) : value :=
  match v with
  | VObj f => default VUndefined (f !! k)
  | _ => VUndefined
  end.

(** [v[k] = x] on a plain object. *)
Definition set_prop (v : value) (k : string) (x : value) : value :=
  match v with
  | VObj f => VObj (<[k := x]> f)
  | _ => v
  end.

(** ** Geometry snapshots (src/canvas/types.ts) *)

Inductive Mode := MTop | MPos | MRect | MData | MUnknown.

Record ModelSnapshot := mkSnap {
  mode : Mode;
  snap_x : Q;
  snap_y : Q;
  snap_w : option Q;
  snap_h : option Q
}.

(** ** Views and the canvas object *)

Record CanvasViewLike := mkView {
  getViewType : string;
  containerEl : elemId;
  file : option string;
  canvas : value
}.

Definition set_canvas (view : CanvasViewLike) (c : value) : CanvasViewLike :=
  {| getViewType := getViewType view;
     containerEl := containerEl view;
     file := file view;
     canvas := c |}.

(** [getCanvasFromView] *)
Definition getCanvasFromView (view : CanvasViewLike) : option value :=
  if is_object (canvas view) then Some (canvas view) else None.

(** [canvas?.nodes] when it is a [Map], else nothing. *)
Definition nodesMap (view : CanvasViewLike) : option (gmap string value) :=
  match getCanvasFromView view with
  | Some c => match get_prop c "nodes" with VMap m => Some m | _ => None end
  | None => None
  end.

(** [nodes.get(nodeId)], kept when it is a (truthy) object. *)
Definition nodeObject (view : CanvasViewLike) (nodeId : string) : option value :=
  match nodesMap view with
  | Some m =>
      let nodeObj := default VUndefined (m !! nodeId) in
      if is_object nodeObj then Some nodeObj else None
  | None => None
  end.

(** ** readModelSnapshot *)

Definition num_or (v1 v2 : value) : option Q :=
  match v1 with
  | VNum q => Some q
  | _ => match v2 with VNum q => Some q | _ => None end
  end.

(** The inner [fromObj (base, mode)]. *)
Definition fromObj (base : value) (m : Mode) : option ModelSnapshot :=
  if is_object base then
    match get_prop base "x", get_prop base "y" with
    | VNum x, VNum y =>
        Some {| mode := m; snap_x := x; snap_y := y;
                snap_w := num_or (get_prop base "width") (get_prop base "w");
                snap_h := num_or (get_prop base "height") (get_prop base "h") |}
    | _, _ => None
    end
  else None.

(** [a || b] on results that are a snapshot object or [null]. *)
Definition or_else {A} (a b : option A) : option A :=
  match a with Some _ => a | None => b end.

(** The body of [readModelSnapshot] once the node object [o] is at hand. *)
Definition readNode (o : value) : option ModelSnapshot :=
  or_else (fromObj o MTop)
    (or_else (fromObj (get_prop o "pos") MPos)
       (or_else (fromObj (get_prop o "rect") MRect)
          (or_else (fromObj (get_prop o "data") MData) None))).

Definition readModelSnapshot (view : CanvasViewLike) (nodeId : string)
  : option ModelSnapshot :=
  match nodeObject view nodeId with
  | Some o => readNode o
  | None => None
  end.

(** ** restoreModelSnapshot *)

(** A place the geometry may live in: the node object itself or one of its
    nested fields. *)
Inductive Base := BSelf | BField (k : string).

Definition base_of (o : value) (b : Base) : value :=
  match b with
  | BSelf => o
  | BField k => get_prop o k
  end.

(** The inner [applyTo (base)]: the updated base and the boolean it
    returns.  The writes made before a [return false] stay. *)
Definition applyTo (snap : ModelSnapshot) (base : value) : value * bool :=
  match base with
  | VObj b =>
      if is_number (get_prop (VObj b) "x") then
        let b1 := <["x" := VNum (snap_x snap)]> b in
        if is_number (get_prop (VObj b1) "y") then
          let b2 := <["y" := VNum (snap_y snap)]> b1 in
          let b3 :=
            match snap_w snap with
            | Some w =>
                if is_number (get_prop (VObj b2) "width")
                then <["width" := VNum w]> b2
                else if is_number (get_prop (VObj b2) "w")
                     then <["w" := VNum w]> b2
                     else b2
            | None => b2
            end in
          let b4 :=
            match snap_h snap with
            | Some h =>
                if is_number (get_prop (VObj b3) "height")
                then <["height" := VNum h]> b3
                else if is_number (get_prop (VObj b3) "h")
                     then <["h" := VNum h]> b3
                     else b3
            | None => b3
            end in
          (VObj b4, true)
        else (VObj b1, false)
      else (base, false)
  | _ => (base, false)
  end.

(** [applyTo] run on the base [b] of the node object [o]; the node object
    with the base as [applyTo] left it. *)
Definition applyAt (snap : ModelSnapshot) (o : value) (b : Base) : value * bool :=
  match b with
  | BSelf => applyTo snap o
  | BField k =>
      match get_prop o k with
      | VObj f =>
          let '(f', ok) := applyTo snap (VObj f) in (set_prop o k f', ok)
      | _ => (o, false)
      end
  end.

(** The [bases] array, by the mode recorded in the snapshot. *)
Definition bases (m : Mode) : list Base :=
  match m with
  | MTop => [BSelf; BField "pos"; BField "rect"; BField "data"]
  | MPos => [BField "pos"; BSelf; BField "rect"; BField "data"]
  | MRect => [BField "rect"; BSelf; BField "pos"; BField "data"]
  | MData => [BField "data"; BSelf; BField "pos"; BField "rect"]
  | MUnknown => [BSelf; BField "pos"; BField "rect"; BField "data"]
  end.

(** [for (const base of bases) if (applyTo(base)) break;] *)
Fixpoint applyBases (snap : ModelSnapshot) (o : value) (bs : list Base) : value :=
  match bs with
  | [] => o
  | b :: rest =>
      let '(o', ok) := applyAt snap o b in
      if ok then o' else applyBases snap o' rest
  end.

Definition restoreNode (snap : ModelSnapshot) (o : value) : value :=
  applyBases snap o (bases (mode snap)).

(** The redraw hooks: the methods called, in order, until one returns
    without throwing. *)
Definition maybeMethods : list string :=
  ["requestRender"; "requestFrame"; "render"; "redraw"].

Fixpoint callRedraw (canvasObj : value) (ms : list string) : list string :=
  match ms with
  | [] => []
  | m :: rest =>
      match get_prop canvasObj m with
      | VFun throws => m :: (if throws then callRedraw canvasObj rest else [])
      | _ => callRedraw canvasObj rest
      end
  end.

(** The node object [o] of [nodeId] replaced in the canvas of [view]. *)
Definition putNode (view : CanvasViewLike) (nodeId : string) (o : value)
  : CanvasViewLike :=
  match nodesMap view with
  | Some m => set_canvas view (set_prop (canvas view) "nodes" (VMap (<[nodeId := o]> m)))
  | None => view
  end.

(** [restoreModelSnapshot]: the view afterwards and the redraw hooks it
    called. *)
Definition restoreModelSnapshot (view : CanvasViewLike) (nodeId : string)
    (snap : ModelSnapshot) : CanvasViewLike * list string :=
  match nodeObject view nodeId with
  | Some o =>
      (putNode view nodeId (restoreNode snap o),
       callRedraw (canvas view) maybeMethods)
  | None => (view, [])
  end.

(** ** isSameSnapshot *)

Definition eps : Q := 1 # 10000.

(** [close (x, y)]: [Math.abs(x - y) <= eps]. *)
Definition close (x y : Q) : bool := Qle_bool (Qabs (x - y)) eps.

(** The test made on a pair of optional sizes:
    [if (aw === undefined || bw === undefined) { if (aw !== bw) return false; }
     else if (!close(aw, bw)) return false;]
    [true] when [isSameSnapshot] returns [false] there. *)
Definition differs (aw bw : option Q) : bool :=
  match aw, bw with
  | None, None => false
  | None, Some _ | Some _, None => true
  | Some a, Some b => negb (close a b)
  end.

(** [isSameSnapshot]; the engine declares it twice, with the same text, in
    [attachStyleGuardToCanvas] and in [enforceLockedNodesOnce]. *)
Definition isSameSnapshot (a b : ModelSnapshot) : bool :=
  if negb (close (snap_x a) (snap_x b)) || negb (close (snap_y a) (snap_y b))
  then false
  else if differs (snap_w a) (snap_w b) then false
  else if differs (snap_h a) (snap_h b) then false
  else true.

(** ** The DOM of the host *)

Record Element := mkElement {
  parentElement : option elemId;
  style : option string;            (* the inline [style] attribute *)
  classList : list string;
  attributes : gmap string string   (* the other attributes *)
}.

(** The selectors the engine uses. *)
Inductive Selector :=
| SelCanvasNode                        (* .canvas-node *)
| SelLockedNode                        (* .canvas-node.lc-locked *)
| SelNodeAttr (attr val : string)      (* .canvas-node[attr="val"] *)
| SelId (id : string).                 (* #id *)

Definition set_style (e : Element) (st : option string) : Element :=
  {| parentElement := parentElement e; style := st;
     classList := classList e; attributes := attributes e |}.

Definition set_classList (e : Element) (cl : list string) : Element :=
  {| parentElement := parentElement e; style := style e;
     classList := cl; attributes := attributes e |}.

Section Dom.
Variable dom : list Element.

(** [el.classList.contains(c)] *)
Definition hasClass (el : elemId) (c : string) : bool :=
  match dom !! el with
  | Some e => bool_decide (c ∈ classList e)
  | None => false
  end.

(** [el.getAttribute("style")] *)
Definition getStyle (el : elemId) : option string :=
  match dom !! el with
  | Some e => style e
  | None => None
  end.

(** [el.parentElement] *)
Definition parentOf (el : elemId) : option elemId :=
  match dom !! el with
  | Some e => parentElement e
  | None => None
  end.

(** [el.matches(sel)] *)
Definition matchesSel (el : elemId) (sel : Selector) : bool :=
  match dom !! el with
  | Some e =>
      match sel with
      | SelCanvasNode => bool_decide ("canvas-node" ∈ classList e)
      | SelLockedNode =>
          bool_decide ("canvas-node" ∈ classList e)
          && bool_decide ("lc-locked" ∈ classList e)
      | SelNodeAttr attr val =>
          bool_decide ("canvas-node" ∈ classList e)
          && bool_decide (attributes e !! attr = Some val)
      | SelId id => bool_decide (attributes e !! "id" = Some id)
      end
  | None => false
  end.

(** [el.closest(sel)]: the element or its nearest ancestor that matches.
    The walk is bounded by the number of elements. *)
Fixpoint closestFrom (fuel : nat) (el : elemId) (sel : Selector) : option elemId :=
  match fuel with
  | O => None
  | S fuel' =>
      if matchesSel el sel then Some el
      else match parentOf el with
           | Some p => closestFrom fuel' p sel
           | None => None
           end
  end.

Definition closest (el : elemId) (sel : Selector) : option elemId :=
  closestFrom (S (length dom)) el sel.

(** [anc] is an ancestor of [el], or [el] itself. *)
Fixpoint reaches (fuel : nat) (el anc : elemId) : bool :=
  match fuel with
  | O => false
  | S fuel' =>
      if bool_decide (el = anc) then true
      else match parentOf el with
           | Some p => reaches fuel' p anc
           | None => false
           end
  end.

Definition isDescendant (el container : elemId) : bool :=
  match parentOf el with
  | Some p => reaches (S (length dom)) p container
  | None => false
  end.

(** [container.querySelectorAll(sel)], in tree order. *)
Definition querySelectorAll (container : elemId) (sel : Selector) : list elemId :=
  filter (λ el, isDescendant el container && matchesSel el sel = true)
         (seq 0 (length dom)).

(** [container.querySelector(sel)] *)
Definition querySelector (container : elemId) (sel : Selector) : option elemId :=
  head (querySelectorAll container sel).

(** [el.classList.contains("canvas-node") ? el : el.closest(".canvas-node")] *)
Definition nodeElOf (el : elemId) : option elemId :=
  if hasClass el "canvas-node" then Some el else closest el SelCanvasNode.
End Dom.

(** [String.prototype.includes] *)
Fixpoint includes (s pat : string) : bool :=
  String.prefix pat s
  || match s with
     | EmptyString => false
     | String _ s' => includes s' pat
     end.

(** ** findMoveElement *)

(** The inner [hasInlinePositionProps]. *)
Definition hasInlinePositionProps (dom : list Element) (el : elemId) : bool :=
  match getStyle dom el with
  | None => false
  | Some "" => false
  | Some st =>
      includes st "transform" || includes st "left" || includes st "top"
      || includes st "width" || includes st "height"
  end.

(** [for (let i = 0; i < 3 && cursor; i++) ...], with [n] the rounds left. *)
Fixpoint findMoveLoop (dom : list Element) (n : nat) (cursor : option elemId)
  : option elemId :=
  match n, cursor with
  | S n', Some c =>
      if hasInlinePositionProps dom c then Some c
      else findMoveLoop dom n' (parentOf dom c)
  | _, _ => None
  end.

Definition findMoveElement (dom : list Element) (nodeEl : elemId) : elemId :=
  match findMoveLoop dom 3 (Some nodeEl) with
  | Some el => el
  | None => nodeEl
  end.

(** ** resolveNodeElById *)

Definition elementCandidates (o : value) : list value :=
  [get_prop o "nodeEl"; get_prop o "el"; get_prop o "containerEl";
   get_prop o "contentEl"].

(** The loop over the element-holding fields of the node object. *)
Fixpoint firstNodeEl (dom : list Element) (cs : list value) : option elemId :=
  match cs with
  | [] => None
  | VElem c :: rest =>
      match nodeElOf dom c with
      | Some nodeEl => Some nodeEl
      | None => firstNodeEl dom rest
      end
  | _ :: rest => firstNodeEl dom rest
  end.

Definition selectors (id : string) : list Selector :=
  [SelNodeAttr "data-node-id" id; SelNodeAttr "data-id" id;
   SelNodeAttr "data-node" id; SelNodeAttr "data-uid" id; SelId id].

(** The loop over the selectors. *)
Fixpoint firstBySelector (dom : list Element) (container : elemId)
    (sels : list Selector) : option elemId :=
  match sels with
  | [] => None
  | sel :: rest =>
      match querySelector dom container sel with
      | None => firstBySelector dom container rest
      | Some el =>
          match nodeElOf dom el with
          | Some nodeEl => Some nodeEl
          | None => firstBySelector dom container rest
          end
      end
  end.

(** The element [resolveNodeElById] returns ([None] for [null]). *)
Definition resolveNodeEl (dom : list Element) (view : CanvasViewLike)
    (id : string) : option elemId :=
  match
    match nodeObject view id with
    | Some o => firstNodeEl dom (elementCandidates o)
    | None => None
    end
  with
  | Some nodeEl => Some nodeEl
  | None => firstBySelector dom (containerEl view) (selectors id)
  end.

(** ** The state of the engine and of its host *)

Record LockCardsSettings := mkSettings {
  disableLockWhileAltDown : bool;
  enableDebugLogging : bool
}.

Definition DEFAULT_SETTINGS : LockCardsSettings :=
  {| disableLockWhileAltDown := true; enableDebugLogging := false |}.

(** A deadline: a clock value or [Number.POSITIVE_INFINITY]. *)
Inductive Deadline := At (t : Z) | Forever.

Definition deadline_max (a b : Deadline) : Deadline :=
  match a, b with
  | At x, At y => At (Z.max x y)
  | _, _ => Forever
  end.

Definition before (now : Z) (d : Deadline) : bool :=
  match d with
  | At t => bool_decide (now < t)%Z
  | Forever => true
  end.

Record CanvasContext := mkCtx {
  ctx_view : viewId;
  canvasPath : string
}.

Record Manager := mkManager {
  lockedByCanvas : gmap string (list string);
  settings : LockCardsSettings;
  lockedStyleByCanvas : gmap string (gmap string string);
  lockedMoveStyleByCanvas : gmap string (gmap string string);
  lockedModelByCanvas : gmap string (gmap string ModelSnapshot);
  observer : option string;     (* the observer, by the path its callback closes over *)
  observedCanvasPath : option string;
  observedView : option viewId;
  lastRestoreAtByCanvas : gmap string (gmap string Z);
  altDown : bool;
  restoring : gset elemId;
  nodeIdByEl : gmap elemId string;
  moveElByNodeEl : gmap elemId elemId;
  enforcementRaf : bool;        (* a frame callback is pending *)
  enforcing : bool;
  pointerIsDown : bool;
  enforceUntil : Deadline;
  blockedPointerId : option Z
}.

Record Leaf := mkLeaf {
  leaf_view : option viewId     (* the view of the leaf when it is canvas-view-like *)
}.

Record World := mkWorld {
  dom : list Element;
  views : gmap viewId CanvasViewLike;
  mostRecentLeaf : option Leaf;
  canvasLeaves : list Leaf;
  hostCalls : list string       (* the redraw hooks called so far *)
}.

Definition initManager (locked : gmap string (list string))
    (st : LockCardsSettings) : Manager :=
  {| lockedByCanvas := locked; settings := st;
     lockedStyleByCanvas := ∅; lockedMoveStyleByCanvas := ∅;
     lockedModelByCanvas := ∅;
     observer := None; observedCanvasPath := None; observedView := None;
     lastRestoreAtByCanvas := ∅; altDown := false; restoring := ∅;
     nodeIdByEl := ∅; moveElByNodeEl := ∅;
     enforcementRaf := false; enforcing := false; pointerIsDown := false;
     enforceUntil := At 0; blockedPointerId := None |}.

(** Field updates of the engine state. *)

Definition set_lockedByCanvas (x : gmap string (list string)) (s : Manager) : Manager :=
  {| lockedByCanvas := x; settings := settings s;
     lockedStyleByCanvas := lockedStyleByCanvas s;
     lockedMoveStyleByCanvas := lockedMoveStyleByCanvas s;
     lockedModelByCanvas := lockedModelByCanvas s; observer := observer s;
     observedCanvasPath := observedCanvasPath s;
     observedView := observedView s;
     lastRestoreAtByCanvas := lastRestoreAtByCanvas s; altDown := altDown s;
     restoring := restoring s; nodeIdByEl := nodeIdByEl s;
     moveElByNodeEl := moveElByNodeEl s; enforcementRaf := enforcementRaf s;
     enforcing := enforcing s; pointerIsDown := pointerIsDown s;
     enforceUntil := enforceUntil s;
     blockedPointerId := blockedPointerId s |}.

Definition set_settings (x : LockCardsSettings) (s : Manager) : Manager :=
  {| lockedByCanvas := lockedByCanvas s; settings := x;
     lockedStyleByCanvas := lockedStyleByCanvas s;
     lockedMoveStyleByCanvas := lockedMoveStyleByCanvas s;
     lockedModelByCanvas := lockedModelByCanvas s; observer := observer s;
     observedCanvasPath := observedCanvasPath s;
     observedView := observedView s;
     lastRestoreAtByCanvas := lastRestoreAtByCanvas s; altDown := altDown s;
     restoring := restoring s; nodeIdByEl := nodeIdByEl s;
     moveElByNodeEl := moveElByNodeEl s; enforcementRaf := enforcementRaf s;
     enforcing := enforcing s; pointerIsDown := pointerIsDown s;
     enforceUntil := enforceUntil s;
     blockedPointerId := blockedPointerId s |}.

Definition set_lockedStyleByCanvas (x : gmap string (gmap string string)) (s : Manager) : Manager :=
  {| lockedByCanvas := lockedByCanvas s; settings := settings s;
     lockedStyleByCanvas := x;
     lockedMoveStyleByCanvas := lockedMoveStyleByCanvas s;
     lockedModelByCanvas := lockedModelByCanvas s; observer := observer s;
     observedCanvasPath := observedCanvasPath s;
     observedView := observedView s;
     lastRestoreAtByCanvas := lastRestoreAtByCanvas s; altDown := altDown s;
     restoring := restoring s; nodeIdByEl := nodeIdByEl s;
     moveElByNodeEl := moveElByNodeEl s; enforcementRaf := enforcementRaf s;
     enforcing := enforcing s; pointerIsDown := pointerIsDown s;
     enforceUntil := enforceUntil s;
     blockedPointerId := blockedPointerId s |}.

Definition set_lockedMoveStyleByCanvas (x : gmap string (gmap string string)) (s : Manager) : Manager :=
  {| lockedByCanvas := lockedByCanvas s; settings := settings s;
     lockedStyleByCanvas := lockedStyleByCanvas s;
     lockedMoveStyleByCanvas := x;
     lockedModelByCanvas := lockedModelByCanvas s; observer := observer s;
     observedCanvasPath := observedCanvasPath s;
     observedView := observedView s;
     lastRestoreAtByCanvas := lastRestoreAtByCanvas s; altDown := altDown s;
     restoring := restoring s; nodeIdByEl := nodeIdByEl s;
     moveElByNodeEl := moveElByNodeEl s; enforcementRaf := enforcementRaf s;
     enforcing := enforcing s; pointerIsDown := pointerIsDown s;
     enforceUntil := enforceUntil s;
     blockedPointerId := blockedPointerId s |}.

Definition set_lockedModelByCanvas (x : gmap string (gmap string ModelSnapshot)) (s : Manager) : Manager :=
  {| lockedByCanvas := lockedByCanvas s; settings := settings s;
     lockedStyleByCanvas := lockedStyleByCanvas s;
     lockedMoveStyleByCanvas := lockedMoveStyleByCanvas s;
     lockedModelByCanvas := x; observer := observer s;
     observedCanvasPath := observedCanvasPath s;
     observedView := observedView s;
     lastRestoreAtByCanvas := lastRestoreAtByCanvas s; altDown := altDown s;
     restoring := restoring s; nodeIdByEl := nodeIdByEl s;
     moveElByNodeEl := moveElByNodeEl s; enforcementRaf := enforcementRaf s;
     enforcing := enforcing s; pointerIsDown := pointerIsDown s;
     enforceUntil := enforceUntil s;
     blockedPointerId := blockedPointerId s |}.

Definition set_observer (x : option string) (s : Manager) : Manager :=
  {| lockedByCanvas := lockedByCanvas s; settings := settings s;
     lockedStyleByCanvas := lockedStyleByCanvas s;
     lockedMoveStyleByCanvas := lockedMoveStyleByCanvas s;
     lockedModelByCanvas := lockedModelByCanvas s; observer := x;
     observedCanvasPath := observedCanvasPath s;
     observedView := observedView s;
     lastRestoreAtByCanvas := lastRestoreAtByCanvas s; altDown := altDown s;
     restoring := restoring s; nodeIdByEl := nodeIdByEl s;
     moveElByNodeEl := moveElByNodeEl s; enforcementRaf := enforcementRaf s;
     enforcing := enforcing s; pointerIsDown := pointerIsDown s;
     enforceUntil := enforceUntil s;
     blockedPointerId := blockedPointerId s |}.

Definition set_observedCanvasPath (x : option string) (s : Manager) : Manager :=
  {| lockedByCanvas := lockedByCanvas s; settings := settings s;
     lockedStyleByCanvas := lockedStyleByCanvas s;
     lockedMoveStyleByCanvas := lockedMoveStyleByCanvas s;
     lockedModelByCanvas := lockedModelByCanvas s; observer := observer s;
     observedCanvasPath := x; observedView := observedView s;
     lastRestoreAtByCanvas := lastRestoreAtByCanvas s; altDown := altDown s;
     restoring := restoring s; nodeIdByEl := nodeIdByEl s;
     moveElByNodeEl := moveElByNodeEl s; enforcementRaf := enforcementRaf s;
     enforcing := enforcing s; pointerIsDown := pointerIsDown s;
     enforceUntil := enforceUntil s;
     blockedPointerId := blockedPointerId s |}.

Definition set_observedView (x : option viewId) (s : Manager) : Manager :=
  {| lockedByCanvas := lockedByCanvas s; settings := settings s;
     lockedStyleByCanvas := lockedStyleByCanvas s;
     lockedMoveStyleByCanvas := lockedMoveStyleByCanvas s;
     lockedModelByCanvas := lockedModelByCanvas s; observer := observer s;
     observedCanvasPath := observedCanvasPath s; observedView := x;
     lastRestoreAtByCanvas := lastRestoreAtByCanvas s; altDown := altDown s;
     restoring := restoring s; nodeIdByEl := nodeIdByEl s;
     moveElByNodeEl := moveElByNodeEl s; enforcementRaf := enforcementRaf s;
     enforcing := enforcing s; pointerIsDown := pointerIsDown s;
     enforceUntil := enforceUntil s;
     blockedPointerId := blockedPointerId s |}.

Definition set_lastRestoreAtByCanvas (x : gmap string (gmap string Z)) (s : Manager) : Manager :=
  {| lockedByCanvas := lockedByCanvas s; settings := settings s;
     lockedStyleByCanvas := lockedStyleByCanvas s;
     lockedMoveStyleByCanvas := lockedMoveStyleByCanvas s;
     lockedModelByCanvas := lockedModelByCanvas s; observer := observer s;
     observedCanvasPath := observedCanvasPath s;
     observedView := observedView s; lastRestoreAtByCanvas := x;
     altDown := altDown s; restoring := restoring s;
     nodeIdByEl := nodeIdByEl s; moveElByNodeEl := moveElByNodeEl s;
     enforcementRaf := enforcementRaf s; enforcing := enforcing s;
     pointerIsDown := pointerIsDown s; enforceUntil := enforceUntil s;
     blockedPointerId := blockedPointerId s |}.

Definition set_altDown (x : bool) (s : Manager) : Manager :=
  {| lockedByCanvas := lockedByCanvas s; settings := settings s;
     lockedStyleByCanvas := lockedStyleByCanvas s;
     lockedMoveStyleByCanvas := lockedMoveStyleByCanvas s;
     lockedModelByCanvas := lockedModelByCanvas s; observer := observer s;
     observedCanvasPath := observedCanvasPath s;
     observedView := observedView s;
     lastRestoreAtByCanvas := lastRestoreAtByCanvas s; altDown := x;
     restoring := restoring s; nodeIdByEl := nodeIdByEl s;
     moveElByNodeEl := moveElByNodeEl s; enforcementRaf := enforcementRaf s;
     enforcing := enforcing s; pointerIsDown := pointerIsDown s;
     enforceUntil := enforceUntil s;
     blockedPointerId := blockedPointerId s |}.

Definition set_restoring (x : gset elemId) (s : Manager) : Manager :=
  {| lockedByCanvas := lockedByCanvas s; settings := settings s;
     lockedStyleByCanvas := lockedStyleByCanvas s;
     lockedMoveStyleByCanvas := lockedMoveStyleByCanvas s;
     lockedModelByCanvas := lockedModelByCanvas s; observer := observer s;
     observedCanvasPath := observedCanvasPath s;
     observedView := observedView s;
     lastRestoreAtByCanvas := lastRestoreAtByCanvas s; altDown := altDown s;
     restoring := x; nodeIdByEl := nodeIdByEl s;
     moveElByNodeEl := moveElByNodeEl s; enforcementRaf := enforcementRaf s;
     enforcing := enforcing s; pointerIsDown := pointerIsDown s;
     enforceUntil := enforceUntil s;
     blockedPointerId := blockedPointerId s |}.

Definition set_nodeIdByEl (x : gmap elemId string) (s : Manager) : Manager :=
  {| lockedByCanvas := lockedByCanvas s; settings := settings s;
     lockedStyleByCanvas := lockedStyleByCanvas s;
     lockedMoveStyleByCanvas := lockedMoveStyleByCanvas s;
     lockedModelByCanvas := lockedModelByCanvas s; observer := observer s;
     observedCanvasPath := observedCanvasPath s;
     observedView := observedView s;
     lastRestoreAtByCanvas := lastRestoreAtByCanvas s; altDown := altDown s;
     restoring := restoring s; nodeIdByEl := x;
     moveElByNodeEl := moveElByNodeEl s; enforcementRaf := enforcementRaf s;
     enforcing := enforcing s; pointerIsDown := pointerIsDown s;
     enforceUntil := enforceUntil s;
     blockedPointerId := blockedPointerId s |}.

Definition set_moveElByNodeEl (x : gmap elemId elemId) (s : Manager) : Manager :=
  {| lockedByCanvas := lockedByCanvas s; settings := settings s;
     lockedStyleByCanvas := lockedStyleByCanvas s;
     lockedMoveStyleByCanvas := lockedMoveStyleByCanvas s;
     lockedModelByCanvas := lockedModelByCanvas s; observer := observer s;
     observedCanvasPath := observedCanvasPath s;
     observedView := observedView s;
     lastRestoreAtByCanvas := lastRestoreAtByCanvas s; altDown := altDown s;
     restoring := restoring s; nodeIdByEl := nodeIdByEl s;
     moveElByNodeEl := x; enforcementRaf := enforcementRaf s;
     enforcing := enforcing s; pointerIsDown := pointerIsDown s;
     enforceUntil := enforceUntil s;
     blockedPointerId := blockedPointerId s |}.

Definition set_enforcementRaf (x : bool) (s : Manager) : Manager :=
  {| lockedByCanvas := lockedByCanvas s; settings := settings s;
     lockedStyleByCanvas := lockedStyleByCanvas s;
     lockedMoveStyleByCanvas := lockedMoveStyleByCanvas s;
     lockedModelByCanvas := lockedModelByCanvas s; observer := observer s;
     observedCanvasPath := observedCanvasPath s;
     observedView := observedView s;
     lastRestoreAtByCanvas := lastRestoreAtByCanvas s; altDown := altDown s;
     restoring := restoring s; nodeIdByEl := nodeIdByEl s;
     moveElByNodeEl := moveElByNodeEl s; enforcementRaf := x;
     enforcing := enforcing s; pointerIsDown := pointerIsDown s;
     enforceUntil := enforceUntil s;
     blockedPointerId := blockedPointerId s |}.

Definition set_enforcing (x : bool) (s : Manager) : Manager :=
  {| lockedByCanvas := lockedByCanvas s; settings := settings s;
     lockedStyleByCanvas := lockedStyleByCanvas s;
     lockedMoveStyleByCanvas := lockedMoveStyleByCanvas s;
     lockedModelByCanvas := lockedModelByCanvas s; observer := observer s;
     observedCanvasPath := observedCanvasPath s;
     observedView := observedView s;
     lastRestoreAtByCanvas := lastRestoreAtByCanvas s; altDown := altDown s;
     restoring := restoring s; nodeIdByEl := nodeIdByEl s;
     moveElByNodeEl := moveElByNodeEl s; enforcementRaf := enforcementRaf s;
     enforcing := x; pointerIsDown := pointerIsDown s;
     enforceUntil := enforceUntil s;
     blockedPointerId := blockedPointerId s |}.

Definition set_pointerIsDown (x : bool) (s : Manager) : Manager :=
  {| lockedByCanvas := lockedByCanvas s; settings := settings s;
     lockedStyleByCanvas := lockedStyleByCanvas s;
     lockedMoveStyleByCanvas := lockedMoveStyleByCanvas s;
     lockedModelByCanvas := lockedModelByCanvas s; observer := observer s;
     observedCanvasPath := observedCanvasPath s;
     observedView := observedView s;
     lastRestoreAtByCanvas := lastRestoreAtByCanvas s; altDown := altDown s;
     restoring := restoring s; nodeIdByEl := nodeIdByEl s;
     moveElByNodeEl := moveElByNodeEl s; enforcementRaf := enforcementRaf s;
     enforcing := enforcing s; pointerIsDown := x;
     enforceUntil := enforceUntil s;
     blockedPointerId := blockedPointerId s |}.

Definition set_enforceUntil (x : Deadline) (s : Manager) : Manager :=
  {| lockedByCanvas := lockedByCanvas s; settings := settings s;
     lockedStyleByCanvas := lockedStyleByCanvas s;
     lockedMoveStyleByCanvas := lockedMoveStyleByCanvas s;
     lockedModelByCanvas := lockedModelByCanvas s; observer := observer s;
     observedCanvasPath := observedCanvasPath s;
     observedView := observedView s;
     lastRestoreAtByCanvas := lastRestoreAtByCanvas s; altDown := altDown s;
     restoring := restoring s; nodeIdByEl := nodeIdByEl s;
     moveElByNodeEl := moveElByNodeEl s; enforcementRaf := enforcementRaf s;
     enforcing := enforcing s; pointerIsDown := pointerIsDown s;
     enforceUntil := x; blockedPointerId := blockedPointerId s |}.

Definition set_blockedPointerId (x : option Z) (s : Manager) : Manager :=
  {| lockedByCanvas := lockedByCanvas s; settings := settings s;
     lockedStyleByCanvas := lockedStyleByCanvas s;
     lockedMoveStyleByCanvas := lockedMoveStyleByCanvas s;
     lockedModelByCanvas := lockedModelByCanvas s; observer := observer s;
     observedCanvasPath := observedCanvasPath s;
     observedView := observedView s;
     lastRestoreAtByCanvas := lastRestoreAtByCanvas s; altDown := altDown s;
     restoring := restoring s; nodeIdByEl := nodeIdByEl s;
     moveElByNodeEl := moveElByNodeEl s; enforcementRaf := enforcementRaf s;
     enforcing := enforcing s; pointerIsDown := pointerIsDown s;
     enforceUntil := enforceUntil s; blockedPointerId := x |}.

(** Field updates of the host state. *)

Definition set_dom (x : list Element) (w : World) : World :=
  {| dom := x; views := views w; mostRecentLeaf := mostRecentLeaf w;
     canvasLeaves := canvasLeaves w; hostCalls := hostCalls w |}.

Definition set_views (x : gmap viewId CanvasViewLike) (w : World) : World :=
  {| dom := dom w; views := x; mostRecentLeaf := mostRecentLeaf w;
     canvasLeaves := canvasLeaves w; hostCalls := hostCalls w |}.

Definition set_hostCalls (x : list string) (w : World) : World :=
  {| dom := dom w; views := views w; mostRecentLeaf := mostRecentLeaf w;
     canvasLeaves := canvasLeaves w; hostCalls := x |}.
(** ** The locked set *)

(** [this.lockedByCanvas[canvasPath] ?? []] *)
Definition lockedIdsOf (s : Manager) (path : string) : list string :=
  default [] (lockedByCanvas s !! path).

(** [isLocked] *)
Definition isLocked (s : Manager) (path nodeId : string) : bool :=
  bool_decide (nodeId ∈ lockedIdsOf s path).

(** [Set.prototype.add]: insertion order, no duplicate. *)
Definition set_add (x : string) (l : list string) : list string :=
  if bool_decide (x ∈ l) then l else l ++ [x].

(** [new Set(array)] as the list of its elements in iteration order. *)
Definition newSet (l : list string) : list string :=
  fold_left (λ acc x, set_add x acc) l [].

(** [Set.prototype.delete] *)
Definition set_delete (x : string) (l : list string) : list string :=
  filter (λ y, y ≠ x) l.

(** [setLocked] *)
Definition setLocked (path nodeId : string) (locked : bool) (s : Manager)
  : Manager :=
  let current := newSet (lockedIdsOf s path) in
  let current' := if locked then set_add nodeId current
                  else set_delete nodeId current in
  set_lockedByCanvas (<[path := current']> (lockedByCanvas s)) s.

(** ** The snapshot store *)

(** [snapshotLockedNodeStyle] *)
Definition snapshotLockedNodeStyle (dom : list Element) (path nodeId : string)
    (nodeEl : elemId) (s : Manager) : Manager :=
  let map := default ∅ (lockedStyleByCanvas s !! path) in
  set_lockedStyleByCanvas
    (<[path := <[nodeId := default "" (getStyle dom nodeEl)]> map]>
       (lockedStyleByCanvas s)) s.

(** [snapshotLockedMoveStyle] *)
Definition snapshotLockedMoveStyle (dom : list Element) (path nodeId : string)
    (nodeEl : elemId) (s : Manager) : Manager :=
  let moveEl := findMoveElement dom nodeEl in
  let s1 := set_moveElByNodeEl (<[nodeEl := moveEl]> (moveElByNodeEl s)) s in
  let map := default ∅ (lockedMoveStyleByCanvas s1 !! path) in
  set_lockedMoveStyleByCanvas
    (<[path := <[nodeId := default "" (getStyle dom moveEl)]> map]>
       (lockedMoveStyleByCanvas s1)) s1.

(** [forgetLockedNodeStyle] *)
Definition forgetLockedNodeStyle (path nodeId : string) (s : Manager) : Manager :=
  match lockedStyleByCanvas s !! path with
  | None => s
  | Some map =>
      set_lockedStyleByCanvas
        (<[path := delete nodeId map]> (lockedStyleByCanvas s)) s
  end.

(** [forgetLockedMoveStyle] *)
Definition forgetLockedMoveStyle (path nodeId : string) (s : Manager) : Manager :=
  match lockedMoveStyleByCanvas s !! path with
  | None => s
  | Some map =>
      set_lockedMoveStyleByCanvas
        (<[path := delete nodeId map]> (lockedMoveStyleByCanvas s)) s
  end.

(** [forgetLockedNodeModel] *)
Definition forgetLockedNodeModel (path nodeId : string) (s : Manager) : Manager :=
  match lockedModelByCanvas s !! path with
  | None => s
  | Some map =>
      set_lockedModelByCanvas
        (<[path := delete nodeId map]> (lockedModelByCanvas s)) s
  end.

(** [forgetOnUnlock] *)
Definition forgetOnUnlock (path nodeId : string) (s : Manager) : Manager :=
  forgetLockedNodeModel path nodeId
    (forgetLockedMoveStyle path nodeId
       (forgetLockedNodeStyle path nodeId s)).

(** The three lookups [this.locked...ByCanvas[canvasPath]?.[nodeId]]. *)
Definition savedStyleOf (s : Manager) (path nodeId : string) : option string :=
  default ∅ (lockedStyleByCanvas s !! path) !! nodeId.

Definition savedMoveStyleOf (s : Manager) (path nodeId : string) : option string :=
  default ∅ (lockedMoveStyleByCanvas s !! path) !! nodeId.

Definition savedModelOf (s : Manager) (path nodeId : string)
  : option ModelSnapshot :=
  default ∅ (lockedModelByCanvas s !! path) !! nodeId.

(** The view a reference denotes. *)
Definition viewOf (w : World) (v : viewId) : option CanvasViewLike :=
  views w !! v.

(** [resolveNodeElById] with its write to [nodeIdByEl]. *)
Definition resolveNodeElById (w : World) (v : viewId) (id : string)
    (s : Manager) : option elemId * Manager :=
  match viewOf w v with
  | Some view =>
      match resolveNodeEl (dom w) view id with
      | Some nodeEl =>
          (Some nodeEl, set_nodeIdByEl (<[nodeEl := id]> (nodeIdByEl s)) s)
      | None => (None, s)
      end
  | None => (None, s)
  end.

(** [snapshotLockedNodeModel] *)
Definition snapshotLockedNodeModel (w : World) (ctx : CanvasContext)
    (nodeId : string) (s : Manager) : Manager :=
  match viewOf w (ctx_view ctx) with
  | Some view =>
      match readModelSnapshot view nodeId with
      | None => s
      | Some snap =>
          let map := default ∅ (lockedModelByCanvas s !! canvasPath ctx) in
          set_lockedModelByCanvas
            (<[canvasPath ctx := <[nodeId := snap]> map]>
               (lockedModelByCanvas s)) s
      end
  | None => s
  end.

(** [snapshotOnLock] *)
Definition snapshotOnLock (w : World) (ctx : CanvasContext) (nodeId : string)
    (s : Manager) : Manager :=
  match resolveNodeElById w (ctx_view ctx) nodeId s with
  | (None, s1) => s1
  | (Some el, s1) =>
      let s2 := set_nodeIdByEl (<[el := nodeId]> (nodeIdByEl s1)) s1 in
      let s3 := snapshotLockedNodeStyle (dom w) (canvasPath ctx) nodeId el s2 in
      let s4 := snapshotLockedMoveStyle (dom w) (canvasPath ctx) nodeId el s3 in
      snapshotLockedNodeModel w ctx nodeId s4
  end.

(** ** Lock markers on the DOM *)

(** [el.classList.remove(c)] and [el.classList.add(c)] *)
Definition removeClass (c : string) (el : elemId) (dom : list Element)
  : list Element :=
  alter (λ e, set_classList e (filter (λ x, x ≠ c) (classList e))) el dom.

Definition addClass (c : string) (el : elemId) (dom : list Element)
  : list Element :=
  alter (λ e, set_classList e
                (if bool_decide (c ∈ classList e) then classList e
                 else classList e ++ [c])) el dom.

(** The second loop of [applyLockedClasses]. *)
Fixpoint markLocked (v : viewId) (ids : list string) (s : Manager) (w : World)
  : Manager * World :=
  match ids with
  | [] => (s, w)
  | id :: rest =>
      match resolveNodeElById w v id s with
      | (Some el, s1) => markLocked v rest s1 (set_dom (addClass "lc-locked" el (dom w)) w)
      | (None, s1) => markLocked v rest s1 w
      end
  end.

(** [applyLockedClasses] *)
Definition applyLockedClasses (ctx : CanvasContext) (s : Manager) (w : World)
  : Manager * World :=
  match viewOf w (ctx_view ctx) with
  | Some view =>
      let cleared :=
        fold_left (λ d node, removeClass "lc-locked" node d)
                  (querySelectorAll (dom w) (containerEl view) SelCanvasNode)
                  (dom w) in
      markLocked (ctx_view ctx) (lockedIdsOf s (canvasPath ctx)) s
                 (set_dom cleared w)
  | None => (s, w)
  end.

(** [unlockAllInCanvas]: the count returned and the state afterwards. *)
Definition unlockAllInCanvas (ctx : CanvasContext) (s : Manager) (w : World)
  : nat * (Manager * World) :=
  let lockedIds := lockedIdsOf s (canvasPath ctx) in
  if bool_decide (length lockedIds = 0) then (0, (s, w))
  else
    let s1 := fold_left (λ acc id, forgetOnUnlock (canvasPath ctx) id acc)
                        lockedIds s in
    let s2 := set_lockedByCanvas (<[canvasPath ctx := []]> (lockedByCanvas s1)) s1 in
    (length lockedIds, applyLockedClasses ctx s2 w).

(** [primeLockedSnapshots] *)
Definition primeLockedSnapshots (ctx : CanvasContext) (s : Manager) (w : World)
  : Manager :=
  fold_left
    (λ acc id,
       let acc1 :=
         match savedStyleOf acc (canvasPath ctx) id with
         | None =>
             match resolveNodeElById w (ctx_view ctx) id acc with
             | (Some el, a) => snapshotLockedNodeStyle (dom w) (canvasPath ctx) id el a
             | (None, a) => a
             end
         | Some _ => acc
         end in
       match savedModelOf acc1 (canvasPath ctx) id with
       | None => snapshotLockedNodeModel w ctx id acc1
       | Some _ => acc1
       end)
    (lockedIdsOf s (canvasPath ctx)) s.

(** ** The selection *)

(** The loop that collects ids from the items of a set or an array. *)
Fixpoint collectIds (items : list value) : list string :=
  match items with
  | [] => []
  | VStr id :: rest => id :: collectIds rest
  | item :: rest =>
      if is_object item then
        match get_prop item "id" with
        | VStr id => id :: collectIds rest
        | _ => collectIds rest
        end
      else collectIds rest
  end.

(** The loop over the keys [nodes], [selectedNodes], [items] of the
    selection object. *)
Fixpoint idsFromKeys (sel : value) (keys : list string) : option (list string) :=
  match keys with
  | [] => None
  | key :: rest =>
      match get_prop sel key with
      | VSet items | VArr items =>
          match collectIds items with
          | [] => idsFromKeys sel rest
          | out => Some out
          end
      | _ => idsFromKeys sel rest
      end
  end.

(** [getSelectedCanvasNodeIdsFromInternalSelection] *)
Definition getSelectedCanvasNodeIdsFromInternalSelection (view : CanvasViewLike)
  : list string :=
  match getCanvasFromView view with
  | None => []
  | Some c =>
      match get_prop c "selection" with
      | VSet items => collectIds items
      | VObj _ as sel =>
          default [] (idsFromKeys sel ["nodes"; "selectedNodes"; "items"])
      | VArr items => collectIds items      (* arrays are iterable *)
      | _ => []
      end
  end.

(** [getSelectedNodeIds] *)
Definition getSelectedNodeIds (w : World) (ctx : CanvasContext) : list string :=
  match viewOf w (ctx_view ctx) with
  | Some view => getSelectedCanvasNodeIdsFromInternalSelection view
  | None => []
  end.

(** ** Attaching the guard, finding the active canvas *)

(** [attachStyleGuardToCanvas], as far as the engine state goes. *)
Definition attachStyleGuardToCanvas (v : viewId) (path : string) (s : Manager)
  : Manager :=
  if bool_decide (is_Some (observer s))
     && bool_decide (observedCanvasPath s = Some path)
  then s
  else set_observer (Some path)
         (set_observedView (Some v) (set_observedCanvasPath (Some path) s)).

(** [ensureGuardAttached] *)
Definition ensureGuardAttached (ctx : CanvasContext) (s : Manager) : Manager :=
  attachStyleGuardToCanvas (ctx_view ctx) (canvasPath ctx) s.

(** [getActiveCanvasContext] *)
Definition getActiveCanvasContext (w : World) : option CanvasContext :=
  let candidates :=
    match mostRecentLeaf w with Some l => [l] | None => [] end ++ canvasLeaves w in
  let ctxOf (leaf : Leaf) : option CanvasContext :=
    match leaf_view leaf with
    | Some v =>
        match viewOf w v with
        | Some view =>
            if bool_decide (getViewType view = "canvas") then
              match file view with
              | Some path =>
                  if bool_decide (path = "") then None
                  else Some {| ctx_view := v; canvasPath := path |}
              | None => None
              end
            else None
        | None => None
        end
    | None => None
    end in
  head (omap ctxOf candidates).

(** ** The toggle command (src/main.ts) *)

(** The [checkCallback] of [toggle-lock-selected-cards]: the boolean it
    returns and the state afterwards.  Saving the plugin data and the
    notice are the host's. *)
Definition toggleLockSelectedCards (checking : bool) (s : Manager) (w : World)
  : bool * (Manager * World) :=
  match getActiveCanvasContext w with
  | None => (false, (s, w))
  | Some ctx =>
      let selectedIds := getSelectedNodeIds w ctx in
      if bool_decide (length selectedIds = 0) then (false, (s, w))
      else if checking then (true, (s, w))
      else
        let s1 := ensureGuardAttached ctx s in
        let anyUnlocked :=
          existsb (λ id, negb (isLocked s1 (canvasPath ctx) id)) selectedIds in
        let newLockedState := anyUnlocked in
        let s2 := fold_left (λ acc id, setLocked (canvasPath ctx) id newLockedState acc)
                            selectedIds s1 in
        let s3 := fold_left
                    (λ acc id, if newLockedState then snapshotOnLock w ctx id acc
                               else forgetOnUnlock (canvasPath ctx) id acc)
                    selectedIds s2 in
        (true, applyLockedClasses ctx s3 w)
  end.

(** ** The detectors *)

(** The CSS engine of the host: what [style.getPropertyValue],
    [style.setProperty] and [style.removeProperty] do to the text of an
    inline [style] attribute. *)
Record CssEngine := mkCss {
  getPropertyValue : string → string → string;
  setProperty : option string → string → string → option string;
  removeProperty : option string → string → option string
}.

(** [restoreModelSnapshot] on the view a reference denotes. *)
Definition restoreModelSnapshotIn (w : World) (v : viewId) (nodeId : string)
    (snap : ModelSnapshot) : World :=
  match viewOf w v with
  | Some view =>
      let '(view', calls) := restoreModelSnapshot view nodeId snap in
      set_hostCalls (hostCalls w ++ calls) (set_views (<[v := view']> (views w)) w)
  | None => w
  end.

(** [!currentModel || !isSameSnapshot(currentModel, savedModel)] *)
Definition diverged (w : World) (v : viewId) (nodeId : string)
    (savedModel : ModelSnapshot) : bool :=
  match viewOf w v with
  | Some view =>
      match readModelSnapshot view nodeId with
      | None => true
      | Some currentModel => negb (isSameSnapshot currentModel savedModel)
      end
  | None => true
  end.

(** [shouldThrottleRestore], with the clock value [Date.now()] gives it. *)
Definition shouldThrottleRestore (path nodeId : string) (now : Z) (s : Manager)
  : bool * Manager :=
  let map := default ∅ (lastRestoreAtByCanvas s !! path) in
  let last := default 0%Z (map !! nodeId) in
  if bool_decide (now - last < 50)%Z
  then (true, set_lastRestoreAtByCanvas (<[path := map]> (lastRestoreAtByCanvas s)) s)
  else (false, set_lastRestoreAtByCanvas
                 (<[path := <[nodeId := now]> map]> (lastRestoreAtByCanvas s)) s).

Record MutationRecord := mkMutation {
  mr_type : string;
  mr_target : option elemId     (* the target when it is an [HTMLElement] *)
}.

Section Detectors.
Variable css : CssEngine.

Definition positionProps : list string :=
  ["left"; "top"; "width"; "height"; "transform"].

(** [restorePositionStyleOnly]; the engine declares it twice, with the
    same text. *)
Definition restorePositionStyleOnly (nodeEl : elemId) (savedStyle : string)
    (d : list Element) : list Element :=
  alter
    (λ e, set_style e
            (fold_left
               (λ current prop,
                  let v := getPropertyValue css savedStyle prop in
                  if bool_decide (v = "") then removeProperty css current prop
                  else setProperty css current prop v)
               positionProps (style e)))
    nodeEl d.

(** One round of the loop of [enforceLockedNodesOnce]. *)
Definition enforceNode (v : viewId) (path : string) (st : Manager * World)
    (nodeId : string) : Manager * World :=
  let '(s, w) := st in
  match resolveNodeElById w v nodeId s with
  | (None, s1) => (s1, w)
  | (Some el, s1) =>
      let s2 := set_nodeIdByEl (<[el := nodeId]> (nodeIdByEl s1)) s1 in
      match savedModelOf s2 path nodeId with
      | Some savedModel =>
          if diverged w v nodeId savedModel
          then (s2, restoreModelSnapshotIn w v nodeId savedModel)
          else (s2, w)
      | None =>
          match savedMoveStyleOf s2 path nodeId with
          | Some savedMoveStyle =>
              let moveEl := default (findMoveElement (dom w) el)
                                    (moveElByNodeEl s2 !! el) in
              (set_moveElByNodeEl (<[el := moveEl]> (moveElByNodeEl s2)) s2,
               set_dom (restorePositionStyleOnly moveEl savedMoveStyle (dom w)) w)
          | None =>
              match savedStyleOf s2 path nodeId with
              | Some savedStyle =>
                  (s2, set_dom (restorePositionStyleOnly el savedStyle (dom w)) w)
              | None => (s2, w)
              end
          end
      end
  end.

(** [enforceLockedNodesOnce] *)
Definition enforceLockedNodesOnce (s : Manager) (w : World) : Manager * World :=
  match observedView s, observedCanvasPath s with
  | Some v, Some path =>
      if bool_decide (path = "") then (s, w)
      else fold_left (enforceNode v path) (lockedIdsOf s path) (s, w)
  | _, _ => (s, w)
  end.

(** [this.settings.disableLockWhileAltDown && this.altDown] *)
Definition shouldBypass (s : Manager) : bool :=
  disableLockWhileAltDown (settings s) && altDown s.

(** [startEnforcementLoop] *)
Definition startEnforcementLoop (until : Deadline) (s : Manager) : Manager :=
  let s1 := set_enforceUntil (deadline_max (enforceUntil s) until) s in
  if enforcing s1 then s1
  else set_enforcementRaf true (set_enforcing true s1).

(** The frame callback [tick] of the enforcement loop, run at clock
    value [now]. *)
Definition tick (now : Z) (s : Manager) (w : World) : Manager * World :=
  if negb (enforcing s) then (s, w)
  else
    let '(s1, w1) :=
      if negb (shouldBypass s) then enforceLockedNodesOnce s w else (s, w) in
    if pointerIsDown s1 || before now (enforceUntil s1)
    then (set_enforcementRaf true s1, w1)
    else (set_enforceUntil (At 0)
            (set_enforcementRaf false (set_enforcing false s1)), w1).

(** One round of the loop of the mutation-observer callback of the
    observer attached for [path]; [now] is the clock value while the
    record is handled, [pending] the elements whose [restoring] mark a
    queued microtask will clear. *)
Definition observeRecord (path : string) (v : viewId)
    (st : Manager * World * list elemId) (rec : MutationRecord * Z)
  : Manager * World * list elemId :=
  let '(s, w, pending) := st in
  let '(m, now) := rec in
  if negb (bool_decide (mr_type m = "attributes")) then st
  else
    match mr_target m with
    | None => st
    | Some target =>
        match
          (if hasClass (dom w) target "canvas-node" then Some target
           else match closest (dom w) target SelCanvasNode with
                | Some n => Some n
                | None => querySelector (dom w) target SelLockedNode
                end)
        with
        | None => st
        | Some nodeEl =>
            if negb (hasClass (dom w) nodeEl "lc-locked") then st
            else
              match nodeIdByEl s !! nodeEl with
              | None => st
              | Some nodeId =>
                  if bool_decide (nodeId = "") then st
                  else
                    let savedStyle := savedStyleOf s path nodeId in
                    let savedMoveStyle := savedMoveStyleOf s path nodeId in
                    let savedModel := savedModelOf s path nodeId in
                    if bool_decide (savedStyle = None)
                       && bool_decide (savedMoveStyle = None)
                       && bool_decide (savedModel = None)
                    then st
                    else if bool_decide (nodeEl ∈ restoring s) then st
                    else
                      let s1 := set_restoring ({[nodeEl]} ∪ restoring s) s in
                      let pending' := pending ++ [nodeEl] in
                      match savedModel with
                      | Some savedModel =>
                          if diverged w v nodeId savedModel then
                            match shouldThrottleRestore path nodeId now s1 with
                            | (true, s2) => (s2, w, pending')
                            | (false, s2) =>
                                (s2, restoreModelSnapshotIn w v nodeId savedModel,
                                 pending')
                            end
                          else (s1, w, pending')
                      | None =>
                          let moveEl := default nodeEl (moveElByNodeEl s1 !! nodeEl) in
                          match savedMoveStyle, savedStyle with
                          | Some sm, _ =>
                              (s1, set_dom (restorePositionStyleOnly moveEl sm (dom w)) w,
                               pending')
                          | None, Some ss =>
                              (s1, set_dom (restorePositionStyleOnly nodeEl ss (dom w)) w,
                               pending')
                          | None, None => (s1, w, pending')
                          end
                      end
              end
        end
    end.

(** The mutation-observer callback. *)
Definition observerCallback (path : string) (mutations : list (MutationRecord * Z))
    (s : Manager) (w : World) : Manager * World * list elemId :=
  if shouldBypass s then (s, w, [])
  else
    match observedView s with
    | None => (s, w, [])
    | Some v => fold_left (observeRecord path v) mutations (s, w, [])
    end.

(** The queued microtasks [() => this.restoring.delete(nodeEl)]. *)
Definition runMicrotasks (pending : list elemId) (s : Manager) : Manager :=
  set_restoring (fold_left (λ r el, r ∖ {[el]}) pending (restoring s)) s.

(** A batch of mutation records delivered to the attached observer, and
    the microtasks it queued. *)
Definition deliverMutations (mutations : list (MutationRecord * Z))
    (s : Manager) (w : World) : Manager * World :=
  match observer s with
  | None => (s, w)
  | Some path =>
      let '(s1, w1, pending) := observerCallback path mutations s w in
      (runMicrotasks pending s1, w1)
  end.
End Detectors.

(** ** Modifier tracking ([installAltKeyTracking]) *)

Module AltKeyTracking.
Definition onKeyDown (key : string) (s : Manager) : Manager :=
  if bool_decide (key = "Alt") then set_altDown true s else s.

Definition onKeyUp (key : string) (s : Manager) : Manager :=
  if bool_decide (key = "Alt") then set_altDown false s else s.
End AltKeyTracking.

(** ** The input guard ([attachInputGuardToCanvas]) *)

Module InputGuard.
(** [onPointerDown]; [target] is the event target when it is an
    [HTMLElement]. *)
Definition onPointerDown (target : option elemId) (pointerId : Z)
    (s : Manager) (w : World) : Manager :=
  let s1 := set_pointerIsDown true s in
  if shouldBypass s1 then s1
  else
    let s2 :=
      match target with
      | Some t =>
          match closest (dom w) t SelLockedNode with
          | Some _ => set_blockedPointerId (Some pointerId) s1
          | None => s1
          end
      | None => s1
      end in
    startEnforcementLoop Forever s2.

(** [onPointerMove]: whether the event is suppressed. *)
Definition onPointerMove (pointerId : Z) (s : Manager) : bool :=
  if shouldBypass s then false
  else match blockedPointerId s with
       | None => false
       | Some blocked => bool_decide (pointerId = blocked)
       end.

(** [onPointerUp], run at clock value [now]. *)
Definition onPointerUp (now : Z) (s : Manager) : Manager :=
  let s1 := set_blockedPointerId None (set_pointerIsDown false s) in
  if shouldBypass s1 then s1
  else startEnforcementLoop (At (now + 250)) s1.

(** [onKeyDown], run at clock value [now]. *)
Definition onKeyDown (key : string) (now : Z) (s : Manager) : Manager :=
  if shouldBypass s then s
  else if bool_decide (key ∈ ["ArrowUp"; "ArrowDown"; "ArrowLeft"; "ArrowRight"])
       then startEnforcementLoop (At (now + 400)) s
       else s.
End InputGuard.

(** [setSettings] *)
Definition setSettings (st : LockCardsSettings) (s : Manager) : Manager :=
  set_settings st s.

(** * Notions used to state the properties *)

(** [x] and [y] are equal within the absolute tolerance 1e-4. *)
Definition within (x y : Q) : Prop := (Qabs (x - y) <= 1 # 10000)%Q.



(** A candidate exposes numeric [x] and [y]. *)
Definition exposesXY (base : value) : bool :=
  is_number (get_prop base "x") && is_number (get_prop base "y").

(** The candidates in priority order, each with the shape it stands for. *)
Definition candidates (o : value) : list (value * Mode) :=
  [(o, MTop); (get_prop o "pos", MPos); (get_prop o "rect", MRect);
   (get_prop o "data", MData)].

(** The size taken from [k1] when it is numeric, failing that from [k2]. *)
Inductive sizeFrom (base : value) (k1 k2 : string) : option Q → Prop :=
| size_first q :
    get_prop base k1 = VNum q → sizeFrom base k1 k2 (Some q)
| size_second q :
    is_number (get_prop base k1) = false → get_prop base k2 = VNum q →
    sizeFrom base k1 k2 (Some q)
| size_none :
    is_number (get_prop base k1) = false → is_number (get_prop base k2) = false →
    sizeFrom base k1 k2 None.

(** What the specification lets [readModelSnapshot] return. *)
Inductive readsAs (view : CanvasViewLike) (nodeId : string)
  : option ModelSnapshot → Prop :=
| reads_first o pre base m post x y w h :
    nodeObject view nodeId = Some o →
    candidates o = pre ++ (base, m) :: post →
    Forall (λ c, exposesXY c.1 = false) pre →
    get_prop base "x" = VNum x → get_prop base "y" = VNum y →
    sizeFrom base "width" "w" w → sizeFrom base "height" "h" h →
    readsAs view nodeId (Some (mkSnap m x y w h))
| reads_no_candidate o :
    nodeObject view nodeId = Some o →
    Forall (λ c, exposesXY c.1 = false) (candidates o) →
    readsAs view nodeId None
| reads_no_object :
    nodeObject view nodeId = None → readsAs view nodeId None.

Definition geometryFields : list string := ["x"; "y"; "width"; "height"; "w"; "h"].

(** The number [applyTo] stores under the property [f] of a base it accepts. *)
Definition written (snap : ModelSnapshot) (base : value) (f : string) : option Q :=
  if bool_decide (f = "x") then Some (snap_x snap)
  else if bool_decide (f = "y") then Some (snap_y snap)
  else if bool_decide (f = "width") then
    if is_number (get_prop base "width") then snap_w snap else None
  else if bool_decide (f = "w") then
    if is_number (get_prop base "width") then None
    else if is_number (get_prop base "w") then snap_w snap else None
  else if bool_decide (f = "height") then
    if is_number (get_prop base "height") then snap_h snap else None
  else if bool_decide (f = "h") then
    if is_number (get_prop base "height") then None
    else if is_number (get_prop base "h") then snap_h snap else None
  else None.

(** The bases of [restoreModelSnapshot]: the node object and three nested
    fields whose names are not geometry properties. *)
Definition okBase (b : Base) : Prop :=
  match b with
  | BSelf => True
  | BField k => k ∉ geometryFields
  end.

(** The six geometry properties of the base [b] of the node object [o]. *)
Definition geometryAt (o : value) (b : Base) : list value :=
  (λ f, get_prop (base_of o b) f) <$> geometryFields.

#[global] Arguments applyTo : simpl never.

#[global] Instance Base_eq_dec : EqDecision Base.
Proof. solve_decision. Defined.

(** The shape a snapshot records, as a base of the node object. *)
Definition recordedBase (m : Mode) : option Base :=
  match m with
  | MTop => Some BSelf
  | MPos => Some (BField "pos")
  | MRect => Some (BField "rect")
  | MData => Some (BField "data")
  | MUnknown => None
  end.





(** [s'] is [s] but for the two element caches [nodeIdByEl] and
    [moveElByNodeEl]. *)
Definition sameButCaches (s s' : Manager) : Prop :=
  s' = set_moveElByNodeEl (moveElByNodeEl s') (set_nodeIdByEl (nodeIdByEl s') s).

(** *** Geometry mutations made by the host *)

(** A move or a resize as the host performs it: a number assigned to a
    property of the node object, or of one of its nested objects, that
    holds a number. *)
Record GeomMutation := mkGeomMutation {
  gm_node : string;
  gm_base : Base;
  gm_field : string;
  gm_value : Q
}.

(** [base[f] = q] where [base[f]] is a number. *)
Definition assignNumber (base : value) (f : string) (q : Q) : value :=
  if is_number (get_prop base f) then set_prop base f (VNum q) else base.

Definition mutateNode (m : GeomMutation) (o : value) : value :=
  match gm_base m with
  | BSelf => assignNumber o (gm_field m) (gm_value m)
  | BField k =>
      match get_prop o k with
      | VObj f => set_prop o k (assignNumber (VObj f) (gm_field m) (gm_value m))
      | _ => o
      end
  end.

Definition mutateView (m : GeomMutation) (view : CanvasViewLike) : CanvasViewLike :=
  match nodeObject view (gm_node m) with
  | Some o => putNode view (gm_node m) (mutateNode m o)
  | None => view
  end.

Definition mutateWorld (v : viewId) (w : World) (m : GeomMutation) : World :=
  match viewOf w v with
  | Some view => set_views (<[v := mutateView m view]> (views w)) w
  | None => w
  end.

(** A sequence of mutations of the nodes of the view [v]. *)
Definition mutateAll (v : viewId) (ms : list GeomMutation) (w : World) : World :=
  fold_left (mutateWorld v) ms w.

(** The same geometry properties are numbers in [o] and in [o'], in the
    node object and in its nested objects. *)
Definition numProfile (o o' : value) : Prop :=
  ∀ b f, okBase b → f ∈ geometryFields →
         is_number (get_prop (base_of o' b) f) = is_number (get_prop (base_of o b) f).

(** The order in which [readModelSnapshot] tries the bases. *)
Definition readOrder : list (Base * Mode) :=
  [(BSelf, MTop); (BField "pos", MPos); (BField "rect", MRect);
   (BField "data", MData)].

(** A DOM without its inline styles. *)
Definition skeleton (d : list Element)
  : list (option elemId * list string * gmap string string) :=
  (λ e, (parentElement e, classList e, attributes e)) <$> d.

(** The time of the last restore the observer recorded for a node. *)
Definition lastOf (s : Manager) (path nodeId : string) : Z :=
  default 0%Z (default ∅ (lastRestoreAtByCanvas s !! path) !! nodeId).



(** *** Events of the host *)








(** The geometry read from the node [id] of the view [v]. *)
Definition geometryOf (w : World) (v : viewId) (id : string)
  : option ModelSnapshot :=
  match viewOf w v with
  | Some view => readModelSnapshot view id
  | None => None
  end.

Module Fixture.
(** A node whose geometry lives in [pos], with a stray top-level [x]; its
    element is held in [nodeEl]. *)
Definition nodeA : value :=
  VObj {[ "x" := VNum 5;
          "pos" := VObj {[ "x" := VNum 1; "y" := VNum 2;
                           "width" := VNum 3; "h" := VNum 4 ]};
          "rect" := VObj {[ "x" := VNum 7; "y" := VNum 8 ]};
          "nodeEl" := VElem 2 ]}.

(** A node whose [pos] has lost its numeric [y]; its element is found by
    its [data-node-id] attribute. *)
Definition nodeB : value :=
  VObj {[ "x" := VNum 100; "y" := VNum 200;
          "pos" := VObj {[ "x" := VNum 1; "y" := VStr "2" ]} ]}.

(** A node with geometry and no element in the document. *)
Definition nodeC : value :=
  VObj {[ "x" := VNum 50; "y" := VNum 60 ]}.

Definition canvasA : value :=
  VObj {[ "nodes" := VMap {[ "n1" := nodeA; "n2" := nodeB; "n3" := nodeC ]};
          "selection" := VSet [VStr "n1"; VObj {[ "id" := VStr "n3" ]}];
          "requestFrame" := VFun false ]}.

Definition viewA : CanvasViewLike :=
  {| getViewType := "canvas"; containerEl := 0; file := Some "a.canvas";
     canvas := canvasA |}.

(** The container, a positioned wrapper, the element of [n1] inside the
    wrapper, the element of [n2]. *)
Definition domA : list Element :=
  [ mkElement None None [] ∅;
    mkElement (Some 0) (Some "transform: translate(1px, 2px)") [] ∅;
    mkElement (Some 1) None ["canvas-node"] ∅;
    mkElement (Some 0) (Some "left: 100px; top: 200px") ["canvas-node"]
              {[ "data-node-id" := "n2" ]} ].

Definition worldA : World :=
  {| dom := domA; views := {[ 0 := viewA ]};
     mostRecentLeaf := Some (mkLeaf (Some 0)); canvasLeaves := [];
     hostCalls := [] |}.

Definition ctxA : CanvasContext := {| ctx_view := 0; canvasPath := "a.canvas" |}.

Definition snapA : ModelSnapshot := mkSnap MPos 10 20 (Some 30%Q) (Some 40%Q).

(** The engine as the plugin creates it, with nothing locked. *)
Definition mgr0 : Manager := initManager ∅ DEFAULT_SETTINGS.

(** The engine and the host after the toggle command ran on the
    selection of [worldA]: [n1] and [n3] are locked, [n1] has its
    snapshots and its element the class [lc-locked]. *)
Definition mgr1 : Manager := (toggleLockSelectedCards false mgr0 worldA).2.1.
Definition worldL : World := (toggleLockSelectedCards false mgr0 worldA).2.2.

(** The engine after the canvas was activated again: priming gave [n3] a
    geometry snapshot. *)
Definition mgr2 : Manager := primeLockedSnapshots ctxA mgr1 worldL.

Definition snapN1 : ModelSnapshot := mkSnap MPos 1 2 (Some 3%Q) (Some 4%Q).
Definition snapN3 : ModelSnapshot := mkSnap MTop 50 60 None None.

(** The host moves and widens [n1], moves [n3]. *)
Definition moveN1 : list GeomMutation :=
  [mkGeomMutation "n1" (BField "pos") "x" 111;
   mkGeomMutation "n1" (BField "pos") "width" 333].

Definition moveN1Again : GeomMutation :=
  mkGeomMutation "n1" (BField "pos") "x" 222.


(** A CSS engine that keeps inline styles as they are. *)
Definition css0 : CssEngine :=
  {| getPropertyValue := λ _ _, "";
     setProperty := λ current _ _, current;
     removeProperty := λ current _, current |}.

(** A pointer goes down on the element of [n1]: the enforcement loop
    runs. *)
Definition mgrDown : Manager := InputGuard.onPointerDown (Some 2) 1 mgr2 worldL.

(** The modifier goes down as well. *)
Definition mgrAlt : Manager := AltKeyTracking.onKeyDown "Alt" mgrDown.
End Fixture.

(** * The rest of the plugin

    The functions of the plugin that the specification says nothing of:
    the other commands of src/main.ts, [dispose], and the stored plugin
    data (src/data/pluginData.ts); then runs of the engine, and the
    notions used to state what the engine keeps through them. *)

(** ** The other commands (src/main.ts) *)

(** The [checkCallback] of [lock-selected-cards]: the boolean it returns
    and the state afterwards. *)
Definition lockSelectedCards (checking : bool) (s : Manager) (w : World)
  : bool * (Manager * World) :=
  match getActiveCanvasContext w with
  | None => (false, (s, w))
  | Some ctx =>
      let selectedIds := getSelectedNodeIds w ctx in
      if bool_decide (length selectedIds = 0) then (false, (s, w))
      else if checking then (true, (s, w))
      else
        let s1 := ensureGuardAttached ctx s in
        let s2 := fold_left
                    (λ acc id, snapshotOnLock w ctx id
                                 (setLocked (canvasPath ctx) id true acc))
                    selectedIds s1 in
        (true, applyLockedClasses ctx s2 w)
  end.

(** The [checkCallback] of [unlock-selected-cards]. *)
Definition unlockSelectedCards (checking : bool) (s : Manager) (w : World)
  : bool * (Manager * World) :=
  match getActiveCanvasContext w with
  | None => (false, (s, w))
  | Some ctx =>
      let selectedIds := getSelectedNodeIds w ctx in
      if bool_decide (length selectedIds = 0) then (false, (s, w))
      else if checking then (true, (s, w))
      else
        let s1 := ensureGuardAttached ctx s in
        let s2 := fold_left
                    (λ acc id, forgetOnUnlock (canvasPath ctx) id
                                 (setLocked (canvasPath ctx) id false acc))
                    selectedIds s1 in
        (true, applyLockedClasses ctx s2 w)
  end.

(** The callback of [unlock-all-cards-in-active-canvas]. *)
Definition unlockAllCardsInActiveCanvas (s : Manager) (w : World)
  : Manager * World :=
  match getActiveCanvasContext w with
  | None => (s, w)
  | Some ctx => (unlockAllInCanvas ctx s w).2
  end.

(** The handler of [active-leaf-change]; [onload] ends with the same three
    calls. *)
Definition onActiveLeafChange (s : Manager) (w : World) : Manager * World :=
  match getActiveCanvasContext w with
  | None => (s, w)
  | Some ctx =>
      let s1 := ensureGuardAttached ctx s in
      let '(s2, w2) := applyLockedClasses ctx s1 w in
      (primeLockedSnapshots ctx s2 w2, w2)
  end.

(** [dispose], as far as the engine state goes: the observer is
    disconnected and dropped, the pending frame callback is cancelled. *)
Definition dispose (s : Manager) : Manager :=
  set_enforcing false (set_enforcementRaf false (set_observer None s)).

(** ** The stored plugin data (src/data/pluginData.ts) *)

Record LoadedPluginState := mkLoaded {
  loaded_lockedByCanvas : value;
  loaded_settings : LockCardsSettings
}.

(** [v === 1] *)
Definition is_one (v : value) : bool :=
  match v with VNum q => Qeq_bool q 1 | _ => false end.

(** [v ?? d] *)
Definition nullish_or (v d : value) : value :=
  match v with VUndefined | VNull => d | _ => v end.

Section PluginData.
(** [isRecord] of src/utils/guards, which is not among the sources. *)
Variable isRecord : value → bool.

(** [loadPluginState], on what [plugin.loadData()] resolved to. *)
Definition loadPluginState (loaded : value) : LoadedPluginState :=
  if negb (is_object loaded) then
    {| loaded_lockedByCanvas := VObj ∅; loaded_settings := DEFAULT_SETTINGS |}
  else if is_one (get_prop loaded "version") then
    let lockedByCanvas := nullish_or (get_prop loaded "lockedByCanvas") (VObj ∅) in
    let rawSettings :=
      if isRecord (get_prop loaded "settings") then get_prop loaded "settings"
      else VNull in
    let disableLockWhileAltDown :=
      match get_prop rawSettings "disableLockWhileAltDown" with
      | VBool false => false
      | _ => true
      end in
    let enableDebugLogging :=
      match get_prop rawSettings "enableDebugLogging" with
      | VBool true => true
      | _ => false
      end in
    {| loaded_lockedByCanvas := lockedByCanvas;
       loaded_settings :=
         {| disableLockWhileAltDown := disableLockWhileAltDown;
            enableDebugLogging := enableDebugLogging |} |}
  else
    {| loaded_lockedByCanvas := loaded; loaded_settings := DEFAULT_SETTINGS |}.
End PluginData.

(** The settings as the object that is stored. *)
Definition settingsObject (st : LockCardsSettings) : value :=
  VObj (<["disableLockWhileAltDown" := VBool (disableLockWhileAltDown st)]>
          (<["enableDebugLogging" := VBool (enableDebugLogging st)]> ∅)).

(** [savePluginState]: the data handed to [plugin.saveData]. *)
Definition savePluginState (state : LoadedPluginState) : value :=
  VObj (<["version" := VNum 1]>
          (<["lockedByCanvas" := loaded_lockedByCanvas state]>
             (<["settings" := settingsObject (loaded_settings state)]> ∅))).

(** ** Runs of the engine *)

(** What the engine is called for: the commands and the leaf-change
    handler of the plugin, a change of settings, the handlers of the key
    tracking and of the input guard, a frame of the enforcement loop, a
    batch of mutation records; between two calls the host may change its
    DOM, its views and its leaves. *)
Inductive EngineEvent :=
| EToggle
| ELockSelected
| EUnlockSelected
| EUnlockAll
| ELeafChange
| ESetSettings (st : LockCardsSettings)
| EAltKeyDown (key : string)
| EAltKeyUp (key : string)
| EPointerDown (target : option elemId) (pointerId : Z)
| EPointerUp (now : Z)
| EGuardKeyDown (key : string) (now : Z)
| EFrame (now : Z)
| EMutations (batch : list (MutationRecord * Z))
| EHost (w : World).

Definition engineStep (css : CssEngine) (st : Manager * World) (e : EngineEvent)
  : Manager * World :=
  let '(s, w) := st in
  match e with
  | EToggle => (toggleLockSelectedCards false s w).2
  | ELockSelected => (lockSelectedCards false s w).2
  | EUnlockSelected => (unlockSelectedCards false s w).2
  | EUnlockAll => unlockAllCardsInActiveCanvas s w
  | ELeafChange => onActiveLeafChange s w
  | ESetSettings x => (setSettings x s, w)
  | EAltKeyDown key => (AltKeyTracking.onKeyDown key s, w)
  | EAltKeyUp key => (AltKeyTracking.onKeyUp key s, w)
  | EPointerDown target pointerId => (InputGuard.onPointerDown target pointerId s w, w)
  | EPointerUp now => (InputGuard.onPointerUp now s, w)
  | EGuardKeyDown key now => (InputGuard.onKeyDown key now s, w)
  | EFrame now => tick css now s w
  | EMutations batch => deliverMutations css batch s w
  | EHost w' => (s, w')
  end.

Definition engineRun (css : CssEngine) (es : list EngineEvent)
    (st : Manager * World) : Manager * World :=
  fold_left (engineStep css) es st.

(** *** Notions used below *)

(** Some snapshot is stored for the node. *)
Definition hasSnapshot (s : Manager) (path nodeId : string) : Prop :=
  is_Some (savedStyleOf s path nodeId) ∨ is_Some (savedMoveStyleOf s path nodeId)
  ∨ is_Some (savedModelOf s path nodeId).

(** Snapshots are stored for locked nodes only. *)
Definition snapshotsOfLocked (s : Manager) : Prop :=
  ∀ path nodeId, hasSnapshot s path nodeId → isLocked s path nodeId = true.

(** A DOM without the lock marker [lc-locked]. *)
Definition unmarked (d : list Element)
  : list (option elemId * option string * list string * gmap string string) :=
  (λ e, (parentElement e, style e,
         filter (λ c, c ≠ "lc-locked") (classList e), attributes e)) <$> d.

(** The three snapshots stored for a node: element style, move-element
    style, geometry. *)
Definition snapshotsAt (s : Manager) (path nodeId : string)
  : option string * option string * option ModelSnapshot :=
  (savedStyleOf s path nodeId, savedMoveStyleOf s path nodeId,
   savedModelOf s path nodeId).

(** The snapshots of a node once [snapshotOnLock] has run for it, [old]
    being the ones stored before: all three are taken anew when the
    element of the node resolves, but for the geometry when it cannot be
    read. *)
Definition retaken (d : list Element) (view : CanvasViewLike) (nodeId : string)
    (old : option string * option string * option ModelSnapshot)
  : option string * option string * option ModelSnapshot :=
  match resolveNodeEl d view nodeId with
  | Some el =>
      (Some (default "" (getStyle d el)),
       Some (default "" (getStyle d (findMoveElement d el))),
       or_else (readModelSnapshot view nodeId) old.2)
  | None => old
  end.

(** What the detectors are to leave alone: the locked ids, the snapshots
    and the settings. *)
Definition lockStore (s : Manager) :=
  (lockedByCanvas s, lockedStyleByCanvas s, lockedMoveStyleByCanvas s,
   lockedModelByCanvas s, settings s).

(** The snapshots of a locked node once [primeLockedSnapshots] has run,
    [old] being the ones stored before: an element style and a geometry
    are taken where none was stored, the move-element style is left as it
    is. *)
Definition primed (d : list Element) (view : CanvasViewLike) (nodeId : string)
    (old : option string * option string * option ModelSnapshot)
  : option string * option string * option ModelSnapshot :=
  (or_else old.1.1
     ((λ el, default "" (getStyle d el)) <$> resolveNodeEl d view nodeId),
   old.1.2,
   or_else old.2 (readModelSnapshot view nodeId)).

(** What the commands are to leave alone: the modifier, the pointer and
    the state of the enforcement loop. *)
Definition loopState (s : Manager) :=
  (altDown s, pointerIsDown s, blockedPointerId s, enforcing s,
   enforcementRaf s, enforceUntil s).

(** The enforcement loop at rest: no frame callback is pending and no
    deadline is left over. *)
Definition loopConsistent (s : Manager) : Prop :=
  enforcementRaf s = enforcing s ∧
  (enforcing s = false → enforceUntil s = At 0).

(** The loop runs with no deadline. *)
Definition runsForever (s : Manager) : Prop :=
  enforcing s = true ∧ enforceUntil s = Forever.

(** The hook [m] of the canvas object is a function that throws, or one
    that returns. *)
Definition throwing (canvasObj : value) (m : string) : bool :=
  match get_prop canvasObj m with VFun true => true | _ => false end.

Definition returning (canvasObj : value) (m : string) : bool :=
  match get_prop canvasObj m with VFun false => true | _ => false end.

(** The leaves [getActiveCanvasContext] looks at, in order. *)
Definition candidateLeaves (w : World) : list Leaf :=
  match mostRecentLeaf w with Some l => [l] | None => [] end ++ canvasLeaves w.

(** The leaf holds a canvas view with a file of non-empty path, which is
    what the context names. *)
Definition canvasLeaf (w : World) (leaf : Leaf) (ctx : CanvasContext) : Prop :=
  ∃ view, leaf_view leaf = Some (ctx_view ctx) ∧
          viewOf w (ctx_view ctx) = Some view ∧
          getViewType view = "canvas" ∧
          file view = Some (canvasPath ctx) ∧ canvasPath ctx ≠ "".

(** ** The selection, with its output array *)

(** [getSelectedCanvasNodeIdsFromInternalSelection] once more, this time
    with the array [out] that all its loops push onto, as the source has
    it. *)

(** The loop over the items of a set or an array, pushing onto [out]. *)
Fixpoint pushIds (items : list value) (out : list string) : list string :=
  match items with
  | [] => out
  | VStr id :: rest => pushIds rest (out ++ [id])
  | item :: rest =>
      if is_object item then
        match get_prop item "id" with
        | VStr id => pushIds rest (out ++ [id])
        | _ => pushIds rest out
        end
      else pushIds rest out
  end.

(** The loop over the keys of the selection object: what it returns from
    inside ([inl]), or the array [out] as the loop leaves it ([inr]). *)
Fixpoint pushFromKeys (sel : value) (keys : list string) (out : list string)
  : list string + list string :=
  match keys with
  | [] => inr out
  | key :: rest =>
      match get_prop sel key with
      | VSet items | VArr items =>
          let out' := pushIds items out in
          if bool_decide (0 < length out') then inl out'
          else pushFromKeys sel rest out'
      | _ => pushFromKeys sel rest out
      end
  end.

Definition selectedIdsWithOut (view : CanvasViewLike) : list string :=
  match getCanvasFromView view with
  | None => []
  | Some c =>
      match get_prop c "selection" with
      | VSet items => pushIds items []
      | (VObj _ | VArr _ | VMap _ | VElem _) as sel =>
          match pushFromKeys sel ["nodes"; "selectedNodes"; "items"] [] with
          | inl out => out
          | inr out =>
              match sel with
              | VArr items =>           (* the selection is iterable *)
                  let out' := pushIds items out in
                  if bool_decide (0 < length out') then out' else []
              | _ => []    (* not iterable, or a [Map]: its entries have no [id] *)
              end
          end
      | _ => []
      end
  end.

(** * Properties *)

(** ** The divergence test *)

Lemma close_within x y : close x y = true ↔ within x y.
Proof. unfold close, within, eps. apply Qle_bool_iff. Qed.




Example isSameSnapshot_one_undefined :
  isSameSnapshot (mkSnap MTop 0 0 (Some 10%Q) None) (mkSnap MTop 0 0 None None)
  = false.
Proof. reflexivity. Qed.

Example isSameSnapshot_at_tolerance :
  isSameSnapshot (mkSnap MTop 0 0 None None)
                 (mkSnap MPos (1 # 10000) (-1 # 10000) None None) = true.
Proof. reflexivity. Qed.

Example isSameSnapshot_above_tolerance :
  isSameSnapshot (mkSnap MTop 0 0 None None)
                 (mkSnap MTop (2 # 10000) 0 None None) = false.
Proof. reflexivity. Qed.

(** ** Reading the geometry *)

Lemma sizeFrom_num_or base k1 k2 r :
  sizeFrom base k1 k2 r ↔ num_or (get_prop base k1) (get_prop base k2) = r.
Proof.
  split.
  - intros [q H | q H1 H2 | H1 H2]; unfold num_or.
    + by rewrite H.
    + rewrite H2. by destruct (get_prop base k1).
    + by destruct (get_prop base k1), (get_prop base k2).
  - intros <-. unfold num_or.
    destruct (get_prop base k1) eqn:E1;
      try (by apply size_first);
      destruct (get_prop base k2) eqn:E2;
      try (by apply size_second; rewrite ?E1);
      by apply size_none; rewrite ?E1, ?E2.
Qed.

Lemma fromObj_None base m : exposesXY base = false → fromObj base m = None.
Proof.
  unfold exposesXY, fromObj. intros H.
  destruct (is_object base); [|done].
  by destruct (get_prop base "x"), (get_prop base "y").
Qed.

Lemma fromObj_Some base m x y :
  get_prop base "x" = VNum x → get_prop base "y" = VNum y →
  fromObj base m =
    Some (mkSnap m x y (num_or (get_prop base "width") (get_prop base "w"))
                 (num_or (get_prop base "height") (get_prop base "h"))).
Proof.
  intros Hx Hy. unfold fromObj. rewrite Hx, Hy.
  destruct base; try done; simpl in Hx; discriminate.
Qed.

Lemma exposesXY_cases base :
  exposesXY base = false ∨
  ∃ x y, get_prop base "x" = VNum x ∧ get_prop base "y" = VNum y.
Proof.
  unfold exposesXY.
  destruct (get_prop base "x"); simpl; auto.
  destruct (get_prop base "y"); simpl; eauto.
Qed.

Lemma exposesXY_true base x y :
  get_prop base "x" = VNum x → get_prop base "y" = VNum y →
  exposesXY base = true.
Proof. unfold exposesXY. by intros -> ->. Qed.

Lemma readNode_first o pre base m post x y :
  candidates o = pre ++ (base, m) :: post →
  Forall (λ c, exposesXY c.1 = false) pre →
  get_prop base "x" = VNum x → get_prop base "y" = VNum y →
  readNode o = fromObj base m.
Proof.
  intros Hc Hpre Hx Hy. unfold candidates in Hc. unfold readNode.
  destruct pre as [|c1 [|c2 [|c3 [|c4 pre]]]]; simplify_eq/=.
  - by rewrite (fromObj_Some _ _ _ _ Hx Hy).
  - inversion_clear Hpre as [|?? H1 _]. simpl in H1.
    by rewrite (fromObj_None _ _ H1), (fromObj_Some _ _ _ _ Hx Hy).
  - inversion_clear Hpre as [|?? H1 Hp]. inversion_clear Hp as [|?? H2 _].
    simpl in *.
    by rewrite (fromObj_None _ _ H1), (fromObj_None _ _ H2),
         (fromObj_Some _ _ _ _ Hx Hy).
  - inversion_clear Hpre as [|?? H1 Hp]. inversion_clear Hp as [|?? H2 Hp'].
    inversion_clear Hp' as [|?? H3 _]. simpl in *.
    by rewrite (fromObj_None _ _ H1), (fromObj_None _ _ H2),
         (fromObj_None _ _ H3), (fromObj_Some _ _ _ _ Hx Hy).
  - by destruct pre.
Qed.

Lemma readNode_none o :
  Forall (λ c, exposesXY c.1 = false) (candidates o) → readNode o = None.
Proof.
  unfold candidates, readNode. intros H.
  repeat match goal with
         | H : Forall _ (_ :: _) |- _ => inversion_clear H
         end; simpl in *.
  by repeat (rewrite fromObj_None by done).
Qed.

(** C6.  [readModelSnapshot] returns the snapshot of the first candidate,
    in the order object, [pos], [rect], [data], that exposes numeric [x]
    and [y], with the shape that matched and the sizes taken from
    [width]/[height] or failing that from [w]/[h]; it returns [null] when
    no candidate qualifies. *)
Theorem readModelSnapshot_priority (view : CanvasViewLike) (nodeId : string)
    (r : option ModelSnapshot) :
  readModelSnapshot view nodeId = r ↔ readsAs view nodeId r.
Proof.
  unfold readModelSnapshot. split.
  - intros <-. destruct (nodeObject view nodeId) as [o|] eqn:Ho;
      [|by apply reads_no_object].
    destruct (exposesXY_cases o) as [H0|(x & y & Hx & Hy)].
    2:{ rewrite (readNode_first o [] o MTop _ x y eq_refl) by done.
        rewrite (fromObj_Some _ _ _ _ Hx Hy).
        eapply (reads_first _ _ o [] o MTop); eauto;
          by apply sizeFrom_num_or. }
    destruct (exposesXY_cases (get_prop o "pos")) as [H1|(x & y & Hx & Hy)].
    2:{ rewrite (readNode_first o [(o, MTop)] _ MPos _ x y eq_refl)
          by (done || by repeat constructor).
        rewrite (fromObj_Some _ _ _ _ Hx Hy).
        eapply (reads_first _ _ o [(o, MTop)] _ MPos); eauto;
          (by repeat constructor) || by apply sizeFrom_num_or. }
    destruct (exposesXY_cases (get_prop o "rect")) as [H2|(x & y & Hx & Hy)].
    2:{ rewrite (readNode_first o [(o, MTop); (get_prop o "pos", MPos)] _
                   MRect _ x y eq_refl)
          by (done || by repeat constructor).
        rewrite (fromObj_Some _ _ _ _ Hx Hy).
        eapply (reads_first _ _ o [(o, MTop); (get_prop o "pos", MPos)] _ MRect);
          eauto; (by repeat constructor) || by apply sizeFrom_num_or. }
    destruct (exposesXY_cases (get_prop o "data")) as [H3|(x & y & Hx & Hy)].
    2:{ rewrite (readNode_first o [(o, MTop); (get_prop o "pos", MPos);
                                   (get_prop o "rect", MRect)] _
                   MData [] x y eq_refl)
          by (done || by repeat constructor).
        rewrite (fromObj_Some _ _ _ _ Hx Hy).
        eapply (reads_first _ _ o [(o, MTop); (get_prop o "pos", MPos);
                                   (get_prop o "rect", MRect)] _ MData);
          eauto; (by repeat constructor) || by apply sizeFrom_num_or. }
    rewrite readNode_none by (by repeat constructor).
    eapply reads_no_candidate; [done|]. by repeat constructor.
  - intros [o pre base m post x y w h Ho Hc Hpre Hx Hy Hw Hh | o Ho Hall | Ho];
      rewrite Ho; [| by apply readNode_none | done].
    rewrite (readNode_first _ _ _ _ _ _ _ Hc Hpre Hx Hy).
    rewrite (fromObj_Some _ _ _ _ Hx Hy).
    apply sizeFrom_num_or in Hw, Hh. by rewrite Hw, Hh.
Qed.

(** ** Restoring the geometry *)

Lemma get_prop_insert b k v f :
  get_prop (VObj (<[k := v]> b)) f = if decide (k = f) then v else get_prop (VObj b) f.
Proof. simpl. rewrite lookup_insert. by case_decide. Qed.

Lemma get_prop_insert_eq b k v : get_prop (VObj (<[k := v]> b)) k = v.
Proof. rewrite get_prop_insert. by rewrite decide_True. Qed.

Lemma get_prop_insert_ne b k v f :
  k ≠ f → get_prop (VObj (<[k := v]> b)) f = get_prop (VObj b) f.
Proof. intros. rewrite get_prop_insert. by rewrite decide_False. Qed.

Ltac simp_get :=
  repeat first
    [ rewrite get_prop_insert_eq
    | rewrite get_prop_insert_ne by discriminate ].

Lemma applyTo_ok snap base : (applyTo snap base).2 = exposesXY base.
Proof.
  unfold exposesXY. destruct base; try done.
  unfold applyTo.
  destruct (is_number (get_prop (VObj fields) "x")) eqn:Ex; [|done].
  simp_get.
  destruct (is_number (get_prop (VObj fields) "y")) eqn:Ey; done.
Qed.

Lemma applyTo_accepts snap base f :
  exposesXY base = true →
  get_prop (applyTo snap base).1 f =
    match written snap base f with
    | Some q => VNum q
    | None => get_prop base f
    end.
Proof.
  unfold exposesXY. intros [Hx Hy]%andb_true_iff.
  destruct base as [| | | | | | |b| | |]; try done.
  unfold applyTo. rewrite Hx. simp_get. rewrite Hy.
  cbv zeta. simp_get.
  unfold written.
  destruct (snap_w snap) as [sw|], (snap_h snap) as [sh|];
    destruct (is_number (get_prop (VObj b) "width")) eqn:E1;
    destruct (is_number (get_prop (VObj b) "w")) eqn:E2;
    simp_get; rewrite ?E1, ?E2;
    destruct (is_number (get_prop (VObj b) "height")) eqn:E3;
    destruct (is_number (get_prop (VObj b) "h")) eqn:E4;
    cbn [fst].
  all: repeat (rewrite get_prop_insert; case_decide; [subst f|]).
  all: simp_get; rewrite ?E1, ?E2, ?E3, ?E4.
  all: repeat case_bool_decide; simplify_eq; done.
Qed.

Lemma applyTo_frame snap base f :
  f ∉ geometryFields → get_prop (applyTo snap base).1 f = get_prop base f.
Proof.
  intros Hf.
  assert (f ≠ "x" ∧ f ≠ "y" ∧ f ≠ "width" ∧ f ≠ "height" ∧ f ≠ "w" ∧ f ≠ "h")
    as (?&?&?&?&?&?).
  { unfold geometryFields in Hf. repeat split; intros ->; apply Hf; set_solver. }
  destruct base as [| | | | | | |b| | |]; try done.
  unfold applyTo.
  repeat first [ case_match | rewrite get_prop_insert_ne by done | progress cbn [fst] ];
    done.
Qed.

(** A base [applyTo] rejects keeps all its properties, but for [x] when it
    is numeric: the write to [x] precedes the test of [y]. *)
Lemma applyTo_rejects snap base f :
  exposesXY base = false →
  get_prop (applyTo snap base).1 f =
    if is_number (get_prop base "x") && bool_decide (f = "x")
    then VNum (snap_x snap) else get_prop base f.
Proof.
  unfold exposesXY. intros H.
  destruct base as [| | | | | | |b| | |]; try done.
  unfold applyTo.
  destruct (is_number (get_prop (VObj b) "x")) eqn:Ex; [|done].
  cbn [andb] in H. simp_get. rewrite H. cbn [fst andb].
  rewrite get_prop_insert. case_decide; case_bool_decide; by simplify_eq.
Qed.

(** [applyTo] never changes which properties are numbers. *)
Lemma applyTo_is_number snap base f :
  is_number (get_prop (applyTo snap base).1 f) = is_number (get_prop base f).
Proof.
  destruct (exposesXY base) eqn:E.
  - rewrite applyTo_accepts by done.
    destruct (written snap base f) eqn:W; [|done]. simpl.
    unfold exposesXY in E. apply andb_true_iff in E as [Hx Hy].
    unfold written in W. symmetry.
    repeat case_bool_decide; simplify_eq; try done;
      repeat case_match; simplify_eq; done.
  - rewrite applyTo_rejects by done.
    destruct (is_number (get_prop base "x")) eqn:Ex; [|done].
    case_bool_decide; by simplify_eq.
Qed.

Lemma applyAt_eq snap o b :
  applyAt snap o b =
    match b with
    | BSelf => applyTo snap o
    | BField k =>
        match get_prop o k with
        | VObj f => (set_prop o k (applyTo snap (VObj f)).1, (applyTo snap (VObj f)).2)
        | _ => (o, false)
        end
    end.
Proof.
  destruct b as [|k]; [done|]. unfold applyAt.
  destruct (get_prop o k); try done. by destruct (applyTo snap (VObj fields)).
Qed.

Lemma applyAt_ok snap o b : (applyAt snap o b).2 = exposesXY (base_of o b).
Proof.
  rewrite applyAt_eq. destruct b as [|k]; simpl; [apply applyTo_ok|].
  destruct (get_prop o k) eqn:E; try done. simpl. apply applyTo_ok.
Qed.

(** The base [applyAt] worked on is as [applyTo] left it. *)
Lemma applyAt_base snap o b :
  base_of (applyAt snap o b).1 b = (applyTo snap (base_of o b)).1.
Proof.
  rewrite applyAt_eq. destruct b as [|k]; simpl; [done|].
  destruct (get_prop o k) as [| | | | | | |f| | |] eqn:E; simpl; rewrite ?E; try done.
  destruct o as [| | | | | | |fo| | |]; try done.
  simpl. by rewrite lookup_insert_eq.
Qed.

(** [applyAt] on a nested base leaves the other properties of the node
    object alone. *)
Lemma applyAt_field_frame snap o k f :
  f ≠ k → get_prop (applyAt snap o (BField k)).1 f = get_prop o f.
Proof.
  intros Hf. rewrite applyAt_eq.
  destruct (get_prop o k) as [| | | | | | |fk| | |] eqn:E; try done.
  destruct o as [| | | | | | |fo| | |]; try done.
  simpl. by rewrite lookup_insert_ne.
Qed.

(** [applyAt] on one base leaves the geometry of every other base alone. *)
Lemma applyAt_other_field snap o b c f :
  okBase b → okBase c → b ≠ c → f ∈ geometryFields →
  get_prop (base_of (applyAt snap o b).1 c) f = get_prop (base_of o c) f.
Proof.
  intros Hb Hc Hne Hf.
  destruct b as [|k], c as [|k']; try done; cbn [base_of].
  - f_equal. cbn [okBase] in Hc. cbn [applyAt]. by apply applyTo_frame.
  - apply applyAt_field_frame. cbn [okBase] in Hb. by intros ->.
  - f_equal. apply applyAt_field_frame. congruence.
Qed.

Lemma applyAt_other snap o b c :
  okBase b → okBase c → b ≠ c →
  geometryAt (applyAt snap o b).1 c = geometryAt o c.
Proof.
  intros Hb Hc Hne. unfold geometryAt.
  apply list_fmap_ext. intros i f Hf%list_elem_of_lookup_2.
  by apply applyAt_other_field.
Qed.

(** [applyAt] never changes which geometry properties of a base are
    numbers. *)
Lemma applyAt_is_number snap o b c f :
  okBase b → okBase c → f ∈ geometryFields →
  is_number (get_prop (base_of (applyAt snap o b).1 c) f)
  = is_number (get_prop (base_of o c) f).
Proof.
  intros Hb Hc Hf. destruct (decide (b = c)) as [->|Hne].
  - rewrite applyAt_base. apply applyTo_is_number.
  - by rewrite applyAt_other_field.
Qed.

Lemma applyAt_exposesXY snap o b c :
  okBase b → okBase c →
  exposesXY (base_of (applyAt snap o b).1 c) = exposesXY (base_of o c).
Proof.
  intros Hb Hc. unfold exposesXY.
  rewrite !(applyAt_is_number snap o b c) by (done || set_solver). done.
Qed.

Ltac solve_not_geometry :=
  let H := fresh in
  intros H; unfold geometryFields in H;
  repeat (apply elem_of_cons in H as [H|H]; [discriminate|]);
  by apply elem_of_nil in H.

Lemma okBase_bases m : Forall okBase (bases m).
Proof. destruct m; repeat constructor; cbn [okBase]; solve_not_geometry. Qed.

Ltac solve_notin :=
  let H := fresh in
  intros H;
  repeat (apply elem_of_cons in H as [H|H]; [discriminate|]);
  by apply elem_of_nil in H.

Lemma NoDup_bases m : NoDup (bases m).
Proof.
  destruct m; repeat (apply NoDup_cons_2; [solve_notin|]); apply NoDup_nil_2.
Qed.

(** The loop stops at the first base that exposes numeric [x] and [y]: the
    bases after it keep their geometry. *)
Lemma applyBases_stops snap pre : ∀ o b post,
  Forall okBase (pre ++ b :: post) → NoDup (pre ++ b :: post) →
  Forall (λ c, exposesXY (base_of o c) = false) pre →
  exposesXY (base_of o b) = true →
  Forall (λ c, geometryAt (applyBases snap o (pre ++ b :: post)) c = geometryAt o c)
         post.
Proof.
  induction pre as [|a pre IH]; intros o b post Hok Hnd Hpre Hb; simpl.
  - pose proof (applyAt_ok snap o b) as H2. rewrite Hb in H2.
    destruct (applyAt snap o b) as [o' ok] eqn:E. simpl in H2. subst ok.
    apply Forall_forall. intros c Hc.
    replace o' with (applyAt snap o b).1 by by rewrite E.
    simpl in Hok, Hnd. inversion_clear Hok as [|?? Hokb Hokp].
    inversion_clear Hnd as [|?? Hnb _].
    apply applyAt_other; [done| |set_solver].
    by eapply Forall_forall in Hokp.
  - inversion_clear Hpre as [|?? Ha Hpre'].
    pose proof (applyAt_ok snap o a) as H2. rewrite Ha in H2.
    destruct (applyAt snap o a) as [o' ok] eqn:E. simpl in H2. subst ok.
    assert (o' = (applyAt snap o a).1) as Ho' by by rewrite E.
    simpl in Hok, Hnd. inversion_clear Hok as [|?? Hoka Hokp].
    inversion_clear Hnd as [|?? Hna Hnd'].
    assert (Hokb : okBase b) by (eapply Forall_forall in Hokp; [done|set_solver]).
    assert (Forall (λ c, exposesXY (base_of o' c) = false) pre) as Hpre2.
    { apply Forall_forall. intros c Hc. rewrite Ho'.
      rewrite applyAt_exposesXY; [|done|].
      - by eapply Forall_forall in Hpre'.
      - eapply Forall_forall in Hokp; [done|set_solver]. }
    assert (exposesXY (base_of o' b) = true) as Hb2.
    { rewrite Ho'. by rewrite applyAt_exposesXY. }
    specialize (IH o' b post Hokp Hnd' Hpre2 Hb2).
    apply Forall_forall. intros c Hc.
    eapply Forall_forall in IH; [|done]. rewrite IH, Ho'.
    apply applyAt_other; [done| |set_solver].
    eapply Forall_forall in Hokp; [done|set_solver].
Qed.

Lemma applyBases_other snap bs : ∀ o c,
  Forall okBase bs → okBase c → c ∉ bs →
  geometryAt (applyBases snap o bs) c = geometryAt o c.
Proof.
  induction bs as [|b bs IH]; intros o c Hok Hc Hnotin; [done|].
  inversion_clear Hok as [|?? Hb Hbs].
  apply not_elem_of_cons in Hnotin as [Hne Hnotin].
  cbn [applyBases]. destruct (applyAt snap o b) as [o' ok] eqn:E.
  assert (o' = (applyAt snap o b).1) as -> by by rewrite E.
  destruct ok.
  - by apply applyAt_other.
  - rewrite IH by done. by apply applyAt_other.
Qed.

Lemma bases_recorded m p :
  recordedBase m = Some p → ∃ rest, bases m = p :: rest ∧ p ∉ rest.
Proof.
  intros H. pose proof (NoDup_bases m) as Hnd.
  destruct m; simplify_eq/=; eexists; (split; [done|]);
    by inversion_clear Hnd.
Qed.

Lemma restoreNode_is_object snap o : is_object (restoreNode snap o) = is_object o.
Proof.
  unfold restoreNode. generalize (bases (mode snap)) as bs.
  intros bs. revert o. induction bs as [|b bs IH]; intros o; [done|].
  cbn [applyBases]. destruct (applyAt snap o b) as [o' ok] eqn:E.
  assert (is_object o' = is_object o) as Ho.
  { rewrite applyAt_eq in E. destruct b as [|k].
    - destruct o; try (by unfold applyTo in E; simplify_eq).
      unfold applyTo in E. by repeat case_match; simplify_eq.
    - destruct (get_prop o k); simplify_eq; try done. by destruct o. }
  destruct ok; [done|]. by rewrite IH.
Qed.

Lemma nodesMap_canvas view m :
  nodesMap view = Some m → ∃ cf, canvas view = VObj cf ∧ cf !! "nodes" = Some (VMap m).
Proof.
  unfold nodesMap, getCanvasFromView. intros H.
  destruct (canvas view) as [| | | | | | |cf| | |]; try done.
  exists cf. split; [done|]. simpl in H.
  destruct (cf !! "nodes") as [[]|]; by simplify_eq/=.
Qed.

Lemma nodesMap_putNode view nodeId o m :
  nodesMap view = Some m →
  nodesMap (putNode view nodeId o) = Some (<[nodeId := o]> m).
Proof.
  intros H. unfold putNode. rewrite H.
  apply nodesMap_canvas in H as (cf & Hc & Hn).
  unfold nodesMap, getCanvasFromView. simpl. rewrite Hc. simpl.
  by rewrite lookup_insert_eq.
Qed.

Lemma nodeObject_nodesMap view nodeId o :
  nodeObject view nodeId = Some o →
  ∃ m, nodesMap view = Some m ∧ m !! nodeId = Some o ∧ is_object o = true.
Proof.
  unfold nodeObject. destruct (nodesMap view) as [m|]; [|done].
  intros H. exists m. split; [done|].
  destruct (m !! nodeId) as [x|]; simpl in H; [|done].
  destruct (is_object x) eqn:E; by simplify_eq.
Qed.

Lemma nodeObject_putNode view nodeId o o' :
  nodeObject view nodeId = Some o → is_object o' = true →
  nodeObject (putNode view nodeId o') nodeId = Some o'.
Proof.
  intros (m & Hm & _ & _)%nodeObject_nodesMap Ho'.
  unfold nodeObject. rewrite (nodesMap_putNode _ _ _ _ Hm).
  rewrite lookup_insert_eq. simpl. by rewrite Ho'.
Qed.

Lemma nodeObject_putNode_ne view nodeId nodeId' o' m :
  nodesMap view = Some m → nodeId ≠ nodeId' →
  nodeObject (putNode view nodeId o') nodeId' = nodeObject view nodeId'.
Proof.
  intros Hm Hne. unfold nodeObject.
  rewrite (nodesMap_putNode _ _ _ _ Hm), Hm. by rewrite lookup_insert_ne.
Qed.

Lemma restoreModelSnapshot_node view nodeId snap o :
  nodeObject view nodeId = Some o →
  nodeObject (restoreModelSnapshot view nodeId snap).1 nodeId
  = Some (restoreNode snap o).
Proof.
  intros Ho. unfold restoreModelSnapshot. rewrite Ho. cbn [fst].
  apply (nodeObject_putNode _ _ o); [done|].
  rewrite restoreNode_is_object.
  by apply nodeObject_nodesMap in Ho as (? & ? & ? & ?).
Qed.

(** C7.  For a snapshot that records a shape [p]: when [p] exposes numeric
    [x] and [y] in the node object, [restoreModelSnapshot] stores [x], [y]
    and the sizes the snapshot has (under [width]/[height], or else under
    [w]/[h]) in [p] and leaves the geometry of every other shape as it was;
    the geometry of a shape other than [p] changes only when [x] or [y] is
    absent or not a number in [p]; and the shapes that come after the first
    one exposing numeric [x] and [y] keep their geometry. *)
Theorem restore_recorded_shape_first (view : CanvasViewLike) (nodeId : string)
    (snap : ModelSnapshot) (o : value) (p : Base) :
  recordedBase (mode snap) = Some p →
  nodeObject view nodeId = Some o →
  ∃ o', nodeObject (restoreModelSnapshot view nodeId snap).1 nodeId = Some o' ∧
    head (bases (mode snap)) = Some p ∧
    (exposesXY (base_of o p) = true →
       (∀ f, get_prop (base_of o' p) f =
               match written snap (base_of o p) f with
               | Some q => VNum q
               | None => get_prop (base_of o p) f
               end) ∧
       (∀ b, b ∈ bases (mode snap) → b ≠ p → geometryAt o' b = geometryAt o b)) ∧
    (∀ b, b ∈ bases (mode snap) → b ≠ p → geometryAt o' b ≠ geometryAt o b →
       exposesXY (base_of o p) = false) ∧
    (∀ pre b post,
       bases (mode snap) = pre ++ b :: post →
       Forall (λ c, exposesXY (base_of o c) = false) pre →
       exposesXY (base_of o b) = true →
       Forall (λ c, geometryAt o' c = geometryAt o c) post).
Proof.
  intros Hp Ho. exists (restoreNode snap o).
  split; [by apply restoreModelSnapshot_node|].
  destruct (bases_recorded _ _ Hp) as (rest & Hbs & Hnotin).
  split; [by rewrite Hbs|].
  pose proof (okBase_bases (mode snap)) as Hok.
  pose proof (NoDup_bases (mode snap)) as Hnd.
  assert (Hstop : ∀ pre b post,
             bases (mode snap) = pre ++ b :: post →
             Forall (λ c, exposesXY (base_of o c) = false) pre →
             exposesXY (base_of o b) = true →
             Forall (λ c, geometryAt (restoreNode snap o) c = geometryAt o c) post).
  { intros pre b post Hsplit Hpre Hb. unfold restoreNode. rewrite Hsplit.
    apply applyBases_stops; by rewrite <- ?Hsplit. }
  assert (Hfirst : exposesXY (base_of o p) = true →
             ∀ b, b ∈ bases (mode snap) → b ≠ p →
                  geometryAt (restoreNode snap o) b = geometryAt o b).
  { intros Hx b Hb Hne. specialize (Hstop [] p rest Hbs (Forall_nil_2 _) Hx).
    rewrite Hbs in Hb. apply elem_of_cons in Hb as [?|Hb]; [done|].
    by eapply Forall_forall in Hstop. }
  split; [|split; [|done]].
  - intros Hx. split; [|by apply Hfirst].
    intros f. unfold restoreNode. rewrite Hbs. cbn [applyBases].
    pose proof (applyAt_ok snap o p) as H2. rewrite Hx in H2.
    destruct (applyAt snap o p) as [o' ok] eqn:E. cbn [snd] in H2. subst ok.
    replace o' with (applyAt snap o p).1 by by rewrite E.
    rewrite applyAt_base. by apply applyTo_accepts.
  - intros b Hb Hne Hchg. destruct (exposesXY (base_of o p)) eqn:Hx; [|done].
    exfalso. apply Hchg. by apply Hfirst.
Qed.

(** C10.  When the shape [p] a snapshot records has a numeric [x] but no
    numeric [y], [restoreModelSnapshot] stores the snapshot's [x] in [p],
    rejects [p], and goes on with the fallback shapes from the node object
    so changed: [p] keeps the new [x] and still has no numeric [y]. *)
Theorem restore_rejected_shape_keeps_x (view : CanvasViewLike) (nodeId : string)
    (snap : ModelSnapshot) (o : value) (p : Base) :
  recordedBase (mode snap) = Some p →
  nodeObject view nodeId = Some o →
  is_number (get_prop (base_of o p) "x") = true →
  is_number (get_prop (base_of o p) "y") = false →
  ∃ o1 o' rest,
    applyAt snap o p = (o1, false) ∧
    get_prop (base_of o1 p) "x" = VNum (snap_x snap) ∧
    bases (mode snap) = p :: rest ∧
    nodeObject (restoreModelSnapshot view nodeId snap).1 nodeId = Some o' ∧
    o' = applyBases snap o1 rest ∧
    get_prop (base_of o' p) "x" = VNum (snap_x snap) ∧
    is_number (get_prop (base_of o' p) "y") = false.
Proof.
  intros Hp Ho Hx Hy.
  destruct (bases_recorded _ _ Hp) as (rest & Hbs & Hnotin).
  assert (Hrej : exposesXY (base_of o p) = false).
  { unfold exposesXY. by rewrite Hx, Hy. }
  pose proof (applyAt_ok snap o p) as H2. rewrite Hrej in H2.
  destruct (applyAt snap o p) as [o1 ok] eqn:E. cbn [snd] in H2. subst ok.
  assert (Ho1 : o1 = (applyAt snap o p).1) by by rewrite E.
  assert (Hx1 : get_prop (base_of o1 p) "x" = VNum (snap_x snap)).
  { rewrite Ho1, applyAt_base, applyTo_rejects by done. by rewrite Hx. }
  assert (Hy1 : is_number (get_prop (base_of o1 p) "y") = false).
  { rewrite Ho1, applyAt_base, applyTo_is_number. done. }
  pose proof (okBase_bases (mode snap)) as Hok. rewrite Hbs in Hok.
  inversion_clear Hok as [|?? Hokp Hokr].
  pose proof (applyBases_other snap rest o1 p Hokr Hokp Hnotin) as Hg.
  unfold geometryAt, geometryFields in Hg. cbn [fmap list_fmap] in Hg.
  injection Hg as Hgx Hgy _.
  exists o1, (applyBases snap o1 rest), rest.
  split; [done|]. split; [done|]. split; [done|].
  split.
  { rewrite (restoreModelSnapshot_node _ _ _ _ Ho). unfold restoreNode.
    rewrite Hbs. cbn [applyBases]. by rewrite E. }
  split; [done|]. by rewrite Hgx, Hgy.
Qed.

(** *** Runs on a concrete canvas *)

Example readModelSnapshot_nodeA :
  readModelSnapshot Fixture.viewA "n1"
  = Some (mkSnap MPos 1 2 (Some 3%Q) (Some 4%Q)).
Proof. vm_compute. reflexivity. Qed.

Example readModelSnapshot_missing :
  readModelSnapshot Fixture.viewA "n9" = None.
Proof. vm_compute. reflexivity. Qed.

Example restoreNode_nodeA :
  restoreNode Fixture.snapA Fixture.nodeA
  = VObj {[ "x" := VNum 5;
            "pos" := VObj {[ "x" := VNum 10; "y" := VNum 20;
                             "width" := VNum 30; "h" := VNum 40 ]};
            "rect" := VObj {[ "x" := VNum 7; "y" := VNum 8 ]};
            "nodeEl" := VElem 2 ]}.
Proof. vm_compute. reflexivity. Qed.

Example restoreNode_nodeB :
  restoreNode Fixture.snapA Fixture.nodeB
  = VObj {[ "x" := VNum 10; "y" := VNum 20;
            "pos" := VObj {[ "x" := VNum 10; "y" := VStr "2" ]} ]}.
Proof. vm_compute. reflexivity. Qed.

Example restoreModelSnapshot_calls :
  (restoreModelSnapshot Fixture.viewA "n1" Fixture.snapA).2 = ["requestFrame"].
Proof. vm_compute. reflexivity. Qed.

Lemma restore_recorded_shape_first_witness :
  ∃ o', nodeObject (restoreModelSnapshot Fixture.viewA "n1" Fixture.snapA).1 "n1"
        = Some o' ∧
    head (bases MPos) = Some (BField "pos") ∧
    (exposesXY (base_of Fixture.nodeA (BField "pos")) = true →
       (∀ f, get_prop (base_of o' (BField "pos")) f =
               match written Fixture.snapA (base_of Fixture.nodeA (BField "pos")) f with
               | Some q => VNum q
               | None => get_prop (base_of Fixture.nodeA (BField "pos")) f
               end) ∧
       (∀ b, b ∈ bases MPos → b ≠ BField "pos" →
             geometryAt o' b = geometryAt Fixture.nodeA b)) ∧
    (∀ b, b ∈ bases MPos → b ≠ BField "pos" →
          geometryAt o' b ≠ geometryAt Fixture.nodeA b →
          exposesXY (base_of Fixture.nodeA (BField "pos")) = false) ∧
    (∀ pre b post,
       bases MPos = pre ++ b :: post →
       Forall (λ c, exposesXY (base_of Fixture.nodeA c) = false) pre →
       exposesXY (base_of Fixture.nodeA b) = true →
       Forall (λ c, geometryAt o' c = geometryAt Fixture.nodeA c) post).
Proof.
  apply (restore_recorded_shape_first Fixture.viewA "n1" Fixture.snapA
           Fixture.nodeA (BField "pos")).
  - reflexivity.
  - vm_compute. reflexivity.
Defined.

Lemma restore_rejected_shape_keeps_x_witness :
  ∃ o1 o' rest,
    applyAt Fixture.snapA Fixture.nodeB (BField "pos") = (o1, false) ∧
    get_prop (base_of o1 (BField "pos")) "x" = VNum 10 ∧
    bases MPos = BField "pos" :: rest ∧
    nodeObject (restoreModelSnapshot Fixture.viewA "n2" Fixture.snapA).1 "n2"
    = Some o' ∧
    o' = applyBases Fixture.snapA o1 rest ∧
    get_prop (base_of o' (BField "pos")) "x" = VNum 10 ∧
    is_number (get_prop (base_of o' (BField "pos")) "y") = false.
Proof.
  apply (restore_rejected_shape_keeps_x Fixture.viewA "n2" Fixture.snapA
           Fixture.nodeB (BField "pos")).
  - reflexivity.
  - vm_compute. reflexivity.
  - vm_compute. reflexivity.
  - vm_compute. reflexivity.
Defined.

(** ** The move element *)










Example findMoveElement_wrapper :
  findMoveElement
    [ mkElement None (Some "transform: translate(3px, 4px)") [] ∅;
      mkElement (Some 0) None ["canvas-node"] ∅ ] 1 = 0.
Proof. reflexivity. Qed.

Example findMoveElement_great_grandparent :
  findMoveElement
    [ mkElement None (Some "left: 3px") [] ∅;
      mkElement (Some 0) None [] ∅;
      mkElement (Some 1) (Some "color: red") [] ∅;
      mkElement (Some 2) None ["canvas-node"] ∅ ] 3 = 3.
Proof. reflexivity. Qed.

(** ** The locked set and the snapshot store *)

Lemma sameButCaches_refl s : sameButCaches s s.
Proof. by destruct s. Qed.

Lemma sameButCaches_trans s1 s2 s3 :
  sameButCaches s1 s2 → sameButCaches s2 s3 → sameButCaches s1 s3.
Proof. unfold sameButCaches. intros H12 H23. rewrite H23 at 1. by rewrite H12. Qed.

Lemma sameButCaches_nodeIdByEl x s : sameButCaches s (set_nodeIdByEl x s).
Proof. by destruct s. Qed.

Lemma sameButCaches_moveElByNodeEl x s : sameButCaches s (set_moveElByNodeEl x s).
Proof. by destruct s. Qed.

Lemma fold_left_preserve {A B} (f : A → B → A) (Inv : A → Prop) l a :
  Inv a → (∀ a y, Inv a → Inv (f a y)) → Inv (fold_left f l a).
Proof.
  intros Ha Hinv. revert a Ha. induction l as [|y l IH]; intros a Ha; [done|].
  simpl. apply IH. auto.
Qed.

Lemma fold_left_establish {A B} (f : A → B → A) (Inv Q : A → Prop) x l a :
  x ∈ l → Inv a →
  (∀ a y, Inv a → Inv (f a y)) →
  (∀ a, Inv a → Q (f a x)) →
  (∀ a y, Inv a → Q a → Q (f a y)) →
  Q (fold_left f l a).
Proof.
  intros Hx Ha Hinv Hest Hpres.
  assert (Hkeep : ∀ l a, Inv a → Q a → Q (fold_left f l a)).
  { clear l a Hx Ha. induction l as [|y l IH]; intros a Ha Hq; [done|].
    simpl. apply IH; auto. }
  revert a Ha. induction l as [|y l IH]; intros a Ha.
  { by apply elem_of_nil in Hx. }
  simpl. apply elem_of_cons in Hx as [->|Hx].
  - apply Hkeep; auto.
  - apply IH; auto.
Qed.

Lemma elem_of_set_add x y l : y ∈ set_add x l ↔ y = x ∨ y ∈ l.
Proof.
  unfold set_add. case_bool_decide.
  - split; [auto|]. by intros [->|?].
  - rewrite elem_of_app, list_elem_of_singleton. tauto.
Qed.

Lemma NoDup_set_add x l : NoDup l → NoDup (set_add x l).
Proof.
  unfold set_add. case_bool_decide; [done|]. intros Hl.
  apply NoDup_app. split; [done|]. split; [|apply NoDup_singleton].
  intros y Hy ->%list_elem_of_singleton. done.
Qed.

Lemma elem_of_newSet y l : y ∈ newSet l ↔ y ∈ l.
Proof.
  unfold newSet.
  assert (∀ acc, y ∈ fold_left (λ acc x, set_add x acc) l acc ↔ y ∈ acc ∨ y ∈ l) as H.
  { induction l as [|x l IH]; intros acc; simpl.
    - rewrite elem_of_nil. tauto.
    - rewrite IH, elem_of_set_add, elem_of_cons. tauto. }
  rewrite H, elem_of_nil. tauto.
Qed.

Lemma NoDup_newSet l : NoDup (newSet l).
Proof.
  unfold newSet. apply fold_left_preserve; [apply NoDup_nil_2|].
  intros acc x. apply NoDup_set_add.
Qed.

Lemma elem_of_set_delete x y l : y ∈ set_delete x l ↔ y ≠ x ∧ y ∈ l.
Proof. unfold set_delete. by rewrite list_elem_of_filter. Qed.

Lemma lockedIdsOf_setLocked path nodeId locked s :
  lockedIdsOf (setLocked path nodeId locked s) path
  = if locked then set_add nodeId (newSet (lockedIdsOf s path))
    else set_delete nodeId (newSet (lockedIdsOf s path)).
Proof. unfold setLocked, lockedIdsOf at 1. simpl. by rewrite lookup_insert_eq. Qed.

(** [setLocked] keeps the stored array free of duplicates. *)
Lemma setLocked_NoDup path nodeId locked s :
  NoDup (lockedIdsOf (setLocked path nodeId locked s) path).
Proof.
  rewrite lockedIdsOf_setLocked. destruct locked.
  - apply NoDup_set_add, NoDup_newSet.
  - unfold set_delete. apply NoDup_filter, NoDup_newSet.
Qed.

Lemma elem_of_lockedIdsOf_setLocked path nodeId locked s id :
  id ∈ lockedIdsOf (setLocked path nodeId locked s) path ↔
  if locked then id = nodeId ∨ id ∈ lockedIdsOf s path
  else id ≠ nodeId ∧ id ∈ lockedIdsOf s path.
Proof.
  rewrite lockedIdsOf_setLocked. destruct locked.
  - by rewrite elem_of_set_add, elem_of_newSet.
  - by rewrite elem_of_set_delete, elem_of_newSet.
Qed.

Lemma forgetLockedNodeStyle_fields path nodeId s :
  lockedByCanvas (forgetLockedNodeStyle path nodeId s) = lockedByCanvas s ∧
  lockedMoveStyleByCanvas (forgetLockedNodeStyle path nodeId s)
  = lockedMoveStyleByCanvas s ∧
  lockedModelByCanvas (forgetLockedNodeStyle path nodeId s) = lockedModelByCanvas s.
Proof. unfold forgetLockedNodeStyle. by case_match. Qed.

Lemma forgetLockedMoveStyle_fields path nodeId s :
  lockedByCanvas (forgetLockedMoveStyle path nodeId s) = lockedByCanvas s ∧
  lockedStyleByCanvas (forgetLockedMoveStyle path nodeId s)
  = lockedStyleByCanvas s ∧
  lockedModelByCanvas (forgetLockedMoveStyle path nodeId s) = lockedModelByCanvas s.
Proof. unfold forgetLockedMoveStyle. by case_match. Qed.

Lemma forgetLockedNodeModel_fields path nodeId s :
  lockedByCanvas (forgetLockedNodeModel path nodeId s) = lockedByCanvas s ∧
  lockedStyleByCanvas (forgetLockedNodeModel path nodeId s)
  = lockedStyleByCanvas s ∧
  lockedMoveStyleByCanvas (forgetLockedNodeModel path nodeId s)
  = lockedMoveStyleByCanvas s.
Proof. unfold forgetLockedNodeModel. by case_match. Qed.

Lemma forgetOnUnlock_lockedByCanvas path nodeId s :
  lockedByCanvas (forgetOnUnlock path nodeId s) = lockedByCanvas s.
Proof.
  unfold forgetOnUnlock.
  rewrite (proj1 (forgetLockedNodeModel_fields _ _ _)).
  rewrite (proj1 (forgetLockedMoveStyle_fields _ _ _)).
  apply forgetLockedNodeStyle_fields.
Qed.

Lemma lookup_forget {V} (maps : gmap string (gmap string V)) path nodeId id :
  default ∅ (match maps !! path with
             | None => maps
             | Some map => <[path := delete nodeId map]> maps
             end !! path) !! id
  = if decide (nodeId = id) then None else default ∅ (maps !! path) !! id.
Proof.
  destruct (maps !! path) as [map|] eqn:E.
  - rewrite lookup_insert_eq. simpl. rewrite lookup_delete. by case_decide.
  - rewrite E. simpl. rewrite lookup_empty. by case_decide.
Qed.

Lemma savedStyleOf_forgetOnUnlock path nodeId s id :
  savedStyleOf (forgetOnUnlock path nodeId s) path id
  = if decide (nodeId = id) then None else savedStyleOf s path id.
Proof.
  unfold forgetOnUnlock, savedStyleOf.
  rewrite (proj1 (proj2 (forgetLockedNodeModel_fields _ _ _))).
  rewrite (proj1 (proj2 (forgetLockedMoveStyle_fields _ _ _))).
  rewrite <- lookup_forget. unfold forgetLockedNodeStyle. by case_match.
Qed.

Lemma savedMoveStyleOf_forgetOnUnlock path nodeId s id :
  savedMoveStyleOf (forgetOnUnlock path nodeId s) path id
  = if decide (nodeId = id) then None else savedMoveStyleOf s path id.
Proof.
  unfold forgetOnUnlock, savedMoveStyleOf.
  rewrite (proj2 (proj2 (forgetLockedNodeModel_fields _ _ _))).
  rewrite <- (proj1 (proj2 (forgetLockedNodeStyle_fields path nodeId s))).
  rewrite <- lookup_forget. unfold forgetLockedMoveStyle. by case_match.
Qed.

Lemma savedModelOf_forgetOnUnlock path nodeId s id :
  savedModelOf (forgetOnUnlock path nodeId s) path id
  = if decide (nodeId = id) then None else savedModelOf s path id.
Proof.
  unfold forgetOnUnlock, savedModelOf.
  rewrite <- (proj2 (proj2 (forgetLockedNodeStyle_fields path nodeId s))).
  rewrite <- (proj2 (proj2 (forgetLockedMoveStyle_fields path nodeId
                              (forgetLockedNodeStyle path nodeId s)))).
  rewrite <- lookup_forget. unfold forgetLockedNodeModel. by case_match.
Qed.

(** After [forgetOnUnlock] has run for every id of [ids], none of them has
    a snapshot of any kind. *)
Lemma forget_all path ids s id :
  id ∈ ids →
  let s' := fold_left (λ acc x, forgetOnUnlock path x acc) ids s in
  savedStyleOf s' path id = None ∧ savedMoveStyleOf s' path id = None ∧
  savedModelOf s' path id = None.
Proof.
  intros Hid.
  apply (fold_left_establish (λ acc x, forgetOnUnlock path x acc)
           (λ _, True)
           (λ a, savedStyleOf a path id = None ∧ savedMoveStyleOf a path id = None
                 ∧ savedModelOf a path id = None) id ids s); auto.
  - intros a _. rewrite savedStyleOf_forgetOnUnlock,
      savedMoveStyleOf_forgetOnUnlock, savedModelOf_forgetOnUnlock.
    by destruct (decide (id = id)).
  - intros a y _ (H1 & H2 & H3).
    rewrite savedStyleOf_forgetOnUnlock,
      savedMoveStyleOf_forgetOnUnlock, savedModelOf_forgetOnUnlock.
    by destruct (decide (y = id)).
Qed.


Lemma resolveNodeElById_sameButCaches w v id s :
  sameButCaches s (resolveNodeElById w v id s).2.
Proof.
  unfold resolveNodeElById. repeat case_match; simpl;
    auto using sameButCaches_refl, sameButCaches_nodeIdByEl.
Qed.

Lemma markLocked_sameButCaches v ids : ∀ s w,
  sameButCaches s (markLocked v ids s w).1.
Proof.
  induction ids as [|id ids IH]; intros s w; [apply sameButCaches_refl|].
  cbn [markLocked].
  pose proof (resolveNodeElById_sameButCaches w v id s) as H.
  destruct (resolveNodeElById w v id s) as [[el|] s1]; simpl in H;
    eapply sameButCaches_trans; eauto.
Qed.

Lemma applyLockedClasses_sameButCaches ctx s w :
  sameButCaches s (applyLockedClasses ctx s w).1.
Proof.
  unfold applyLockedClasses. case_match; [|apply sameButCaches_refl].
  apply markLocked_sameButCaches.
Qed.

Lemma sameButCaches_fields s s' :
  sameButCaches s s' →
  lockedByCanvas s' = lockedByCanvas s ∧
  lockedStyleByCanvas s' = lockedStyleByCanvas s ∧
  lockedMoveStyleByCanvas s' = lockedMoveStyleByCanvas s ∧
  lockedModelByCanvas s' = lockedModelByCanvas s ∧
  observedView s' = observedView s ∧
  observedCanvasPath s' = observedCanvasPath s ∧
  settings s' = settings s ∧ altDown s' = altDown s ∧
  lastRestoreAtByCanvas s' = lastRestoreAtByCanvas s.
Proof. intros ->. by destruct s. Qed.

Lemma unlockAllInCanvas_some ctx s w :
  lockedIdsOf s (canvasPath ctx) ≠ [] →
  unlockAllInCanvas ctx s w =
    (length (lockedIdsOf s (canvasPath ctx)),
     applyLockedClasses ctx
       (set_lockedByCanvas
          (<[canvasPath ctx := []]>
             (lockedByCanvas
                (fold_left (λ acc id, forgetOnUnlock (canvasPath ctx) id acc)
                           (lockedIdsOf s (canvasPath ctx)) s)))
          (fold_left (λ acc id, forgetOnUnlock (canvasPath ctx) id acc)
                     (lockedIdsOf s (canvasPath ctx)) s)) w).
Proof.
  intros Hne. unfold unlockAllInCanvas.
  rewrite bool_decide_eq_false_2; [done|].
  by destruct (lockedIdsOf s (canvasPath ctx)).
Qed.

Lemma unlockAllInCanvas_none ctx s w :
  lockedIdsOf s (canvasPath ctx) = [] → unlockAllInCanvas ctx s w = (0, (s, w)).
Proof. intros H. unfold unlockAllInCanvas. by rewrite H. Qed.

(** C3.  On a canvas whose locked array holds [n >= 1] ids,
    [unlockAllInCanvas] returns [n], leaves the locked array of the canvas
    empty and leaves none of these ids with an element-style, a
    move-element-style or a geometry snapshot; called again at once, it
    returns 0. *)
Theorem unlockAllInCanvas_clears (ctx : CanvasContext) (s : Manager) (w : World)
    (ids : list string) :
  lockedByCanvas s !! canvasPath ctx = Some ids →
  1 ≤ length ids →
  let r := unlockAllInCanvas ctx s w in
  r.1 = length ids ∧
  lockedByCanvas r.2.1 !! canvasPath ctx = Some [] ∧
  (∀ id, id ∈ ids →
     savedStyleOf r.2.1 (canvasPath ctx) id = None ∧
     savedMoveStyleOf r.2.1 (canvasPath ctx) id = None ∧
     savedModelOf r.2.1 (canvasPath ctx) id = None) ∧
  (unlockAllInCanvas ctx r.2.1 r.2.2).1 = 0.
Proof.
  intros Hids Hlen r. subst r.
  assert (lockedIdsOf s (canvasPath ctx) = ids) as Hl.
  { unfold lockedIdsOf. by rewrite Hids. }
  rewrite unlockAllInCanvas_some by (rewrite Hl; intros ->; simpl in Hlen; lia).
  rewrite Hl. cbn [fst snd].
  set (s1 := fold_left _ ids s).
  set (s2 := set_lockedByCanvas _ s1).
  pose proof (applyLockedClasses_sameButCaches ctx s2 w) as Hsame.
  apply sameButCaches_fields in Hsame as (HL & HS & HM & HG & _).
  destruct (applyLockedClasses ctx s2 w) as [s' w'] eqn:E. cbn [fst snd] in *.
  assert (lockedByCanvas s' !! canvasPath ctx = Some []) as Hempty.
  { rewrite HL. subst s2. simpl. by rewrite lookup_insert_eq. }
  split; [done|]. split; [done|]. split.
  - intros id Hid. unfold savedStyleOf, savedMoveStyleOf, savedModelOf.
    rewrite HS, HM, HG. subst s2. simpl.
    apply (forget_all (canvasPath ctx) ids s id Hid).
  - rewrite unlockAllInCanvas_none; [done|].
    unfold lockedIdsOf. by rewrite Hempty.
Qed.

(** ** The toggle command *)





Lemma getActiveCanvasContext_view w ctx :
  getActiveCanvasContext w = Some ctx → is_Some (viewOf w (ctx_view ctx)).
Proof.
  unfold getActiveCanvasContext. intros H%head_Some_elem_of.
  apply list_elem_of_omap in H as (leaf & _ & H).
  repeat case_match; simplify_eq. simpl. eauto.
Qed.




Lemma toggleLockSelectedCards_run s w ctx :
  getActiveCanvasContext w = Some ctx →
  getSelectedNodeIds w ctx ≠ [] →
  toggleLockSelectedCards false s w =
    let selectedIds := getSelectedNodeIds w ctx in
    let s1 := ensureGuardAttached ctx s in
    let newLockedState :=
      existsb (λ id, negb (isLocked s1 (canvasPath ctx) id)) selectedIds in
    (true,
     applyLockedClasses ctx
       (fold_left
          (λ acc id, if newLockedState then snapshotOnLock w ctx id acc
                     else forgetOnUnlock (canvasPath ctx) id acc)
          selectedIds
          (fold_left (λ acc id, setLocked (canvasPath ctx) id newLockedState acc)
                     selectedIds s1)) w).
Proof.
  intros Hctx Hsel. unfold toggleLockSelectedCards. rewrite Hctx.
  rewrite bool_decide_eq_false_2; [done|].
  by destruct (getSelectedNodeIds w ctx).
Qed.


Example toggle_selection :
  getSelectedNodeIds Fixture.worldA Fixture.ctxA = ["n1"; "n3"].
Proof. vm_compute. reflexivity. Qed.

Example toggle_locks_selection :
  lockedByCanvas Fixture.mgr1 !! "a.canvas" = Some ["n1"; "n3"].
Proof. vm_compute. reflexivity. Qed.

Example toggle_snapshots_n1 :
  savedStyleOf Fixture.mgr1 "a.canvas" "n1" = Some "" ∧
  savedMoveStyleOf Fixture.mgr1 "a.canvas" "n1"
  = Some "transform: translate(1px, 2px)" ∧
  savedModelOf Fixture.mgr1 "a.canvas" "n1"
  = Some (mkSnap MPos 1 2 (Some 3%Q) (Some 4%Q)).
Proof. vm_compute. done. Qed.

Example toggle_twice_unlocks :
  lockedByCanvas
    (toggleLockSelectedCards false Fixture.mgr1 Fixture.worldA).2.1 !! "a.canvas"
  = Some [].
Proof. vm_compute. reflexivity. Qed.



Lemma unlockAllInCanvas_clears_witness :
  let r := unlockAllInCanvas Fixture.ctxA Fixture.mgr1 Fixture.worldA in
  r.1 = 2 ∧
  lockedByCanvas r.2.1 !! "a.canvas" = Some [] ∧
  (∀ id, id ∈ ["n1"; "n3"] →
     savedStyleOf r.2.1 "a.canvas" id = None ∧
     savedMoveStyleOf r.2.1 "a.canvas" id = None ∧
     savedModelOf r.2.1 "a.canvas" id = None) ∧
  (unlockAllInCanvas Fixture.ctxA r.2.1 r.2.2).1 = 0.
Proof.
  apply (unlockAllInCanvas_clears Fixture.ctxA Fixture.mgr1 Fixture.worldA
           ["n1"; "n3"]).
  - vm_compute. reflexivity.
  - simpl. lia.
Defined.

(** ** Queries on the DOM do not depend on inline styles *)

Section Skeleton.
Variables d d' : list Element.
Hypothesis Hsk : skeleton d = skeleton d'.















End Skeleton.

Lemma skeleton_restorePositionStyleOnly css el saved d :
  skeleton (restorePositionStyleOnly css el saved d) = skeleton d.
Proof.
  unfold skeleton, restorePositionStyleOnly.
  apply list_eq. intros i. rewrite !list_lookup_fmap.
  destruct (decide (i = el)) as [->|Hne].
  - rewrite list_lookup_alter_eq. by destruct (d !! el).
  - by rewrite list_lookup_alter_ne.
Qed.

(** ** One enforcement pass restores the geometry *)

Lemma numProfile_refl o : numProfile o o.
Proof. by intros b f _ _. Qed.

Lemma numProfile_trans o1 o2 o3 :
  numProfile o1 o2 → numProfile o2 o3 → numProfile o1 o3.
Proof. intros H12 H23 b f Hb Hf. by rewrite H23, H12. Qed.



Lemma applyBases_numProfile snap bs : ∀ o,
  Forall okBase bs → numProfile o (applyBases snap o bs).
Proof.
  induction bs as [|b bs IH]; intros o Hok; [apply numProfile_refl|].
  inversion_clear Hok as [|?? Hb Hbs]. cbn [applyBases].
  destruct (applyAt snap o b) as [o' ok] eqn:E.
  assert (numProfile o o') as H1.
  { intros c f Hc Hf. replace o' with (applyAt snap o b).1 by by rewrite E.
    by apply applyAt_is_number. }
  destruct ok; [done|]. eapply numProfile_trans; [exact H1|]. by apply IH.
Qed.

Lemma restoreNode_numProfile snap o : numProfile o (restoreNode snap o).
Proof. apply applyBases_numProfile, okBase_bases. Qed.

Lemma numProfile_exposesXY o o' b :
  numProfile o o' → okBase b → exposesXY (base_of o' b) = exposesXY (base_of o b).
Proof.
  intros H Hb. unfold exposesXY.
  rewrite !(H b) by (done || by repeat constructor). done.
Qed.



Lemma readOrder_okBase : Forall (λ c, okBase c.1) readOrder.
Proof. repeat constructor; cbn [okBase fst]; solve_not_geometry. Qed.

Lemma candidates_readOrder o :
  candidates o = (λ c, (base_of o c.1, c.2)) <$> readOrder.
Proof. done. Qed.

(** [readModelSnapshot] returns the snapshot of the first base, in reading
    order, that exposes numeric [x] and [y]. *)
Lemma readNode_Some o snap :
  readNode o = Some snap ↔
  ∃ pre p post,
    readOrder = pre ++ (p, mode snap) :: post ∧
    Forall (λ c, exposesXY (base_of o c.1) = false) pre ∧
    fromObj (base_of o p) (mode snap) = Some snap.
Proof.
  split.
  - intros H. unfold readNode in H.
    destruct (fromObj o MTop) as [s0|] eqn:E0; cbn [or_else] in H.
    { simplify_eq. exists [], BSelf, (tail readOrder).
      assert (mode snap = MTop) as ->.
      { unfold fromObj in E0. by repeat case_match; simplify_eq. }
      done. }
    destruct (fromObj (get_prop o "pos") MPos) as [s1|] eqn:E1; cbn [or_else] in H.
    { simplify_eq. exists [(BSelf, MTop)], (BField "pos"), (drop 2 readOrder).
      assert (mode snap = MPos) as ->.
      { unfold fromObj in E1. by repeat case_match; simplify_eq. }
      split; [done|]. split; [|done]. repeat constructor. cbn [fst base_of].
      destruct (exposesXY_cases o) as [?|(x & y & Hx & Hy)]; [done|].
      by rewrite (fromObj_Some _ MTop _ _ Hx Hy) in E0. }
    destruct (fromObj (get_prop o "rect") MRect) as [s2|] eqn:E2; cbn [or_else] in H.
    { simplify_eq. exists (take 2 readOrder), (BField "rect"), (drop 3 readOrder).
      assert (mode snap = MRect) as ->.
      { unfold fromObj in E2. by repeat case_match; simplify_eq. }
      split; [done|]. split; [|done]. repeat constructor; cbn [fst base_of].
      - destruct (exposesXY_cases o) as [?|(x & y & Hx & Hy)]; [done|].
        by rewrite (fromObj_Some _ MTop _ _ Hx Hy) in E0.
      - destruct (exposesXY_cases (get_prop o "pos")) as [?|(x & y & Hx & Hy)]; [done|].
        by rewrite (fromObj_Some _ MPos _ _ Hx Hy) in E1. }
    destruct (fromObj (get_prop o "data") MData) as [s3|] eqn:E3; cbn [or_else] in H;
      [|done].
    simplify_eq. exists (take 3 readOrder), (BField "data"), [].
    assert (mode snap = MData) as ->.
    { unfold fromObj in E3. by repeat case_match; simplify_eq. }
    split; [done|]. split; [|done]. repeat constructor; cbn [fst base_of].
    + destruct (exposesXY_cases o) as [?|(x & y & Hx & Hy)]; [done|].
      by rewrite (fromObj_Some _ MTop _ _ Hx Hy) in E0.
    + destruct (exposesXY_cases (get_prop o "pos")) as [?|(x & y & Hx & Hy)]; [done|].
      by rewrite (fromObj_Some _ MPos _ _ Hx Hy) in E1.
    + destruct (exposesXY_cases (get_prop o "rect")) as [?|(x & y & Hx & Hy)]; [done|].
      by rewrite (fromObj_Some _ MRect _ _ Hx Hy) in E2.
  - intros (pre & p & post & Hsplit & Hpre & Hp).
    assert (∃ x y, get_prop (base_of o p) "x" = VNum x ∧
                   get_prop (base_of o p) "y" = VNum y) as (x & y & Hx & Hy).
    { unfold fromObj in Hp. repeat case_match; simplify_eq; eauto. }
    rewrite <- Hp.
    apply (readNode_first o ((λ c, (base_of o c.1, c.2)) <$> pre) _ _
             ((λ c, (base_of o c.1, c.2)) <$> post) x y); [|by apply Forall_fmap|done..].
    rewrite candidates_readOrder, Hsplit. by rewrite fmap_app.
Qed.

Lemma written_width snap base :
  written snap base "width"
  = if is_number (get_prop base "width") then snap_w snap else None.
Proof. reflexivity. Qed.

Lemma written_w snap base :
  written snap base "w"
  = if is_number (get_prop base "width") then None
    else if is_number (get_prop base "w") then snap_w snap else None.
Proof. reflexivity. Qed.

Lemma written_height snap base :
  written snap base "height"
  = if is_number (get_prop base "height") then snap_h snap else None.
Proof. reflexivity. Qed.

Lemma written_h snap base :
  written snap base "h"
  = if is_number (get_prop base "height") then None
    else if is_number (get_prop base "h") then snap_h snap else None.
Proof. reflexivity. Qed.

(** The size read back after [applyTo] wrote the size [sz], itself read
    from an object with the same number properties. *)
Lemma size_restored (g1 g2 g01 g02 : value) (sz : option Q) :
  is_number g1 = is_number g01 → is_number g2 = is_number g02 →
  sz = num_or g01 g02 →
  num_or
    (match (if is_number g1 then sz else None) with
     | Some q => VNum q
     | None => g1
     end)
    (match (if is_number g1 then None
            else if is_number g2 then sz else None) with
     | Some q => VNum q
     | None => g2
     end) = sz.
Proof.
  intros H1 H2 ->.
  destruct g1, g01; try done; destruct g2, g02; try done.
Qed.

Lemma fromObj_exposes base m snap :
  fromObj base m = Some snap →
  get_prop base "x" = VNum (snap_x snap) ∧ get_prop base "y" = VNum (snap_y snap) ∧
  mode snap = m ∧
  snap_w snap = num_or (get_prop base "width") (get_prop base "w") ∧
  snap_h snap = num_or (get_prop base "height") (get_prop base "h").
Proof.
  unfold fromObj. intros H. by repeat case_match; simplify_eq.
Qed.

Lemma readOrder_recorded pre p m post :
  readOrder = pre ++ (p, m) :: post →
  recordedBase m = Some p ∧ okBase p ∧ Forall (λ c, okBase c.1) pre.
Proof.
  intros H. pose proof readOrder_okBase as Hok. rewrite H in Hok.
  apply Forall_app in Hok as [Hpre Hp]. inversion_clear Hp as [|?? Hp' _].
  split; [|done].
  unfold readOrder in H.
  destruct pre as [|c1 [|c2 [|c3 [|c4 pre]]]]; simplify_eq/=; try done.
  by destruct pre.
Qed.

(** The snapshots [readModelSnapshot] builds record one of the four
    shapes. *)
Lemma readModelSnapshot_records_shape view nodeId snap :
  readModelSnapshot view nodeId = Some snap →
  ∃ p, recordedBase (mode snap) = Some p.
Proof.
  unfold readModelSnapshot. destruct (nodeObject view nodeId) as [o|]; [|done].
  intros (pre & p & post & Hsplit & _)%readNode_Some.
  exists p. by apply (readOrder_recorded pre p (mode snap) post).
Qed.

(** After a restore, the geometry read from the node is the snapshot, as
    long as the node object has numbers where it had numbers when the
    snapshot was taken. *)
Lemma restoreNode_reads snap o0 o :
  readNode o0 = Some snap → numProfile o0 o →
  readNode (restoreNode snap o) = Some snap.
Proof.
  intros Hread Hprof.
  apply readNode_Some in Hread as (pre & p & post & Hsplit & Hpre & Hp).
  destruct (readOrder_recorded _ _ _ _ Hsplit) as (Hrec & Hokp & Hokpre).
  destruct (bases_recorded _ _ Hrec) as (rest & Hbs & _).
  destruct (fromObj_exposes _ _ _ Hp) as (Hx0 & Hy0 & _ & Hw0 & Hh0).
  assert (Hexp : exposesXY (base_of o p) = true).
  { rewrite (numProfile_exposesXY o0 o p Hprof Hokp).
    by apply (exposesXY_true _ _ _ Hx0 Hy0). }
  assert (Hres : restoreNode snap o = (applyAt snap o p).1).
  { unfold restoreNode. rewrite Hbs. cbn [applyBases].
    pose proof (applyAt_ok snap o p) as H2. rewrite Hexp in H2.
    destruct (applyAt snap o p) as [o' ok]. cbn [snd] in H2. by subst ok. }
  apply readNode_Some. exists pre, p, post. split; [done|]. split.
  - rewrite Hres. apply Forall_forall. intros c Hc.
    assert (okBase c.1) as Hokc by by eapply Forall_forall in Hokpre.
    rewrite applyAt_exposesXY by done.
    rewrite (numProfile_exposesXY o0 o _ Hprof Hokc).
    by eapply Forall_forall in Hpre.
  - rewrite Hres, applyAt_base.
    rewrite (fromObj_Some _ (mode snap) (snap_x snap) (snap_y snap));
      [|by rewrite applyTo_accepts..].
    rewrite !applyTo_accepts by done.
    rewrite written_width, written_w, written_height, written_h.
    rewrite (size_restored _ _ (get_prop (base_of o0 p) "width")
               (get_prop (base_of o0 p) "w") (snap_w snap));
      [|apply Hprof; [done|by repeat constructor]..|done].
    rewrite (size_restored _ _ (get_prop (base_of o0 p) "height")
               (get_prop (base_of o0 p) "h") (snap_h snap));
      [|apply Hprof; [done|by repeat constructor]..|done].
    by destruct snap.
Qed.

Lemma close_refl x : close x x = true.
Proof.
  apply close_within. unfold within.
  assert (x - x == 0)%Q as -> by ring. done.
Qed.

Lemma isSameSnapshot_refl snap : isSameSnapshot snap snap = true.
Proof.
  unfold isSameSnapshot, differs. rewrite !close_refl. simpl.
  destruct (snap_w snap), (snap_h snap); by rewrite ?close_refl.
Qed.

Lemma restoreModelSnapshot_view view y sv :
  (restoreModelSnapshot view y sv).1 =
    match nodeObject view y with
    | Some oy => putNode view y (restoreNode sv oy)
    | None => view
    end.
Proof. unfold restoreModelSnapshot. by destruct (nodeObject view y). Qed.


Lemma nodeObject_restore view y sv id :
  nodeObject (restoreModelSnapshot view y sv).1 id =
    if decide (y = id) then restoreNode sv <$> nodeObject view id
    else nodeObject view id.
Proof.
  rewrite restoreModelSnapshot_view.
  destruct (nodeObject view y) as [oy|] eqn:Ey.
  - case_decide as Hd.
    + subst id. rewrite Ey. simpl. apply (nodeObject_putNode _ _ oy); [done|].
      rewrite restoreNode_is_object.
      by apply nodeObject_nodesMap in Ey as (? & ? & ? & ?).
    + apply nodeObject_nodesMap in Ey as (m & Hm & _ & _).
      by apply (nodeObject_putNode_ne _ _ _ _ m).
  - case_decide; [|done]. subst id. by rewrite Ey.
Qed.




Lemma enforceNode_sameButCaches css v path s w y :
  sameButCaches s (enforceNode css v path (s, w) y).1.
Proof.
  unfold enforceNode.
  pose proof (resolveNodeElById_sameButCaches w v y s) as H.
  destruct (resolveNodeElById w v y s) as [[el|] s1]; cbn [snd] in H; [|done].
  assert (sameButCaches s (set_nodeIdByEl (<[el:=y]> (nodeIdByEl s1)) s1)) as H2.
  { eapply sameButCaches_trans; [exact H|apply sameButCaches_nodeIdByEl]. }
  repeat case_match; cbn [fst]; try done.
  eapply sameButCaches_trans; [exact H2|apply sameButCaches_moveElByNodeEl].
Qed.


Lemma savedModelOf_sameButCaches s s' path id :
  sameButCaches s s' → savedModelOf s' path id = savedModelOf s path id.
Proof.
  intros H. unfold savedModelOf.
  by destruct (sameButCaches_fields _ _ H) as (_ & _ & _ & -> & _).
Qed.










(** ** The restore interval of the observer *)

Lemma lastOf_shouldThrottleRestore path nodeId now s :
  let r := shouldThrottleRestore path nodeId now s in
  r.1 = bool_decide (now - lastOf s path nodeId < 50)%Z ∧
  lastOf r.2 path nodeId = (if r.1 then lastOf s path nodeId else now) ∧
  sameButCaches (set_lastRestoreAtByCanvas (lastRestoreAtByCanvas r.2) s) r.2.
Proof.
  unfold shouldThrottleRestore, lastOf. cbv zeta.
  case_bool_decide; cbn [fst snd]; (split; [done|]); split;
    try (by destruct s); simpl; rewrite lookup_insert_eq; simpl;
    by rewrite ?lookup_insert_eq.
Qed.


(** ** The enforcement loop and the bypass *)



Lemma enforceLockedNodesOnce_sameButCaches css s w :
  sameButCaches s (enforceLockedNodesOnce css s w).1.
Proof.
  unfold enforceLockedNodesOnce.
  destruct (observedView s) as [v|]; [|apply sameButCaches_refl].
  destruct (observedCanvasPath s) as [path|]; [|apply sameButCaches_refl].
  case_bool_decide; [apply sameButCaches_refl|].
  apply (fold_left_preserve (enforceNode css v path)
           (λ st, sameButCaches s st.1)); [apply sameButCaches_refl|].
  intros [a wa] y Ha. cbn [fst] in *.
  eapply sameButCaches_trans; [exact Ha|apply enforceNode_sameButCaches].
Qed.

Lemma tick_world css now s w :
  (tick css now s w).2
  = if enforcing s && negb (shouldBypass s)
    then (enforceLockedNodesOnce css s w).2 else w.
Proof.
  unfold tick. destruct (enforcing s); [|done]. cbn [negb andb].
  destruct (shouldBypass s); cbn [negb].
  - by case_match.
  - destruct (enforceLockedNodesOnce css s w) as [s1 w1]. by case_match.
Qed.










(** ** Runs of the detectors on the concrete canvas *)

Example prime_snapshots_n3 :
  savedModelOf Fixture.mgr2 "a.canvas" "n3" = Some Fixture.snapN3 ∧
  savedModelOf Fixture.mgr2 "a.canvas" "n1" = Some Fixture.snapN1 ∧
  lockedIdsOf Fixture.mgr2 "a.canvas" = ["n1"; "n3"] ∧
  observedView Fixture.mgr2 = Some 0 ∧
  observedCanvasPath Fixture.mgr2 = Some "a.canvas".
Proof. vm_compute. done. Qed.

Example toggle_marks_n1 :
  classList <$> dom Fixture.worldL !! 2 = Some ["canvas-node"; "lc-locked"] ∧
  blockedPointerId Fixture.mgrDown = Some 1%Z ∧
  InputGuard.onPointerMove 1 Fixture.mgrDown = true ∧
  InputGuard.onPointerMove 1 Fixture.mgrAlt = false.
Proof. vm_compute. done. Qed.

Example resolve_n1_n2_n3 :
  resolveNodeEl Fixture.domA Fixture.viewA "n1" = Some 2 ∧
  resolveNodeEl Fixture.domA Fixture.viewA "n2" = Some 3 ∧
  resolveNodeEl Fixture.domA Fixture.viewA "n3" = None.
Proof. vm_compute. done. Qed.

Example pointer_down_starts_loop :
  enforcing Fixture.mgrDown = true ∧ pointerIsDown Fixture.mgrDown = true ∧
  enforceUntil Fixture.mgrDown = Forever ∧
  shouldBypass Fixture.mgrDown = false ∧ shouldBypass Fixture.mgrAlt = true.
Proof. vm_compute. done. Qed.




Example enforce_pass_run :
  geometryOf (mutateAll 0 Fixture.moveN1 Fixture.worldL) 0 "n1"
  = Some (mkSnap MPos 111 2 (Some 333%Q) (Some 4%Q)) ∧
  geometryOf (enforceLockedNodesOnce Fixture.css0 Fixture.mgr2
                (mutateAll 0 Fixture.moveN1 Fixture.worldL)).2 0 "n1"
  = Some Fixture.snapN1.
Proof. vm_compute. done. Qed.




(** The observer on the same canvas: the first record restores [n1] and
    records the clock; a record 10 ms later finds [n1] moved again and
    leaves it; a record 50 ms after the first restores it. *)
Example observer_throttles_second_restore :
  let record now := [(mkMutation "attributes" (Some 2), now)] in
  let w1 := mutateAll 0 Fixture.moveN1 Fixture.worldL in
  let r1 := deliverMutations Fixture.css0 (record 1000%Z) Fixture.mgr2 w1 in
  let w2 := mutateWorld 0 r1.2 Fixture.moveN1Again in
  let r2 := deliverMutations Fixture.css0 (record 1010%Z) r1.1 w2 in
  let r3 := deliverMutations Fixture.css0 (record 1050%Z) r2.1 r2.2 in
  geometryOf r1.2 0 "n1" = Some Fixture.snapN1 ∧
  lastOf r1.1 "a.canvas" "n1" = 1000%Z ∧
  r2.2 = w2 ∧
  geometryOf r2.2 0 "n1" = Some (mkSnap MPos 222 2 (Some 3%Q) (Some 4%Q)) ∧
  lastOf r2.1 "a.canvas" "n1" = 1000%Z ∧
  geometryOf r3.2 0 "n1" = Some Fixture.snapN1 ∧
  lastOf r3.1 "a.canvas" "n1" = 1050%Z.
Proof. vm_compute. done. Qed.

(** * Further properties of the engine and of the plugin *)

(** ** The locked set *)

Lemma lockedIdsOf_setLocked_ne path nodeId locked s path' :
  path' ≠ path →
  lockedIdsOf (setLocked path nodeId locked s) path' = lockedIdsOf s path'.
Proof.
  intros Hne. unfold setLocked, lockedIdsOf. simpl.
  by rewrite lookup_insert_ne.
Qed.

Lemma isLocked_setLocked_eq path nodeId locked s path' id' :
  isLocked (setLocked path nodeId locked s) path' id'
  = if bool_decide (path' = path ∧ id' = nodeId) then locked
    else isLocked s path' id'.
Proof.
  unfold isLocked.
  destruct (decide (path' = path)) as [->|Hp].
  - pose proof (elem_of_lockedIdsOf_setLocked path nodeId locked s id') as H.
    destruct (decide (id' = nodeId)) as [->|Hid].
    + rewrite (bool_decide_eq_true_2 (path = path ∧ nodeId = nodeId)) by done.
      destruct locked.
      * apply bool_decide_eq_true_2, H. by left.
      * apply bool_decide_eq_false_2. rewrite H. by intros [? _].
    + rewrite (bool_decide_eq_false_2 (path = path ∧ id' = nodeId)) by naive_solver.
      apply bool_decide_ext. rewrite H. destruct locked; naive_solver.
  - rewrite (bool_decide_eq_false_2 (path' = path ∧ id' = nodeId)) by naive_solver.
    by rewrite lockedIdsOf_setLocked_ne.
Qed.

Lemma newSet_from acc l :
  NoDup (acc ++ l) → fold_left (λ acc x, set_add x acc) l acc = acc ++ l.
Proof.
  revert acc. induction l as [|x l IH]; intros acc Hnd; simpl.
  - by rewrite app_nil_r.
  - assert (x ∉ acc) as Hx.
    { apply NoDup_app in Hnd as (_ & Hd & _). intros Hin.
      apply (Hd x Hin). by left. }
    unfold set_add at 2. rewrite bool_decide_eq_false_2 by done.
    rewrite IH; rewrite <- app_assoc; done.
Qed.

Lemma newSet_NoDup l : NoDup l → newSet l = l.
Proof. intros Hnd. unfold newSet. by rewrite newSet_from. Qed.

Lemma set_delete_absent x l : x ∉ l → set_delete x l = l.
Proof.
  intros Hx. unfold set_delete. induction l as [|y l IH]; [done|].
  rewrite filter_cons. apply not_elem_of_cons in Hx as [Hne Hx].
  rewrite decide_True by done. by rewrite IH.
Qed.

(** X1.  Locking a node that is not locked and unlocking it again gives
    back the stored array of the canvas as it was, when that array has no
    duplicate: the other ids keep their places. *)
Theorem lock_then_unlock_restores (path nodeId : string) (s : Manager) :
  NoDup (lockedIdsOf s path) →
  isLocked s path nodeId = false →
  lockedIdsOf (setLocked path nodeId false (setLocked path nodeId true s)) path
  = lockedIdsOf s path.
Proof.
  intros Hnd Hun. apply bool_decide_eq_false in Hun.
  rewrite !lockedIdsOf_setLocked.
  rewrite (newSet_NoDup (lockedIdsOf s path)) by done.
  unfold set_add. rewrite bool_decide_eq_false_2 by done.
  rewrite newSet_NoDup.
  - unfold set_delete. rewrite filter_app.
    fold (set_delete nodeId (lockedIdsOf s path)).
    rewrite set_delete_absent by done.
    rewrite filter_cons, decide_False by naive_solver.
    by rewrite filter_nil, app_nil_r.
  - apply NoDup_app. split; [done|]. split; [|apply NoDup_singleton].
    by intros y Hy ->%list_elem_of_singleton.
Qed.

Lemma lock_then_unlock_restores_witness :
  lockedIdsOf
    (setLocked "a.canvas" "n9" false (setLocked "a.canvas" "n9" true Fixture.mgr2))
    "a.canvas"
  = lockedIdsOf Fixture.mgr2 "a.canvas".
Proof.
  apply (lock_then_unlock_restores "a.canvas" "n9" Fixture.mgr2).
  - vm_compute. repeat constructor; set_solver.
  - vm_compute. reflexivity.
Defined.

(** ** The snapshot store *)

Lemma hasSnapshot_snapshotsAt s path nodeId :
  hasSnapshot s path nodeId ↔ snapshotsAt s path nodeId ≠ (None, None, None).
Proof.
  unfold hasSnapshot, snapshotsAt.
  destruct (savedStyleOf s path nodeId), (savedMoveStyleOf s path nodeId),
    (savedModelOf s path nodeId); split; try done;
    try (intros _; eauto; fail); try (intros [H|[H|H]]; by destruct H).
Qed.

Lemma lockStore_snapshotsAt s s' path nodeId :
  lockStore s' = lockStore s → snapshotsAt s' path nodeId = snapshotsAt s path nodeId.
Proof.
  unfold lockStore, snapshotsAt, savedStyleOf, savedMoveStyleOf, savedModelOf.
  intros H. injection H as _ -> -> -> _. done.
Qed.

Lemma lockStore_isLocked s s' path nodeId :
  lockStore s' = lockStore s → isLocked s' path nodeId = isLocked s path nodeId.
Proof.
  unfold lockStore, isLocked, lockedIdsOf. intros H. injection H as -> _ _ _ _. done.
Qed.

Lemma lockStore_sameButCaches s s' : sameButCaches s s' → lockStore s' = lockStore s.
Proof. intros ->. by destruct s. Qed.

Lemma lookup_snapshot_any {V} (maps : gmap string (gmap string V)) path nodeId v p i :
  default ∅ (<[path := <[nodeId := v]> (default ∅ (maps !! path))]> maps !! p) !! i
  = if bool_decide (p = path ∧ i = nodeId) then Some v
    else default ∅ (maps !! p) !! i.
Proof.
  destruct (decide (p = path)) as [->|Hp].
  - rewrite lookup_insert_eq. simpl.
    destruct (decide (i = nodeId)) as [->|Hi].
    + rewrite lookup_insert_eq. by rewrite bool_decide_eq_true_2.
    + rewrite lookup_insert_ne by done. rewrite bool_decide_eq_false_2; naive_solver.
  - rewrite lookup_insert_ne by done. rewrite bool_decide_eq_false_2; naive_solver.
Qed.

Lemma lookup_forget_any {V} (maps : gmap string (gmap string V)) path nodeId p i :
  default ∅ (match maps !! path with
             | None => maps
             | Some map => <[path := delete nodeId map]> maps
             end !! p) !! i
  = if bool_decide (p = path ∧ i = nodeId) then None
    else default ∅ (maps !! p) !! i.
Proof.
  destruct (decide (p = path)) as [->|Hp].
  - destruct (maps !! path) as [map|] eqn:E.
    + rewrite lookup_insert_eq. simpl.
      destruct (decide (i = nodeId)) as [->|Hi].
      * rewrite lookup_delete_eq. by rewrite bool_decide_eq_true_2.
      * rewrite lookup_delete_ne by done. rewrite bool_decide_eq_false_2; naive_solver.
    + rewrite E. simpl. rewrite lookup_empty. by case_bool_decide.
  - rewrite bool_decide_eq_false_2 by naive_solver.
    destruct (maps !! path) as [map|] eqn:E; [|done].
    by rewrite lookup_insert_ne.
Qed.

Lemma snapshotsAt_setLocked path nodeId locked s p i :
  snapshotsAt (setLocked path nodeId locked s) p i = snapshotsAt s p i.
Proof. done. Qed.

Lemma snapshotsAt_forgetOnUnlock path nodeId s p i :
  snapshotsAt (forgetOnUnlock path nodeId s) p i
  = if bool_decide (p = path ∧ i = nodeId) then (None, None, None)
    else snapshotsAt s p i.
Proof.
  unfold snapshotsAt.
  assert (savedStyleOf (forgetOnUnlock path nodeId s) p i
          = if bool_decide (p = path ∧ i = nodeId) then None else savedStyleOf s p i) as ->.
  { unfold forgetOnUnlock, savedStyleOf.
    rewrite (proj1 (proj2 (forgetLockedNodeModel_fields _ _ _))).
    rewrite (proj1 (proj2 (forgetLockedMoveStyle_fields _ _ _))).
    rewrite <- lookup_forget_any. unfold forgetLockedNodeStyle. by case_match. }
  assert (savedMoveStyleOf (forgetOnUnlock path nodeId s) p i
          = if bool_decide (p = path ∧ i = nodeId) then None
            else savedMoveStyleOf s p i) as ->.
  { unfold forgetOnUnlock, savedMoveStyleOf.
    rewrite (proj2 (proj2 (forgetLockedNodeModel_fields _ _ _))).
    rewrite <- (proj1 (proj2 (forgetLockedNodeStyle_fields path nodeId s))).
    rewrite <- lookup_forget_any. unfold forgetLockedMoveStyle. by case_match. }
  assert (savedModelOf (forgetOnUnlock path nodeId s) p i
          = if bool_decide (p = path ∧ i = nodeId) then None
            else savedModelOf s p i) as ->.
  { unfold forgetOnUnlock, savedModelOf.
    rewrite <- (proj2 (proj2 (forgetLockedNodeStyle_fields path nodeId s))).
    rewrite <- (proj2 (proj2 (forgetLockedMoveStyle_fields path nodeId
                                (forgetLockedNodeStyle path nodeId s)))).
    rewrite <- lookup_forget_any. unfold forgetLockedNodeModel. by case_match. }
  by case_bool_decide.
Qed.

Lemma snapshotsAt_snapshotOnLock w ctx view nodeId s p i :
  viewOf w (ctx_view ctx) = Some view →
  snapshotsAt (snapshotOnLock w ctx nodeId s) p i
  = if bool_decide (p = canvasPath ctx ∧ i = nodeId)
    then retaken (dom w) view nodeId (snapshotsAt s p i)
    else snapshotsAt s p i.
Proof.
  intros Hv. unfold retaken, snapshotOnLock, resolveNodeElById. rewrite Hv.
  destruct (resolveNodeEl (dom w) view nodeId) as [el|]; [|by case_bool_decide].
  unfold snapshotLockedNodeModel. rewrite Hv.
  unfold snapshotsAt, savedStyleOf, savedMoveStyleOf, savedModelOf.
  destruct (readModelSnapshot view nodeId) as [snap|]; simpl;
    rewrite ?lookup_snapshot_any; by case_bool_decide.
Qed.

Lemma lockedByCanvas_snapshotOnLock w ctx nodeId s :
  lockedByCanvas (snapshotOnLock w ctx nodeId s) = lockedByCanvas s.
Proof.
  unfold snapshotOnLock, resolveNodeElById, snapshotLockedNodeModel.
  repeat case_match; simplify_eq; done.
Qed.

Lemma isLocked_lockedByCanvas s s' p i :
  lockedByCanvas s' = lockedByCanvas s → isLocked s' p i = isLocked s p i.
Proof. unfold isLocked, lockedIdsOf. by intros ->. Qed.

Lemma retaken_twice d view nodeId old :
  retaken d view nodeId (retaken d view nodeId old) = retaken d view nodeId old.
Proof.
  unfold retaken. destruct (resolveNodeEl d view nodeId); [|done]. simpl.
  by destruct (readModelSnapshot view nodeId).
Qed.

(** ** One node at a time *)

(** X2.  [setLocked] changes the lock of one node of one canvas: the
    node named is locked afterwards exactly when [true] was passed, every
    other node of every canvas is locked exactly when it was, the arrays
    of the other canvases are untouched, and the array of the canvas has
    no duplicate afterwards, whatever it held before. *)
Theorem setLocked_changes_one_node (path nodeId : string) (locked : bool)
    (s : Manager) :
  let s' := setLocked path nodeId locked s in
  (∀ p i, isLocked s' p i
          = if bool_decide (p = path ∧ i = nodeId) then locked
            else isLocked s p i) ∧
  (∀ p, p ≠ path → lockedIdsOf s' p = lockedIdsOf s p) ∧
  NoDup (lockedIdsOf s' path) ∧
  (∀ p i, snapshotsAt s' p i = snapshotsAt s p i).
Proof.
  intros s'. split; [|split; [|split]].
  - intros p i. apply isLocked_setLocked_eq.
  - intros p Hp. by apply lockedIdsOf_setLocked_ne.
  - apply setLocked_NoDup.
  - intros p i. apply snapshotsAt_setLocked.
Qed.

(** ** The lock and unlock commands *)

Lemma fold_left_preserve_in {A B} (f : A → B → A) (Inv : A → Prop) l a :
  Inv a → (∀ a y, y ∈ l → Inv a → Inv (f a y)) → Inv (fold_left f l a).
Proof.
  revert a. induction l as [|y l IH]; intros a Ha Hinv; [done|].
  simpl. apply IH.
  - apply Hinv; [by left|done].
  - intros a' y' Hy'. apply Hinv. by right.
Qed.

Lemma isLocked_setLocked_fold path ids locked s p i :
  isLocked (fold_left (λ acc x, setLocked path x locked acc) ids s) p i
  = if bool_decide (p = path ∧ i ∈ ids) then locked else isLocked s p i.
Proof.
  revert s. induction ids as [|y ids IH]; intros s; simpl.
  - rewrite bool_decide_eq_false_2; [done|]. intros [_ H]. by apply elem_of_nil in H.
  - rewrite IH. unfold isLocked at 1. fold (isLocked (setLocked path y locked s) p i).
    rewrite isLocked_setLocked_eq.
    repeat case_bool_decide; try done; exfalso; set_solver.
Qed.

Ltac decide_all :=
  repeat match goal with
         | |- context [bool_decide ?P] =>
             first [ rewrite (bool_decide_eq_true_2 P)
                       by (rewrite ?elem_of_cons; intuition congruence)
                   | rewrite (bool_decide_eq_false_2 P)
                       by (rewrite ?elem_of_cons; intuition congruence) ]
         end.

Lemma lockStore_ensureGuardAttached ctx s :
  lockStore (ensureGuardAttached ctx s) = lockStore s.
Proof. unfold ensureGuardAttached, attachStyleGuardToCanvas. by case_match. Qed.

Lemma lockStore_applyLockedClasses ctx s w :
  lockStore (applyLockedClasses ctx s w).1 = lockStore s.
Proof. apply lockStore_sameButCaches, applyLockedClasses_sameButCaches. Qed.

Lemma lock_fold w ctx view ids s p i :
  viewOf w (ctx_view ctx) = Some view →
  let s' := fold_left (λ acc id, snapshotOnLock w ctx id
                                   (setLocked (canvasPath ctx) id true acc)) ids s in
  isLocked s' p i = isLocked s p i || bool_decide (p = canvasPath ctx ∧ i ∈ ids) ∧
  snapshotsAt s' p i
  = if bool_decide (p = canvasPath ctx ∧ i ∈ ids)
    then retaken (dom w) view i (snapshotsAt s p i) else snapshotsAt s p i.
Proof.
  intros Hv. cbv zeta. revert s. induction ids as [|y ids IH]; intros s.
  { simpl. rewrite bool_decide_eq_false_2, orb_false_r; [done|].
    intros [_ H]. by apply elem_of_nil in H. }
  cbn [fold_left]. destruct (IH (snapshotOnLock w ctx y
                                   (setLocked (canvasPath ctx) y true s))) as [-> ->].
  rewrite (isLocked_lockedByCanvas _ _ _ _ (lockedByCanvas_snapshotOnLock _ _ _ _)).
  rewrite isLocked_setLocked_eq.
  rewrite (snapshotsAt_snapshotOnLock w ctx view) by done.
  rewrite snapshotsAt_setLocked.
  destruct (decide (p = canvasPath ctx)) as [->|Hp]; [|by decide_all].
  destruct (decide (i = y)) as [->|Hi].
  - destruct (decide (y ∈ ids)); decide_all;
      by rewrite ?retaken_twice, ?orb_true_r.
  - destruct (decide (i ∈ ids)); by decide_all.
Qed.

Lemma unlock_fold path ids s p i :
  let s' := fold_left (λ acc id, forgetOnUnlock path id (setLocked path id false acc))
                      ids s in
  isLocked s' p i = isLocked s p i && negb (bool_decide (p = path ∧ i ∈ ids)) ∧
  snapshotsAt s' p i
  = if bool_decide (p = path ∧ i ∈ ids) then (None, None, None)
    else snapshotsAt s p i.
Proof.
  cbv zeta. revert s. induction ids as [|y ids IH]; intros s.
  { simpl. rewrite bool_decide_eq_false_2, andb_true_r; [done|].
    intros [_ H]. by apply elem_of_nil in H. }
  cbn [fold_left].
  destruct (IH (forgetOnUnlock path y (setLocked path y false s))) as [-> ->].
  rewrite (isLocked_lockedByCanvas _ _ _ _ (forgetOnUnlock_lockedByCanvas _ _ _)).
  rewrite isLocked_setLocked_eq, snapshotsAt_forgetOnUnlock, snapshotsAt_setLocked.
  destruct (decide (p = path)) as [->|Hp]; [|by decide_all].
  destruct (decide (i = y)) as [->|Hi].
  - destruct (decide (y ∈ ids)); decide_all; by rewrite ?andb_false_r.
  - destruct (decide (i ∈ ids)); by decide_all.
Qed.

Lemma lockSelectedCards_run s w ctx :
  getActiveCanvasContext w = Some ctx →
  getSelectedNodeIds w ctx ≠ [] →
  lockSelectedCards false s w =
    (true,
     applyLockedClasses ctx
       (fold_left (λ acc id, snapshotOnLock w ctx id
                               (setLocked (canvasPath ctx) id true acc))
                  (getSelectedNodeIds w ctx) (ensureGuardAttached ctx s)) w).
Proof.
  intros Hctx Hsel. unfold lockSelectedCards. rewrite Hctx.
  rewrite bool_decide_eq_false_2; [done|].
  by destruct (getSelectedNodeIds w ctx).
Qed.

Lemma unlockSelectedCards_run s w ctx :
  getActiveCanvasContext w = Some ctx →
  getSelectedNodeIds w ctx ≠ [] →
  unlockSelectedCards false s w =
    (true,
     applyLockedClasses ctx
       (fold_left (λ acc id, forgetOnUnlock (canvasPath ctx) id
                               (setLocked (canvasPath ctx) id false acc))
                  (getSelectedNodeIds w ctx) (ensureGuardAttached ctx s)) w).
Proof.
  intros Hctx Hsel. unfold unlockSelectedCards. rewrite Hctx.
  rewrite bool_decide_eq_false_2; [done|].
  by destruct (getSelectedNodeIds w ctx).
Qed.


(** X4.  The command "Unlock selected canvas cards", run on a non-empty
    selection, leaves a node locked when it was locked and is not
    selected; no snapshot of any kind is left for a selected node, and the
    snapshots of every other node are as before. *)
Theorem unlock_selected_unlocks_and_forgets (s : Manager) (w : World)
    (ctx : CanvasContext) :
  getActiveCanvasContext w = Some ctx →
  getSelectedNodeIds w ctx ≠ [] →
  let r := unlockSelectedCards false s w in
  r.1 = true ∧
  ∀ p i,
    isLocked r.2.1 p i
    = isLocked s p i
      && negb (bool_decide (p = canvasPath ctx ∧ i ∈ getSelectedNodeIds w ctx)) ∧
    snapshotsAt r.2.1 p i
    = if bool_decide (p = canvasPath ctx ∧ i ∈ getSelectedNodeIds w ctx)
      then (None, None, None)
      else snapshotsAt s p i.
Proof.
  intros Hctx Hsel r. subst r. rewrite (unlockSelectedCards_run s w ctx) by done.
  split; [done|]. intros p i. cbn [fst snd].
  pose proof (lockStore_applyLockedClasses ctx
    (fold_left (λ acc id, forgetOnUnlock (canvasPath ctx) id
                            (setLocked (canvasPath ctx) id false acc))
               (getSelectedNodeIds w ctx) (ensureGuardAttached ctx s)) w) as Hst.
  rewrite (lockStore_isLocked _ _ p i Hst), (lockStore_snapshotsAt _ _ p i Hst).
  destruct (unlock_fold (canvasPath ctx) (getSelectedNodeIds w ctx)
              (ensureGuardAttached ctx s) p i) as [-> ->].
  pose proof (lockStore_ensureGuardAttached ctx s) as Hg.
  by rewrite (lockStore_isLocked _ _ p i Hg), (lockStore_snapshotsAt _ _ p i Hg).
Qed.

(** ** Resolving the element of a node *)

Lemma closestFrom_matches d fuel : ∀ el sel n,
  closestFrom d fuel el sel = Some n → matchesSel d n sel = true.
Proof.
  induction fuel as [|fuel IH]; intros el sel n; [done|]. simpl.
  destruct (matchesSel d el sel) eqn:E; [by intros [= <-]|].
  destruct (parentOf d el); [apply IH|done].
Qed.

Lemma matchesSel_canvas_node d el :
  matchesSel d el SelCanvasNode = hasClass d el "canvas-node".
Proof. unfold matchesSel, hasClass. by destruct (d !! el). Qed.

Lemma nodeElOf_canvas_node d c n :
  nodeElOf d c = Some n → hasClass d n "canvas-node" = true.
Proof.
  unfold nodeElOf. destruct (hasClass d c "canvas-node") eqn:E.
  - by intros [= <-].
  - intros H%closestFrom_matches. by rewrite matchesSel_canvas_node in H.
Qed.

Lemma firstNodeEl_canvas_node d cs n :
  firstNodeEl d cs = Some n → hasClass d n "canvas-node" = true.
Proof.
  induction cs as [|c cs IH]; [done|]. simpl.
  destruct c; try apply IH.
  destruct (nodeElOf d e) eqn:E; [|apply IH].
  intros [= <-]. by eapply nodeElOf_canvas_node.
Qed.

Lemma firstBySelector_canvas_node d c sels n :
  firstBySelector d c sels = Some n → hasClass d n "canvas-node" = true.
Proof.
  induction sels as [|sel sels IH]; [done|]. simpl.
  destruct (querySelector d c sel) as [el|]; [|apply IH].
  destruct (nodeElOf d el) eqn:E; [|apply IH].
  intros [= <-]. by eapply nodeElOf_canvas_node.
Qed.

Lemma resolveNodeEl_canvas_node d view id el :
  resolveNodeEl d view id = Some el → hasClass d el "canvas-node" = true.
Proof.
  unfold resolveNodeEl.
  destruct (match nodeObject view id with
            | Some o => firstNodeEl d (elementCandidates o)
            | None => None
            end) as [n|] eqn:E.
  - intros [= <-]. destruct (nodeObject view id); [|done].
    by eapply firstNodeEl_canvas_node.
  - apply firstBySelector_canvas_node.
Qed.

Lemma hasClass_lookup d el c : hasClass d el c = true → is_Some (d !! el).
Proof. unfold hasClass. destruct (d !! el); [eauto|done]. Qed.



(** ** The lock marker *)

Section Marker.
Variables d d' : list Element.
Hypothesis Hum : unmarked d = unmarked d'.

Lemma unmarked_lookup el :
  (λ e, (parentElement e, style e,
         filter (λ c, c ≠ "lc-locked") (classList e), attributes e)) <$> (d !! el)
  = (λ e, (parentElement e, style e,
           filter (λ c, c ≠ "lc-locked") (classList e), attributes e)) <$> (d' !! el).
Proof. rewrite <- !list_lookup_fmap. unfold unmarked in Hum. by rewrite Hum. Qed.

Lemma unmarked_length : length d = length d'.
Proof.
  rewrite <- (length_fmap (λ e, (parentElement e, style e,
         filter (λ c, c ≠ "lc-locked") (classList e), attributes e)) d).
  unfold unmarked in Hum. by rewrite Hum, length_fmap.
Qed.

Lemma unmarked_hasClass el c :
  c ≠ "lc-locked" → hasClass d el c = hasClass d' el c.
Proof.
  intros Hc. unfold hasClass. pose proof (unmarked_lookup el) as H.
  destruct (d !! el) as [e|], (d' !! el) as [e'|]; try done.
  simpl in H. injection H as _ _ H _.
  apply bool_decide_ext.
  assert (∀ l : list string, c ∈ l ↔ c ∈ filter (λ c, c ≠ "lc-locked") l) as Hf.
  { intros l. rewrite list_elem_of_filter. naive_solver. }
  by rewrite (Hf (classList e)), (Hf (classList e')), H.
Qed.

Lemma unmarked_parentOf el : parentOf d el = parentOf d' el.
Proof.
  unfold parentOf. pose proof (unmarked_lookup el) as H.
  destruct (d !! el) as [e|], (d' !! el) as [e'|]; try done.
  simpl in H. by injection H as H _ _ _.
Qed.

Lemma unmarked_getStyle el : getStyle d el = getStyle d' el.
Proof.
  unfold getStyle. pose proof (unmarked_lookup el) as H.
  destruct (d !! el) as [e|], (d' !! el) as [e'|]; try done.
  simpl in H. by injection H as _ H _ _.
Qed.

Lemma unmarked_matchesSel el sel :
  sel ≠ SelLockedNode → matchesSel d el sel = matchesSel d' el sel.
Proof.
  intros Hsel. pose proof (unmarked_hasClass el "canvas-node") as Hc.
  unfold hasClass in Hc. unfold matchesSel.
  pose proof (unmarked_lookup el) as H.
  destruct (d !! el) as [e|], (d' !! el) as [e'|]; try done.
  simpl in H. injection H as _ _ _ Ha.
  destruct sel; try done; rewrite ?Hc, ?Ha; done.
Qed.

Lemma unmarked_closestFrom fuel : ∀ el sel,
  sel ≠ SelLockedNode → closestFrom d fuel el sel = closestFrom d' fuel el sel.
Proof.
  induction fuel as [|fuel IH]; intros el sel Hsel; [done|]. simpl.
  rewrite unmarked_matchesSel, unmarked_parentOf by done.
  destruct (matchesSel d' el sel); [done|].
  destruct (parentOf d' el); [by apply IH|done].
Qed.

Lemma unmarked_closest el sel :
  sel ≠ SelLockedNode → closest d el sel = closest d' el sel.
Proof. intros. unfold closest. rewrite unmarked_length. by apply unmarked_closestFrom. Qed.

Lemma unmarked_reaches fuel : ∀ el anc, reaches d fuel el anc = reaches d' fuel el anc.
Proof.
  induction fuel as [|fuel IH]; intros el anc; [done|]. simpl.
  rewrite unmarked_parentOf. case_bool_decide; [done|].
  destruct (parentOf d' el); [apply IH|done].
Qed.

Lemma unmarked_isDescendant el c : isDescendant d el c = isDescendant d' el c.
Proof.
  unfold isDescendant. rewrite unmarked_parentOf, unmarked_length.
  destruct (parentOf d' el); [apply unmarked_reaches|done].
Qed.

Lemma unmarked_querySelectorAll c sel :
  sel ≠ SelLockedNode → querySelectorAll d c sel = querySelectorAll d' c sel.
Proof.
  intros. unfold querySelectorAll. rewrite unmarked_length.
  apply list_filter_iff. intros el.
  by rewrite unmarked_isDescendant, unmarked_matchesSel.
Qed.

Lemma unmarked_nodeElOf el : nodeElOf d el = nodeElOf d' el.
Proof. unfold nodeElOf. by rewrite unmarked_hasClass, unmarked_closest. Qed.

Lemma unmarked_firstNodeEl cs : firstNodeEl d cs = firstNodeEl d' cs.
Proof.
  induction cs as [|c cs IH]; [done|]. simpl.
  destruct c; try done. rewrite unmarked_nodeElOf. by rewrite IH.
Qed.

Lemma unmarked_firstBySelector c sels :
  Forall (λ sel, sel ≠ SelLockedNode) sels →
  firstBySelector d c sels = firstBySelector d' c sels.
Proof.
  induction 1 as [|sel sels Hsel _ IH]; [done|]. simpl.
  unfold querySelector. rewrite unmarked_querySelectorAll by done.
  destruct (head (querySelectorAll d' c sel)); [|done].
  rewrite unmarked_nodeElOf. by rewrite IH.
Qed.

Lemma unmarked_resolveNodeEl view id :
  resolveNodeEl d view id = resolveNodeEl d' view id.
Proof.
  unfold resolveNodeEl.
  rewrite (unmarked_firstBySelector (containerEl view) (selectors id))
    by (unfold selectors; repeat constructor; done).
  destruct (nodeObject view id); by rewrite ?unmarked_firstNodeEl.
Qed.
End Marker.

Lemma filter_marker_twice (l : list string) :
  filter (λ c, c ≠ "lc-locked") (filter (λ c, c ≠ "lc-locked") l)
  = filter (λ c, c ≠ "lc-locked") l.
Proof.
  induction l as [|c l IH]; [done|]. rewrite filter_cons.
  case_decide; [|done]. rewrite filter_cons, decide_True by done. by rewrite IH.
Qed.

Lemma unmarked_removeClass el d :
  unmarked (removeClass "lc-locked" el d) = unmarked d.
Proof.
  unfold unmarked, removeClass. apply list_eq. intros i.
  rewrite !list_lookup_fmap.
  destruct (decide (i = el)) as [->|Hne].
  - rewrite list_lookup_alter_eq. destruct (d !! el); [|done]. simpl.
    by rewrite filter_marker_twice.
  - by rewrite list_lookup_alter_ne.
Qed.

Lemma unmarked_addClass el d :
  unmarked (addClass "lc-locked" el d) = unmarked d.
Proof.
  unfold unmarked, addClass. apply list_eq. intros i.
  rewrite !list_lookup_fmap.
  destruct (decide (i = el)) as [->|Hne].
  - rewrite list_lookup_alter_eq. destruct (d !! el) as [e|]; [|done]. simpl.
    case_bool_decide; [done|]. rewrite filter_app, filter_cons.
    rewrite decide_False by naive_solver. by rewrite filter_nil, app_nil_r.
  - by rewrite list_lookup_alter_ne.
Qed.

Lemma hasClass_removeClass c el d e :
  hasClass (removeClass c el d) e c
  = if decide (e = el) then false else hasClass d e c.
Proof.
  unfold hasClass, removeClass. destruct (decide (e = el)) as [->|Hne].
  - rewrite list_lookup_alter_eq. destruct (d !! el); [|done]. simpl.
    apply bool_decide_eq_false_2. rewrite list_elem_of_filter. naive_solver.
  - by rewrite list_lookup_alter_ne.
Qed.

Lemma hasClass_addClass c el d e :
  hasClass (addClass c el d) e c
  = if decide (e = el) then bool_decide (is_Some (d !! el)) else hasClass d e c.
Proof.
  unfold hasClass, addClass. destruct (decide (e = el)) as [->|Hne].
  - rewrite list_lookup_alter_eq. destruct (d !! el) as [x|]; simpl.
    + apply bool_decide_eq_true_2. case_bool_decide; [done|].
      rewrite elem_of_app, list_elem_of_singleton. by right.
    + done.
  - by rewrite list_lookup_alter_ne.
Qed.

Lemma cleared_marker els : ∀ d,
  unmarked (fold_left (λ d node, removeClass "lc-locked" node d) els d) = unmarked d ∧
  ∀ e, hasClass (fold_left (λ d node, removeClass "lc-locked" node d) els d) e "lc-locked"
       = if bool_decide (e ∈ els) then false else hasClass d e "lc-locked".
Proof.
  induction els as [|n els IH]; intros d.
  { split; [done|]. intros e. rewrite bool_decide_eq_false_2; [done|].
    apply not_elem_of_nil. }
  cbn [fold_left]. destruct (IH (removeClass "lc-locked" n d)) as [-> H].
  split; [apply unmarked_removeClass|]. intros e. rewrite H.
  rewrite hasClass_removeClass.
  destruct (decide (e = n)) as [->|Hne].
  - rewrite (bool_decide_eq_true_2 (n ∈ n :: els)) by (by left).
    by case_bool_decide.
  - rewrite (bool_decide_ext (e ∈ n :: els) (e ∈ els)); [done|].
    rewrite elem_of_cons. naive_solver.
Qed.

Lemma markLocked_marker v view ids : ∀ s w,
  viewOf w v = Some view →
  let r := markLocked v ids s w in
  unmarked (dom r.2) = unmarked (dom w) ∧
  views r.2 = views w ∧ mostRecentLeaf r.2 = mostRecentLeaf w ∧
  canvasLeaves r.2 = canvasLeaves w ∧ hostCalls r.2 = hostCalls w ∧
  ∀ e, hasClass (dom r.2) e "lc-locked" = true ↔
       hasClass (dom w) e "lc-locked" = true ∨
       ∃ id, id ∈ ids ∧ resolveNodeEl (dom w) view id = Some e.
Proof.
  induction ids as [|id ids IH]; intros s w Hv; cbv zeta.
  { cbn [markLocked fst snd]. repeat split; try done; [by left|].
    intros [?|(id & H & _)]; [done|]. by apply elem_of_nil in H. }
  cbn [markLocked]. unfold resolveNodeElById. rewrite Hv.
  destruct (resolveNodeEl (dom w) view id) as [el|] eqn:E.
  - set (w1 := set_dom (addClass "lc-locked" el (dom w)) w).
    assert (Hv1 : viewOf w1 v = Some view) by done.
    assert (Hu1 : unmarked (dom w1) = unmarked (dom w))
      by apply unmarked_addClass.
    destruct (IH (set_nodeIdByEl (<[el := id]> (nodeIdByEl s)) s) w1 Hv1)
      as (Hu & Hvs & Hm & Hl & Hc & Hcls).
    repeat split; try done; [by rewrite Hu|..].
    + intros H%Hcls. destruct H as [H|(id' & Hin & Hr)].
      * cbn [w1 dom set_dom] in H. rewrite hasClass_addClass in H.
        destruct (decide (e = el)) as [->|Hne]; [|by left].
        right. exists id. split; [by left|done].
      * right. exists id'. split; [by right|].
        by rewrite <- (unmarked_resolveNodeEl _ _ Hu1).
    + intros [H|(id' & Hin & Hr)]; apply Hcls.
      * left. cbn [w1 dom set_dom]. rewrite hasClass_addClass.
        destruct (decide (e = el)) as [->|Hne]; [|done].
        apply bool_decide_eq_true_2. eapply hasClass_lookup.
        by eapply resolveNodeEl_canvas_node.
      * apply elem_of_cons in Hin as [->|Hin].
        -- left. cbn [w1 dom set_dom]. rewrite hasClass_addClass.
           rewrite E in Hr. injection Hr as ->. rewrite decide_True by done.
           apply bool_decide_eq_true_2. eapply hasClass_lookup.
           by eapply resolveNodeEl_canvas_node.
        -- right. exists id'. split; [done|].
           by rewrite (unmarked_resolveNodeEl _ _ Hu1).
  - destruct (IH s w Hv) as (Hu & Hvs & Hm & Hl & Hc & Hcls).
    repeat split; try done.
    + intros H%Hcls. destruct H as [H|(id' & Hin & Hr)]; [by left|].
      right. exists id'. split; [by right|done].
    + intros [H|(id' & Hin & Hr)]; apply Hcls; [by left|].
      apply elem_of_cons in Hin as [->|Hin]; [congruence|].
      right. by exists id'.
Qed.

Lemma applyLockedClasses_world ctx s w :
  let r := applyLockedClasses ctx s w in
  unmarked (dom r.2) = unmarked (dom w) ∧
  views r.2 = views w ∧ mostRecentLeaf r.2 = mostRecentLeaf w ∧
  canvasLeaves r.2 = canvasLeaves w ∧ hostCalls r.2 = hostCalls w.
Proof.
  cbv zeta. unfold applyLockedClasses.
  destruct (viewOf w (ctx_view ctx)) as [view|] eqn:Hv; [|done].
  set (els := querySelectorAll (dom w) (containerEl view) SelCanvasNode).
  set (w1 := set_dom (fold_left (λ d node, removeClass "lc-locked" node d) els (dom w)) w).
  destruct (markLocked_marker (ctx_view ctx) view (lockedIdsOf s (canvasPath ctx)) s w1 Hv)
    as (Hu & Hvs & Hm & Hl & Hc & _).
  rewrite Hu, Hvs, Hm, Hl, Hc. split; [|done].
  apply (cleared_marker els (dom w)).
Qed.



Lemma unlock_selected_unlocks_and_forgets_witness :
  let r := unlockSelectedCards false Fixture.mgr2 Fixture.worldL in
  r.1 = true ∧ isLocked r.2.1 "a.canvas" "n1" = false ∧
  snapshotsAt r.2.1 "a.canvas" "n3" = (None, None, None).
Proof.
  assert (Hctx : getActiveCanvasContext Fixture.worldL = Some Fixture.ctxA)
    by (vm_compute; reflexivity).
  assert (Hne : getSelectedNodeIds Fixture.worldL Fixture.ctxA ≠ [])
    by (vm_compute; discriminate).
  destruct (unlock_selected_unlocks_and_forgets Fixture.mgr2 Fixture.worldL
              Fixture.ctxA Hctx Hne) as [H1 H2].
  cbv zeta. split; [exact H1|].
  split; [rewrite (proj1 (H2 "a.canvas" "n1")); vm_compute; reflexivity|].
  rewrite (proj2 (H2 "a.canvas" "n3")). vm_compute. reflexivity.
Defined.


(** ** The toggle command, once more *)

Lemma snapshot_fold w ctx view ids s p i :
  viewOf w (ctx_view ctx) = Some view →
  let s' := fold_left (λ acc id, snapshotOnLock w ctx id acc) ids s in
  lockedByCanvas s' = lockedByCanvas s ∧
  snapshotsAt s' p i
  = if bool_decide (p = canvasPath ctx ∧ i ∈ ids)
    then retaken (dom w) view i (snapshotsAt s p i) else snapshotsAt s p i.
Proof.
  intros Hv. cbv zeta. revert s. induction ids as [|y ids IH]; intros s.
  { simpl. rewrite bool_decide_eq_false_2; [done|].
    intros [_ H]. by apply elem_of_nil in H. }
  cbn [fold_left]. destruct (IH (snapshotOnLock w ctx y s)) as [-> ->].
  split; [apply lockedByCanvas_snapshotOnLock|].
  rewrite (snapshotsAt_snapshotOnLock w ctx view) by done.
  destruct (decide (p = canvasPath ctx)) as [->|Hp]; [|by decide_all].
  destruct (decide (i = y)) as [->|Hi].
  - destruct (decide (y ∈ ids)); decide_all; by rewrite ?retaken_twice.
  - destruct (decide (i ∈ ids)); by decide_all.
Qed.

Lemma forget_fold path ids s p i :
  let s' := fold_left (λ acc id, forgetOnUnlock path id acc) ids s in
  lockedByCanvas s' = lockedByCanvas s ∧
  snapshotsAt s' p i
  = if bool_decide (p = path ∧ i ∈ ids) then (None, None, None)
    else snapshotsAt s p i.
Proof.
  cbv zeta. revert s. induction ids as [|y ids IH]; intros s.
  { simpl. rewrite bool_decide_eq_false_2; [done|].
    intros [_ H]. by apply elem_of_nil in H. }
  cbn [fold_left]. destruct (IH (forgetOnUnlock path y s)) as [-> ->].
  split; [apply forgetOnUnlock_lockedByCanvas|].
  rewrite snapshotsAt_forgetOnUnlock.
  destruct (decide (p = path)) as [->|Hp]; [|by decide_all].
  destruct (decide (i = y)) as [->|Hi].
  - destruct (decide (y ∈ ids)); by decide_all.
  - destruct (decide (i ∈ ids)); by decide_all.
Qed.

Lemma existsb_pointwise {A} (f g : A → bool) l :
  (∀ x, f x = g x) → existsb f l = existsb g l.
Proof. intros H. induction l as [|y l IH]; [done|]. simpl. by rewrite H, IH. Qed.

(** What the toggle command leaves in the store, [b] being the state it
    gives the selection. *)
Lemma toggle_effect s w ctx view p i :
  getActiveCanvasContext w = Some ctx →
  viewOf w (ctx_view ctx) = Some view →
  getSelectedNodeIds w ctx ≠ [] →
  let sel := getSelectedNodeIds w ctx in
  let b := existsb (λ id, negb (isLocked s (canvasPath ctx) id)) sel in
  let r := toggleLockSelectedCards false s w in
  isLocked r.2.1 p i
  = (if bool_decide (p = canvasPath ctx ∧ i ∈ sel) then b else isLocked s p i) ∧
  snapshotsAt r.2.1 p i
  = (if bool_decide (p = canvasPath ctx ∧ i ∈ sel)
     then if b then retaken (dom w) view i (snapshotsAt s p i) else (None, None, None)
     else snapshotsAt s p i).
Proof.
  intros Hctx Hv Hsel sel b r. subst r.
  rewrite (toggleLockSelectedCards_run s w ctx) by done. cbv zeta. cbn [fst snd].
  fold sel.
  pose proof (lockStore_ensureGuardAttached ctx s) as Hg.
  assert (existsb (λ id, negb (isLocked (ensureGuardAttached ctx s) (canvasPath ctx) id)) sel
          = b) as ->.
  { subst b. apply existsb_pointwise. intros id.
    by rewrite (lockStore_isLocked _ _ (canvasPath ctx) id Hg). }
  set (s2 := fold_left (λ acc id, setLocked (canvasPath ctx) id b acc) sel
                       (ensureGuardAttached ctx s)).
  assert (Hl2 : isLocked s2 p i
                = if bool_decide (p = canvasPath ctx ∧ i ∈ sel) then b else isLocked s p i).
  { subst s2. rewrite isLocked_setLocked_fold.
    by rewrite (lockStore_isLocked _ _ p i Hg). }
  assert (Hs2 : snapshotsAt s2 p i = snapshotsAt s p i).
  { rewrite <- (lockStore_snapshotsAt _ _ p i Hg). subst s2.
    apply (fold_left_preserve _
             (λ a, snapshotsAt a p i = snapshotsAt (ensureGuardAttached ctx s) p i));
      [done|]. intros a y Ha. by rewrite snapshotsAt_setLocked. }
  match goal with
  | |- context [applyLockedClasses ctx ?s3 w] =>
      pose proof (lockStore_applyLockedClasses ctx s3 w) as Hst;
      rewrite (lockStore_isLocked _ _ p i Hst), (lockStore_snapshotsAt _ _ p i Hst)
  end.
  destruct b.
  - destruct (snapshot_fold w ctx view sel s2 p i Hv) as [Hl Hs].
    rewrite (isLocked_lockedByCanvas _ _ p i Hl), Hs, Hl2, Hs2. done.
  - destruct (forget_fold (canvasPath ctx) sel s2 p i) as [Hl Hs].
    rewrite (isLocked_lockedByCanvas _ _ p i Hl), Hs, Hl2, Hs2. done.
Qed.

Lemma getActiveCanvasContext_ext w w' :
  views w' = views w → mostRecentLeaf w' = mostRecentLeaf w →
  canvasLeaves w' = canvasLeaves w →
  getActiveCanvasContext w' = getActiveCanvasContext w.
Proof. unfold getActiveCanvasContext, viewOf. by intros -> -> ->. Qed.

Lemma getSelectedNodeIds_ext w w' ctx :
  views w' = views w → getSelectedNodeIds w' ctx = getSelectedNodeIds w ctx.
Proof. unfold getSelectedNodeIds, viewOf. by intros ->. Qed.

Lemma lockedByCanvas_setLocked_fold_ext path ids locked : ∀ s s',
  lockedByCanvas s = lockedByCanvas s' →
  lockedByCanvas (fold_left (λ acc x, setLocked path x locked acc) ids s)
  = lockedByCanvas (fold_left (λ acc x, setLocked path x locked acc) ids s').
Proof.
  induction ids as [|y ids IH]; intros s s' H; [done|]. cbn [fold_left].
  apply IH. unfold setLocked, lockedIdsOf. simpl. by rewrite H.
Qed.

Lemma lockedIdsOf_setLocked_fold_ne path ids locked s p :
  p ≠ path →
  lockedIdsOf (fold_left (λ acc x, setLocked path x locked acc) ids s) p
  = lockedIdsOf s p.
Proof.
  intros Hp. apply (fold_left_preserve _ (λ a, lockedIdsOf a p = lockedIdsOf s p));
    [done|]. intros a y Ha. by rewrite lockedIdsOf_setLocked_ne.
Qed.

Lemma lock_fold_array path ids : ∀ s,
  NoDup (lockedIdsOf s path) →
  ∃ l', lockedIdsOf (fold_left (λ acc x, setLocked path x true acc) ids s) path
        = lockedIdsOf s path ++ l' ∧
        (∀ x, x ∈ l' → x ∈ ids).
Proof.
  induction ids as [|y ids IH]; intros s Hnd.
  { exists []. split; [by rewrite app_nil_r|]. by intros x H%elem_of_nil. }
  cbn [fold_left].
  assert (Hnd' : NoDup (lockedIdsOf (setLocked path y true s) path))
    by apply setLocked_NoDup.
  destruct (IH _ Hnd') as (l' & Heq & Hin). rewrite Heq.
  rewrite lockedIdsOf_setLocked, newSet_NoDup by done.
  unfold set_add. case_bool_decide.
  - exists l'. split; [done|]. intros x Hx. right. by apply Hin.
  - exists (y :: l'). rewrite <- app_assoc. split; [done|].
    intros x [->|Hx]%elem_of_cons; [by left|right; by apply Hin].
Qed.

Lemma unlock_fold_array path ids : ∀ s,
  NoDup (lockedIdsOf s path) →
  lockedIdsOf (fold_left (λ acc x, setLocked path x false acc) ids s) path
  = filter (λ x, x ∉ ids) (lockedIdsOf s path).
Proof.
  induction ids as [|y ids IH]; intros s Hnd.
  { simpl. symmetry. induction (lockedIdsOf s path) as [|x l IHl]; [done|].
    rewrite filter_cons, decide_True by apply not_elem_of_nil.
    apply NoDup_cons in Hnd as [_ Hnd]. by rewrite IHl. }
  cbn [fold_left]. rewrite IH by apply setLocked_NoDup.
  rewrite lockedIdsOf_setLocked, newSet_NoDup by done.
  unfold set_delete. rewrite list_filter_filter.
  apply list_filter_iff. intros x. rewrite not_elem_of_cons. naive_solver.
Qed.

Lemma filter_all {A} (P : A → Prop) `{!∀ x, Decision (P x)} (l : list A) :
  (∀ x, x ∈ l → P x) → filter P l = l.
Proof.
  induction l as [|x l IH]; intros Hall; [done|].
  rewrite filter_cons, decide_True by (apply Hall; by left).
  rewrite IH; [done|]. intros y Hy. apply Hall. by right.
Qed.

Lemma filter_none {A} (P : A → Prop) `{!∀ x, Decision (P x)} (l : list A) :
  (∀ x, x ∈ l → ¬ P x) → filter P l = [].
Proof.
  induction l as [|x l IH]; intros Hall; [done|].
  rewrite filter_cons, decide_False by (apply Hall; by left).
  apply IH. intros y Hy. apply Hall. by right.
Qed.

(** The array of locked ids the toggle command leaves. *)
Lemma toggle_lockedIds s w ctx p :
  getActiveCanvasContext w = Some ctx →
  getSelectedNodeIds w ctx ≠ [] →
  lockedIdsOf (toggleLockSelectedCards false s w).2.1 p
  = lockedIdsOf
      (fold_left
         (λ acc id, setLocked (canvasPath ctx) id
                      (existsb (λ id, negb (isLocked s (canvasPath ctx) id))
                               (getSelectedNodeIds w ctx)) acc)
         (getSelectedNodeIds w ctx) s) p.
Proof.
  intros Hctx Hsel.
  rewrite (toggleLockSelectedCards_run s w ctx) by done. cbv zeta. cbn [fst snd].
  pose proof (lockStore_ensureGuardAttached ctx s) as Hg.
  rewrite (existsb_pointwise
             (λ id, negb (isLocked (ensureGuardAttached ctx s) (canvasPath ctx) id))
             (λ id, negb (isLocked s (canvasPath ctx) id)))
    by (intros id; by rewrite (lockStore_isLocked _ _ (canvasPath ctx) id Hg)).
  set (b := existsb _ _).
  match goal with
  | |- context [applyLockedClasses ctx ?s3 w] =>
      pose proof (lockStore_applyLockedClasses ctx s3 w) as Hst
  end.
  unfold lockedIdsOf.
  assert (∀ a a', lockStore a' = lockStore a → lockedByCanvas a' = lockedByCanvas a)
    as Hlb by (unfold lockStore; intros a a' H; by injection H).
  rewrite (Hlb _ _ Hst).
  transitivity (default [] (lockedByCanvas
     (fold_left (λ acc id, setLocked (canvasPath ctx) id b acc)
                (getSelectedNodeIds w ctx) (ensureGuardAttached ctx s)) !! p)).
  - f_equal. f_equal. destruct b.
    + apply (fold_left_preserve _ (λ a, lockedByCanvas a = lockedByCanvas _)); [done|].
      intros a y Ha. by rewrite lockedByCanvas_snapshotOnLock.
    + apply (fold_left_preserve _ (λ a, lockedByCanvas a = lockedByCanvas _)); [done|].
      intros a y Ha. by rewrite forgetOnUnlock_lockedByCanvas.
  - f_equal. f_equal. apply lockedByCanvas_setLocked_fold_ext. by apply Hlb.
Qed.

(** X7.  Toggling twice gives back what was there: when no node of the
    selection is locked and the stored array of the canvas has no
    duplicate, the first run of the toggle command locks the selection and
    a second run on the same selection leaves every canvas with the array
    of locked ids it had, the ids in their places, and the selected nodes
    without a snapshot; the snapshots of the other nodes are untouched. *)
Theorem toggle_twice_restores (s : Manager) (w : World) (ctx : CanvasContext) :
  getActiveCanvasContext w = Some ctx →
  getSelectedNodeIds w ctx ≠ [] →
  NoDup (lockedIdsOf s (canvasPath ctx)) →
  (∀ i, i ∈ getSelectedNodeIds w ctx → isLocked s (canvasPath ctx) i = false) →
  let r1 := toggleLockSelectedCards false s w in
  let r2 := toggleLockSelectedCards false r1.2.1 r1.2.2 in
  (∀ i, i ∈ getSelectedNodeIds w ctx → isLocked r1.2.1 (canvasPath ctx) i = true) ∧
  (∀ p, lockedIdsOf r2.2.1 p = lockedIdsOf s p) ∧
  (∀ p i, snapshotsAt r2.2.1 p i
          = if bool_decide (p = canvasPath ctx ∧ i ∈ getSelectedNodeIds w ctx)
            then (None, None, None) else snapshotsAt s p i).
Proof.
  intros Hctx Hsel Hnd Hun r1 r2.
  destruct (getActiveCanvasContext_view w ctx Hctx) as [view Hv].
  set (sel := getSelectedNodeIds w ctx) in *.
  (* the first run locks *)
  assert (Hb1 : existsb (λ id, negb (isLocked s (canvasPath ctx) id)) sel = true).
  { destruct sel as [|y l] eqn:E; [done|]. simpl.
    rewrite (Hun y) by (by left). done. }
  assert (H1 : ∀ p i,
    isLocked r1.2.1 p i
    = (if bool_decide (p = canvasPath ctx ∧ i ∈ sel) then true else isLocked s p i) ∧
    snapshotsAt r1.2.1 p i
    = (if bool_decide (p = canvasPath ctx ∧ i ∈ sel)
       then retaken (dom w) view i (snapshotsAt s p i) else snapshotsAt s p i)).
  { intros p i. pose proof (toggle_effect s w ctx view p i Hctx Hv Hsel) as H.
    cbv zeta in H. fold sel in H. by rewrite Hb1 in H. }
  (* the host after the first run *)
  assert (Hw : views r1.2.2 = views w ∧ mostRecentLeaf r1.2.2 = mostRecentLeaf w ∧
               canvasLeaves r1.2.2 = canvasLeaves w).
  { subst r1. rewrite (toggleLockSelectedCards_run s w ctx) by done.
    cbv zeta. cbn [fst snd].
    match goal with
    | |- context [applyLockedClasses ctx ?s3 w] =>
        destruct (applyLockedClasses_world ctx s3 w) as (_ & ? & ? & ? & _)
    end. done. }
  destruct Hw as (Hvs & Hm & Hl).
  assert (Hctx2 : getActiveCanvasContext r1.2.2 = Some ctx)
    by (by rewrite (getActiveCanvasContext_ext w r1.2.2)).
  assert (Hsel2 : getSelectedNodeIds r1.2.2 ctx = sel)
    by (by rewrite (getSelectedNodeIds_ext w r1.2.2)).
  assert (Hv2 : viewOf r1.2.2 (ctx_view ctx) = Some view)
    by (unfold viewOf in *; by rewrite Hvs).
  assert (Hne2 : getSelectedNodeIds r1.2.2 ctx ≠ []) by (by rewrite Hsel2).
  (* the second run unlocks *)
  assert (Hb2 : existsb (λ id, negb (isLocked r1.2.1 (canvasPath ctx) id)) sel = false).
  { apply not_true_is_false. intros (x & Hx & Hlk)%existsb_exists.
    apply list_elem_of_In in Hx.
    rewrite (proj1 (H1 (canvasPath ctx) x)) in Hlk.
    by rewrite bool_decide_eq_true_2 in Hlk. }
  split; [|split].
  - intros i Hi. rewrite (proj1 (H1 (canvasPath ctx) i)).
    by rewrite bool_decide_eq_true_2.
  - intros p. subst r2. rewrite (toggle_lockedIds r1.2.1 r1.2.2 ctx p) by done.
    rewrite Hsel2, Hb2.
    destruct (decide (p = canvasPath ctx)) as [->|Hp].
    + assert (Hr1 : lockedIdsOf r1.2.1 (canvasPath ctx)
                    = lockedIdsOf
                        (fold_left (λ acc id, setLocked (canvasPath ctx) id true acc)
                                   sel s) (canvasPath ctx)).
      { subst r1. rewrite (toggle_lockedIds s w ctx) by done. fold sel.
        by rewrite Hb1. }
      destruct (lock_fold_array (canvasPath ctx) sel s Hnd) as (l' & Hl' & Hin).
      rewrite unlock_fold_array.
      * rewrite Hr1, Hl', filter_app.
        rewrite (filter_all (λ x, x ∉ sel) (lockedIdsOf s (canvasPath ctx))).
        -- rewrite (filter_none (λ x, x ∉ sel) l'); [by rewrite app_nil_r|].
           intros x Hx Hn. apply Hn. by apply Hin.
        -- intros x Hx Hs. specialize (Hun x Hs).
           apply bool_decide_eq_false in Hun. done.
      * rewrite Hr1.
        apply (fold_left_preserve _ (λ a, NoDup (lockedIdsOf a (canvasPath ctx))));
          [done|]. intros a y _. apply setLocked_NoDup.
    + rewrite lockedIdsOf_setLocked_fold_ne by done.
      subst r1. rewrite (toggle_lockedIds s w ctx) by done.
      by rewrite lockedIdsOf_setLocked_fold_ne.
  - intros p i. subst r2.
    pose proof (toggle_effect r1.2.1 r1.2.2 ctx view p i Hctx2 Hv2 Hne2) as H.
    cbv zeta in H. rewrite Hsel2, Hb2 in H. rewrite (proj2 H).
    rewrite (proj2 (H1 p i)). by case_bool_decide.
Qed.

Lemma toggle_twice_restores_witness :
  let r1 := toggleLockSelectedCards false Fixture.mgr0 Fixture.worldA in
  let r2 := toggleLockSelectedCards false r1.2.1 r1.2.2 in
  lockedIdsOf r2.2.1 "a.canvas" = lockedIdsOf Fixture.mgr0 "a.canvas".
Proof.
  assert (Hctx : getActiveCanvasContext Fixture.worldA = Some Fixture.ctxA)
    by (vm_compute; reflexivity).
  assert (Hsel : getSelectedNodeIds Fixture.worldA Fixture.ctxA = ["n1"; "n3"])
    by (vm_compute; reflexivity).
  assert (Hne : getSelectedNodeIds Fixture.worldA Fixture.ctxA ≠ [])
    by (rewrite Hsel; discriminate).
  assert (Hnd : NoDup (lockedIdsOf Fixture.mgr0 (canvasPath Fixture.ctxA)))
    by (vm_compute; constructor).
  assert (Hun : ∀ i, i ∈ getSelectedNodeIds Fixture.worldA Fixture.ctxA →
                     isLocked Fixture.mgr0 (canvasPath Fixture.ctxA) i = false).
  { intros i _. apply bool_decide_eq_false_2. vm_compute. apply not_elem_of_nil. }
  destruct (toggle_twice_restores Fixture.mgr0 Fixture.worldA Fixture.ctxA
              Hctx Hne Hnd Hun) as (_ & H & _).
  apply (H "a.canvas").
Defined.

(** ** What the detectors leave alone *)

Lemma lockStore_shouldThrottleRestore path nodeId now s :
  lockStore (shouldThrottleRestore path nodeId now s).2 = lockStore s.
Proof. unfold shouldThrottleRestore. cbv zeta. by case_bool_decide. Qed.

Lemma lockStore_observeRecord css path v s w pending rec :
  lockStore (observeRecord css path v (s, w, pending) rec).1.1 = lockStore s.
Proof.
  unfold observeRecord. destruct rec as [m now].
  repeat case_match; simplify_eq; cbn [fst snd]; try done;
    match goal with
    | H : shouldThrottleRestore ?p ?n ?t ?a = (_, ?s2) |- lockStore ?s2 = _ =>
        pose proof (lockStore_shouldThrottleRestore p n t a) as Hs;
        rewrite H in Hs; cbn [snd] in Hs; by rewrite Hs
    end.
Qed.

Lemma lockStore_observerCallback css path batch s w :
  lockStore (observerCallback css path batch s w).1.1 = lockStore s.
Proof.
  unfold observerCallback. destruct (shouldBypass s); [done|].
  destruct (observedView s) as [v|]; [|done].
  apply (fold_left_preserve (observeRecord css path v)
           (λ st, lockStore st.1.1 = lockStore s)); [done|].
  intros [[a wa] pa] rec Ha. cbn [fst] in Ha.
  by rewrite lockStore_observeRecord.
Qed.

Lemma lockStore_deliverMutations css batch s w :
  lockStore (deliverMutations css batch s w).1 = lockStore s.
Proof.
  unfold deliverMutations. destruct (observer s) as [path|]; [|done].
  pose proof (lockStore_observerCallback css path batch s w) as H.
  destruct (observerCallback css path batch s w) as [[s1 w1] pending].
  cbn [fst snd] in *. by rewrite <- H.
Qed.

Lemma lockStore_tick css now s w :
  lockStore (tick css now s w).1 = lockStore s.
Proof.
  unfold tick. destruct (enforcing s); [|done]. cbn [negb].
  pose proof (lockStore_sameButCaches _ _
                (enforceLockedNodesOnce_sameButCaches css s w)) as H.
  destruct (shouldBypass s); cbn [negb].
  - by case_match.
  - destruct (enforceLockedNodesOnce css s w) as [s1 w1]. cbn [fst] in H.
    by case_match.
Qed.

(** X8.  Neither detector ever locks or unlocks a node, takes or drops a
    snapshot, or changes a setting: a frame of the enforcement loop and a
    delivery of mutation records both leave the locked ids, the three
    snapshot stores and the settings as they were, and with them what
    [isLocked] answers. *)
Theorem detectors_keep_locks_and_snapshots (css : CssEngine) (now : Z)
    (batch : list (MutationRecord * Z)) (s : Manager) (w : World) :
  let s1 := (tick css now s w).1 in
  let s2 := (deliverMutations css batch s w).1 in
  lockStore s1 = lockStore s ∧ lockStore s2 = lockStore s ∧
  ∀ p i, isLocked s1 p i = isLocked s p i ∧ isLocked s2 p i = isLocked s p i ∧
         snapshotsAt s1 p i = snapshotsAt s p i ∧
         snapshotsAt s2 p i = snapshotsAt s p i.
Proof.
  intros s1 s2.
  assert (H1 : lockStore s1 = lockStore s) by apply lockStore_tick.
  assert (H2 : lockStore s2 = lockStore s) by apply lockStore_deliverMutations.
  split; [done|]. split; [done|]. intros p i.
  rewrite (lockStore_isLocked _ _ p i H1), (lockStore_isLocked _ _ p i H2).
  by rewrite (lockStore_snapshotsAt _ _ p i H1), (lockStore_snapshotsAt _ _ p i H2).
Qed.

(** ** Priming the snapshots of a canvas *)

Lemma snapshotsAt_snapshotLockedNodeStyle d path nodeId el s p i :
  snapshotsAt (snapshotLockedNodeStyle d path nodeId el s) p i
  = if bool_decide (p = path ∧ i = nodeId)
    then (Some (default "" (getStyle d el)), (snapshotsAt s p i).1.2,
          (snapshotsAt s p i).2)
    else snapshotsAt s p i.
Proof.
  unfold snapshotsAt, snapshotLockedNodeStyle, savedStyleOf, savedMoveStyleOf,
    savedModelOf. simpl. rewrite lookup_snapshot_any. by case_bool_decide.
Qed.

Lemma snapshotsAt_snapshotLockedNodeModel w ctx view nodeId s p i :
  viewOf w (ctx_view ctx) = Some view →
  snapshotsAt (snapshotLockedNodeModel w ctx nodeId s) p i
  = if bool_decide (p = canvasPath ctx ∧ i = nodeId)
    then ((snapshotsAt s p i).1.1, (snapshotsAt s p i).1.2,
          or_else (readModelSnapshot view nodeId) (snapshotsAt s p i).2)
    else snapshotsAt s p i.
Proof.
  intros Hv. unfold snapshotLockedNodeModel. rewrite Hv.
  destruct (readModelSnapshot view nodeId) as [snap|]; [|by case_bool_decide].
  unfold snapshotsAt, savedStyleOf, savedMoveStyleOf, savedModelOf. simpl.
  rewrite lookup_snapshot_any. by case_bool_decide.
Qed.

Lemma lockedByCanvas_snapshotLockedNodeModel w ctx nodeId s :
  lockedByCanvas (snapshotLockedNodeModel w ctx nodeId s) = lockedByCanvas s.
Proof. unfold snapshotLockedNodeModel. by repeat case_match. Qed.

Lemma primed_twice d view nodeId old :
  primed d view nodeId (primed d view nodeId old) = primed d view nodeId old.
Proof.
  unfold primed. destruct old as [[st mv] md]. cbn [fst snd].
  by destruct st, md, (resolveNodeEl d view nodeId), (readModelSnapshot view nodeId).
Qed.

(** One round of the loop of [primeLockedSnapshots]. *)
Lemma prime_step w ctx view id acc p i :
  viewOf w (ctx_view ctx) = Some view →
  let acc1 :=
    match savedStyleOf acc (canvasPath ctx) id with
    | None =>
        match resolveNodeElById w (ctx_view ctx) id acc with
        | (Some el, a) => snapshotLockedNodeStyle (dom w) (canvasPath ctx) id el a
        | (None, a) => a
        end
    | Some _ => acc
    end in
  let acc2 :=
    match savedModelOf acc1 (canvasPath ctx) id with
    | None => snapshotLockedNodeModel w ctx id acc1
    | Some _ => acc1
    end in
  lockedByCanvas acc2 = lockedByCanvas acc ∧
  snapshotsAt acc2 p i
  = if bool_decide (p = canvasPath ctx ∧ i = id)
    then primed (dom w) view id (snapshotsAt acc p i)
    else snapshotsAt acc p i.
Proof.
  intros Hv acc1 acc2.
  assert (H1 : lockedByCanvas acc1 = lockedByCanvas acc ∧
               snapshotsAt acc1 p i
               = if bool_decide (p = canvasPath ctx ∧ i = id)
                 then (or_else (savedStyleOf acc p i)
                         ((λ el, default "" (getStyle (dom w) el))
                            <$> resolveNodeEl (dom w) view id),
                       savedMoveStyleOf acc p i, savedModelOf acc p i)
                 else snapshotsAt acc p i).
  { subst acc1. unfold resolveNodeElById. rewrite Hv.
    destruct (savedStyleOf acc (canvasPath ctx) id) as [x|] eqn:E.
    - split; [done|]. case_bool_decide as Hpi; [|done].
      destruct Hpi as [-> ->]. unfold snapshotsAt. by rewrite E.
    - destruct (resolveNodeEl (dom w) view id) as [el|].
      + split; [done|]. rewrite snapshotsAt_snapshotLockedNodeStyle.
        case_bool_decide as Hpi; [|done]. destruct Hpi as [-> ->].
        unfold snapshotsAt. by rewrite E.
      + split; [done|]. case_bool_decide as Hpi; [|done].
        destruct Hpi as [-> ->]. unfold snapshotsAt. by rewrite E. }
  destruct H1 as [Hl1 Hs1]. subst acc2.
  destruct (savedModelOf acc1 (canvasPath ctx) id) as [m|] eqn:E.
  - split; [done|]. rewrite Hs1. case_bool_decide as Hpi; [|done].
    destruct Hpi as [-> ->]. unfold primed. cbn [fst snd].
    assert (savedModelOf acc (canvasPath ctx) id = Some m) as Hm.
    { pose proof (f_equal snd Hs1) as H. cbn [snd snapshotsAt] in H. congruence. }
    unfold snapshotsAt. cbn [fst snd]. by rewrite Hm.
  - split; [by rewrite lockedByCanvas_snapshotLockedNodeModel|].
    rewrite (snapshotsAt_snapshotLockedNodeModel w ctx view) by done.
    rewrite Hs1. case_bool_decide as Hpi; [|done].
    destruct Hpi as [-> ->]. unfold primed. cbn [fst snd].
    assert (savedModelOf acc (canvasPath ctx) id = None) as Hm.
    { pose proof (f_equal snd Hs1) as H. cbn [snd snapshotsAt] in H. congruence. }
    unfold snapshotsAt. cbn [fst snd]. rewrite Hm.
    by destruct (readModelSnapshot view id).
Qed.

(** What [primeLockedSnapshots] leaves in the store. *)
Lemma prime_effect ctx s w view p i :
  viewOf w (ctx_view ctx) = Some view →
  let s' := primeLockedSnapshots ctx s w in
  lockedByCanvas s' = lockedByCanvas s ∧
  snapshotsAt s' p i
  = if bool_decide (p = canvasPath ctx ∧ i ∈ lockedIdsOf s (canvasPath ctx))
    then primed (dom w) view i (snapshotsAt s p i)
    else snapshotsAt s p i.
Proof.
  intros Hv. cbv zeta. unfold primeLockedSnapshots.
  generalize (lockedIdsOf s (canvasPath ctx)). intros ids.
  revert s. induction ids as [|y ids IH]; intros s.
  { simpl. rewrite bool_decide_eq_false_2; [done|].
    intros [_ H]. by apply elem_of_nil in H. }
  cbn [fold_left].
  destruct (prime_step w ctx view y s p i Hv) as [Hl Hs]. cbv zeta in Hl, Hs.
  match goal with
  | |- context [fold_left ?f ids ?a] => destruct (IH a) as [-> ->]
  end.
  split; [exact Hl|]. rewrite Hs.
  destruct (decide (p = canvasPath ctx)) as [->|Hp]; [|by decide_all].
  destruct (decide (i = y)) as [->|Hi].
  - destruct (decide (y ∈ ids)); decide_all; by rewrite ?primed_twice.
  - destruct (decide (i ∈ ids)); by decide_all.
Qed.



(** ** Snapshots are kept for locked nodes only *)

Lemma snapshotsOfLocked_same s s' :
  (∀ p i, isLocked s' p i = isLocked s p i ∧ snapshotsAt s' p i = snapshotsAt s p i) →
  snapshotsOfLocked s → snapshotsOfLocked s'.
Proof.
  intros Hsame Hinv p i. rewrite hasSnapshot_snapshotsAt.
  destruct (Hsame p i) as [-> ->]. rewrite <- hasSnapshot_snapshotsAt. apply Hinv.
Qed.

Lemma snapshotsOfLocked_lockStore s s' :
  lockStore s' = lockStore s → snapshotsOfLocked s → snapshotsOfLocked s'.
Proof.
  intros H. apply snapshotsOfLocked_same. intros p i.
  by rewrite (lockStore_isLocked _ _ p i H), (lockStore_snapshotsAt _ _ p i H).
Qed.

Lemma snapshotsOfLocked_init locked st : snapshotsOfLocked (initManager locked st).
Proof.
  intros p i [H|[H|H]]; destruct H as [x H];
    unfold savedStyleOf, savedMoveStyleOf, savedModelOf in H; simpl in H;
    by rewrite lookup_empty in H.
Qed.

Lemma snapshotsOfLocked_toggle s w :
  snapshotsOfLocked s → snapshotsOfLocked (toggleLockSelectedCards false s w).2.1.
Proof.
  intros Hinv.
  destruct (getActiveCanvasContext w) as [ctx|] eqn:Hctx;
    [|unfold toggleLockSelectedCards; by rewrite Hctx].
  destruct (getActiveCanvasContext_view w ctx Hctx) as [view Hv].
  destruct (decide (getSelectedNodeIds w ctx = [])) as [Hsel|Hsel].
  { unfold toggleLockSelectedCards. rewrite Hctx, Hsel. done. }
  intros p i. rewrite hasSnapshot_snapshotsAt.
  destruct (toggle_effect s w ctx view p i Hctx Hv Hsel) as [-> ->].
  case_bool_decide.
  - by destruct (existsb _ _).
  - rewrite <- hasSnapshot_snapshotsAt. apply Hinv.
Qed.

Lemma snapshotsOfLocked_lockSelected s w :
  snapshotsOfLocked s → snapshotsOfLocked (lockSelectedCards false s w).2.1.
Proof.
  intros Hinv.
  destruct (getActiveCanvasContext w) as [ctx|] eqn:Hctx;
    [|unfold lockSelectedCards; by rewrite Hctx].
  destruct (getActiveCanvasContext_view w ctx Hctx) as [view Hv].
  destruct (decide (getSelectedNodeIds w ctx = [])) as [Hsel|Hsel].
  { unfold lockSelectedCards. rewrite Hctx, Hsel. done. }
  rewrite (lockSelectedCards_run s w ctx) by done. cbn [fst snd].
  eapply snapshotsOfLocked_lockStore; [apply lockStore_applyLockedClasses|].
  intros p i. rewrite hasSnapshot_snapshotsAt.
  destruct (lock_fold w ctx view (getSelectedNodeIds w ctx)
              (ensureGuardAttached ctx s) p i Hv) as [-> ->].
  pose proof (lockStore_ensureGuardAttached ctx s) as Hg.
  rewrite (lockStore_isLocked _ _ p i Hg), (lockStore_snapshotsAt _ _ p i Hg).
  case_bool_decide; [by rewrite orb_true_r|].
  rewrite orb_false_r, <- hasSnapshot_snapshotsAt. apply Hinv.
Qed.

Lemma snapshotsOfLocked_unlockSelected s w :
  snapshotsOfLocked s → snapshotsOfLocked (unlockSelectedCards false s w).2.1.
Proof.
  intros Hinv.
  destruct (getActiveCanvasContext w) as [ctx|] eqn:Hctx;
    [|unfold unlockSelectedCards; by rewrite Hctx].
  destruct (decide (getSelectedNodeIds w ctx = [])) as [Hsel|Hsel].
  { unfold unlockSelectedCards. rewrite Hctx, Hsel. done. }
  rewrite (unlockSelectedCards_run s w ctx) by done. cbn [fst snd].
  eapply snapshotsOfLocked_lockStore; [apply lockStore_applyLockedClasses|].
  intros p i. rewrite hasSnapshot_snapshotsAt.
  destruct (unlock_fold (canvasPath ctx) (getSelectedNodeIds w ctx)
              (ensureGuardAttached ctx s) p i) as [-> ->].
  pose proof (lockStore_ensureGuardAttached ctx s) as Hg.
  rewrite (lockStore_isLocked _ _ p i Hg), (lockStore_snapshotsAt _ _ p i Hg).
  case_bool_decide; [done|].
  rewrite andb_true_r, <- hasSnapshot_snapshotsAt. apply Hinv.
Qed.

Lemma snapshotsOfLocked_unlockAll ctx s w :
  snapshotsOfLocked s → snapshotsOfLocked (unlockAllInCanvas ctx s w).2.1.
Proof.
  intros Hinv.
  destruct (decide (lockedIdsOf s (canvasPath ctx) = [])) as [Hnil|Hne].
  { by rewrite unlockAllInCanvas_none. }
  rewrite unlockAllInCanvas_some by done. cbn [fst snd].
  eapply snapshotsOfLocked_lockStore; [apply lockStore_applyLockedClasses|].
  set (ids := lockedIdsOf s (canvasPath ctx)).
  intros p i. rewrite hasSnapshot_snapshotsAt.
  destruct (forget_fold (canvasPath ctx) ids s p i) as [Hl Hs].
  cbv zeta in Hl, Hs.
  change (snapshotsAt (set_lockedByCanvas ?x ?a) p i) with (snapshotsAt a p i).
  rewrite Hs. case_bool_decide as Hpi; [done|].
  rewrite <- hasSnapshot_snapshotsAt. intros Hsnap.
  specialize (Hinv p i Hsnap).
  destruct (decide (p = canvasPath ctx)) as [->|Hp].
  - exfalso. apply Hpi. split; [done|]. by apply bool_decide_eq_true in Hinv.
  - unfold isLocked, lockedIdsOf in *. simpl.
    rewrite lookup_insert_ne by done. by rewrite Hl.
Qed.

Lemma snapshotsOfLocked_leafChange s w :
  snapshotsOfLocked s → snapshotsOfLocked (onActiveLeafChange s w).1.
Proof.
  intros Hinv. unfold onActiveLeafChange.
  destruct (getActiveCanvasContext w) as [ctx|] eqn:Hctx; [|done].
  destruct (getActiveCanvasContext_view w ctx Hctx) as [view Hv].
  pose proof (lockStore_applyLockedClasses ctx (ensureGuardAttached ctx s) w) as Hst.
  destruct (applyLockedClasses_world ctx (ensureGuardAttached ctx s) w)
    as (_ & Hvs & _).
  destruct (applyLockedClasses ctx (ensureGuardAttached ctx s) w) as [s2 w2].
  cbn [fst snd] in *.
  assert (Hv2 : viewOf w2 (ctx_view ctx) = Some view)
    by (unfold viewOf in *; by rewrite Hvs).
  assert (Hinv2 : snapshotsOfLocked s2).
  { eapply snapshotsOfLocked_lockStore; [exact Hst|].
    eapply snapshotsOfLocked_lockStore; [apply lockStore_ensureGuardAttached|done]. }
  intros p i. rewrite hasSnapshot_snapshotsAt.
  destruct (prime_effect ctx s2 w2 view p i Hv2) as [Hl Hs]. cbv zeta in Hl, Hs.
  rewrite (isLocked_lockedByCanvas _ _ p i Hl), Hs.
  case_bool_decide as Hpi.
  - intros _. destruct Hpi as [-> Hin]. by apply bool_decide_eq_true_2.
  - rewrite <- hasSnapshot_snapshotsAt. apply Hinv2.
Qed.

Lemma lockStore_input_guard target pointerId key now s w :
  lockStore (InputGuard.onPointerDown target pointerId s w) = lockStore s ∧
  lockStore (InputGuard.onPointerUp now s) = lockStore s ∧
  lockStore (InputGuard.onKeyDown key now s) = lockStore s ∧
  lockStore (AltKeyTracking.onKeyDown key s) = lockStore s ∧
  lockStore (AltKeyTracking.onKeyUp key s) = lockStore s.
Proof.
  unfold InputGuard.onPointerDown, InputGuard.onPointerUp, InputGuard.onKeyDown,
    AltKeyTracking.onKeyDown, AltKeyTracking.onKeyUp, startEnforcementLoop.
  repeat split; repeat case_match; done.
Qed.

Lemma snapshotsOfLocked_step css st e :
  snapshotsOfLocked st.1 → snapshotsOfLocked (engineStep css st e).1.
Proof.
  destruct st as [s w]. cbn [fst]. intros Hinv.
  destruct e; cbn [engineStep fst snd].
  - by apply snapshotsOfLocked_toggle.
  - by apply snapshotsOfLocked_lockSelected.
  - by apply snapshotsOfLocked_unlockSelected.
  - unfold unlockAllCardsInActiveCanvas.
    destruct (getActiveCanvasContext w); [by apply snapshotsOfLocked_unlockAll|done].
  - by apply snapshotsOfLocked_leafChange.
  - revert Hinv. by apply snapshotsOfLocked_same.
  - revert Hinv. apply snapshotsOfLocked_lockStore.
    apply (lockStore_input_guard None 0 key 0 s w).
  - revert Hinv. apply snapshotsOfLocked_lockStore.
    apply (lockStore_input_guard None 0 key 0 s w).
  - revert Hinv. apply snapshotsOfLocked_lockStore.
    apply (lockStore_input_guard target pointerId "" 0 s w).
  - revert Hinv. apply snapshotsOfLocked_lockStore.
    apply (lockStore_input_guard None 0 "" now s w).
  - revert Hinv. apply snapshotsOfLocked_lockStore.
    apply (lockStore_input_guard None 0 key now s w).
  - revert Hinv. apply snapshotsOfLocked_lockStore, lockStore_tick.
  - revert Hinv. apply snapshotsOfLocked_lockStore, lockStore_deliverMutations.
  - done.
Qed.

(** X10.  Snapshots are kept for locked nodes only.  From the engine as
    the plugin creates it, whatever array of locked ids was loaded, and
    through any sequence of commands, leaf changes, settings changes,
    key and pointer events, frames and mutation deliveries, in whatever
    state the host is at each of them: a node that has an element-style, a
    move-element-style or a geometry snapshot is a locked node. *)
Theorem snapshots_only_for_locked_nodes (css : CssEngine)
    (locked : gmap string (list string)) (st : LockCardsSettings) (w : World)
    (es : list EngineEvent) (path nodeId : string) :
  let s' := (engineRun css es (initManager locked st, w)).1 in
  (is_Some (savedStyleOf s' path nodeId)
   ∨ is_Some (savedMoveStyleOf s' path nodeId)
   ∨ is_Some (savedModelOf s' path nodeId)) →
  isLocked s' path nodeId = true.
Proof.
  intros s'. subst s'. unfold engineRun.
  assert (snapshotsOfLocked
            (fold_left (engineStep css) es (initManager locked st, w)).1) as H.
  { apply (fold_left_preserve (engineStep css) (λ x, snapshotsOfLocked x.1)).
    - apply snapshotsOfLocked_init.
    - intros a e. apply snapshotsOfLocked_step. }
  apply H.
Qed.

Lemma snapshots_only_for_locked_nodes_witness :
  isLocked (engineRun Fixture.css0 [EToggle; ELeafChange; EFrame 5]
              (initManager ∅ DEFAULT_SETTINGS, Fixture.worldA)).1 "a.canvas" "n1"
  = true.
Proof.
  apply (snapshots_only_for_locked_nodes Fixture.css0 ∅ DEFAULT_SETTINGS
           Fixture.worldA [EToggle; ELeafChange; EFrame 5] "a.canvas" "n1").
  right. right. vm_compute. eauto.
Defined.

(** ** The input guard and the enforcement loop *)

Lemma loopState_sameButCaches s s' : sameButCaches s s' → loopState s' = loopState s.
Proof. intros ->. by destruct s. Qed.

Lemma loopState_setLocked path nodeId locked s :
  loopState (setLocked path nodeId locked s) = loopState s.
Proof. done. Qed.

Lemma loopState_forgetOnUnlock path nodeId s :
  loopState (forgetOnUnlock path nodeId s) = loopState s.
Proof.
  unfold forgetOnUnlock, forgetLockedNodeModel, forgetLockedMoveStyle,
    forgetLockedNodeStyle. by repeat case_match.
Qed.

Lemma loopState_snapshotLockedNodeModel w ctx nodeId s :
  loopState (snapshotLockedNodeModel w ctx nodeId s) = loopState s.
Proof. unfold snapshotLockedNodeModel. by repeat case_match. Qed.

Lemma loopState_snapshotOnLock w ctx nodeId s :
  loopState (snapshotOnLock w ctx nodeId s) = loopState s.
Proof.
  unfold snapshotOnLock, resolveNodeElById.
  repeat case_match; simplify_eq; try done;
    by rewrite loopState_snapshotLockedNodeModel.
Qed.

Lemma loopState_ensureGuardAttached ctx s :
  loopState (ensureGuardAttached ctx s) = loopState s.
Proof. unfold ensureGuardAttached, attachStyleGuardToCanvas. by case_match. Qed.

Lemma loopState_applyLockedClasses ctx s w :
  loopState (applyLockedClasses ctx s w).1 = loopState s.
Proof. apply loopState_sameButCaches, applyLockedClasses_sameButCaches. Qed.

Lemma loopState_primeLockedSnapshots ctx s w :
  loopState (primeLockedSnapshots ctx s w) = loopState s.
Proof.
  unfold primeLockedSnapshots.
  apply (fold_left_preserve _ (λ a, loopState a = loopState s)); [done|].
  intros a y Ha. rewrite <- Ha. unfold resolveNodeElById.
  repeat case_match; simplify_eq; try done;
    by rewrite ?loopState_snapshotLockedNodeModel.
Qed.

Lemma loopState_toggle s w :
  loopState (toggleLockSelectedCards false s w).2.1 = loopState s.
Proof.
  unfold toggleLockSelectedCards.
  destruct (getActiveCanvasContext w) as [ctx|]; [|done].
  case_bool_decide; [done|]. cbn [fst snd].
  rewrite loopState_applyLockedClasses.
  rewrite <- (loopState_ensureGuardAttached ctx s).
  match goal with
  | |- context [existsb ?f ?l] => generalize (existsb f l)
  end.
  intros b.
  apply (fold_left_preserve _
           (λ a, loopState a = loopState (ensureGuardAttached ctx s))).
  - apply (fold_left_preserve _
             (λ a, loopState a = loopState (ensureGuardAttached ctx s))); [done|].
    intros a y Ha. by rewrite loopState_setLocked.
  - intros a y Ha.
    destruct b; by rewrite ?loopState_snapshotOnLock, ?loopState_forgetOnUnlock.
Qed.

Lemma loopState_lockSelected s w :
  loopState (lockSelectedCards false s w).2.1 = loopState s.
Proof.
  unfold lockSelectedCards.
  destruct (getActiveCanvasContext w) as [ctx|]; [|done].
  case_bool_decide; [done|]. cbn [fst snd].
  rewrite loopState_applyLockedClasses.
  rewrite <- (loopState_ensureGuardAttached ctx s).
  apply (fold_left_preserve _
           (λ a, loopState a = loopState (ensureGuardAttached ctx s))); [done|].
  intros a y Ha. by rewrite loopState_snapshotOnLock, loopState_setLocked.
Qed.

Lemma loopState_unlockSelected s w :
  loopState (unlockSelectedCards false s w).2.1 = loopState s.
Proof.
  unfold unlockSelectedCards.
  destruct (getActiveCanvasContext w) as [ctx|]; [|done].
  case_bool_decide; [done|]. cbn [fst snd].
  rewrite loopState_applyLockedClasses.
  rewrite <- (loopState_ensureGuardAttached ctx s).
  apply (fold_left_preserve _
           (λ a, loopState a = loopState (ensureGuardAttached ctx s))); [done|].
  intros a y Ha. by rewrite loopState_forgetOnUnlock, loopState_setLocked.
Qed.

Lemma loopState_unlockAll s w :
  loopState (unlockAllCardsInActiveCanvas s w).1 = loopState s.
Proof.
  unfold unlockAllCardsInActiveCanvas, unlockAllInCanvas.
  destruct (getActiveCanvasContext w) as [ctx|]; [|done].
  case_bool_decide; [done|]. cbn [fst snd].
  rewrite loopState_applyLockedClasses.
  change (loopState (set_lockedByCanvas ?x ?a)) with (loopState a).
  apply (fold_left_preserve _ (λ a, loopState a = loopState s)); [done|].
  intros a y Ha. by rewrite loopState_forgetOnUnlock.
Qed.

Lemma loopState_leafChange s w :
  loopState (onActiveLeafChange s w).1 = loopState s.
Proof.
  unfold onActiveLeafChange.
  destruct (getActiveCanvasContext w) as [ctx|]; [|done].
  pose proof (loopState_applyLockedClasses ctx (ensureGuardAttached ctx s) w) as H.
  destruct (applyLockedClasses ctx (ensureGuardAttached ctx s) w) as [s2 w2].
  cbn [fst snd] in *.
  by rewrite loopState_primeLockedSnapshots, H, loopState_ensureGuardAttached.
Qed.

Lemma loopState_shouldThrottleRestore path nodeId now s :
  loopState (shouldThrottleRestore path nodeId now s).2 = loopState s.
Proof. unfold shouldThrottleRestore. cbv zeta. by case_bool_decide. Qed.

Lemma loopState_observeRecord css path v s w pending rec :
  loopState (observeRecord css path v (s, w, pending) rec).1.1 = loopState s.
Proof.
  unfold observeRecord. destruct rec as [m now].
  repeat case_match; simplify_eq; cbn [fst snd]; try done;
    match goal with
    | H : shouldThrottleRestore ?p ?n ?t ?a = (_, ?s2) |- loopState ?s2 = _ =>
        pose proof (loopState_shouldThrottleRestore p n t a) as Hs;
        rewrite H in Hs; cbn [snd] in Hs; by rewrite Hs
    end.
Qed.

Lemma loopState_deliverMutations css batch s w :
  loopState (deliverMutations css batch s w).1 = loopState s.
Proof.
  unfold deliverMutations. destruct (observer s) as [path|]; [|done].
  assert (loopState (observerCallback css path batch s w).1.1 = loopState s) as H.
  { unfold observerCallback. destruct (shouldBypass s); [done|].
    destruct (observedView s) as [v|]; [|done].
    apply (fold_left_preserve (observeRecord css path v)
             (λ st, loopState st.1.1 = loopState s)); [done|].
    intros [[a wa] pa] rec Ha. cbn [fst] in Ha.
    by rewrite loopState_observeRecord. }
  destruct (observerCallback css path batch s w) as [[s1 w1] pending].
  cbn [fst snd] in *. by rewrite <- H.
Qed.

Lemma loopState_fields s s' :
  loopState s' = loopState s →
  altDown s' = altDown s ∧ pointerIsDown s' = pointerIsDown s ∧
  blockedPointerId s' = blockedPointerId s ∧ enforcing s' = enforcing s ∧
  enforcementRaf s' = enforcementRaf s ∧ enforceUntil s' = enforceUntil s.
Proof. unfold loopState. intros H. by injection H. Qed.

Lemma deadline_max_Forever_l d : deadline_max Forever d = Forever.
Proof. done. Qed.

Lemma deadline_max_Forever_r d : deadline_max d Forever = Forever.
Proof. by destruct d. Qed.

(** What [startEnforcementLoop] leaves. *)
Lemma startEnforcementLoop_fields until s :
  enforcing (startEnforcementLoop until s) = true ∧
  enforcementRaf (startEnforcementLoop until s)
  = (if enforcing s then enforcementRaf s else true) ∧
  enforceUntil (startEnforcementLoop until s)
  = deadline_max (enforceUntil s) until ∧
  altDown (startEnforcementLoop until s) = altDown s ∧
  pointerIsDown (startEnforcementLoop until s) = pointerIsDown s ∧
  blockedPointerId (startEnforcementLoop until s) = blockedPointerId s ∧
  lockStore (startEnforcementLoop until s) = lockStore s.
Proof.
  unfold startEnforcementLoop. cbv zeta.
  change (enforcing (set_enforceUntil ?x s)) with (enforcing s).
  by destruct (enforcing s) eqn:E.
Qed.

(** What a frame of the loop leaves of the loop state. *)
Lemma tick_fields css now s w :
  let s' := (tick css now s w).1 in
  altDown s' = altDown s ∧ pointerIsDown s' = pointerIsDown s ∧
  blockedPointerId s' = blockedPointerId s ∧
  (enforcing s = false → loopState s' = loopState s) ∧
  (enforcing s = true →
   if pointerIsDown s || before now (enforceUntil s)
   then enforcing s' = true ∧ enforcementRaf s' = true ∧
        enforceUntil s' = enforceUntil s
   else enforcing s' = false ∧ enforcementRaf s' = false ∧
        enforceUntil s' = At 0).
Proof.
  cbv zeta. unfold tick. destruct (enforcing s) eqn:E; [|done]. cbn [negb].
  pose proof (loopState_sameButCaches _ _
                (enforceLockedNodesOnce_sameButCaches css s w)) as H.
  assert (∃ s1 w1, (if negb (shouldBypass s) then enforceLockedNodesOnce css s w
                    else (s, w)) = (s1, w1) ∧ loopState s1 = loopState s)
    as (s1 & w1 & -> & H1).
  { destruct (shouldBypass s); cbn [negb]; [by eexists _, _|].
    destruct (enforceLockedNodesOnce css s w) as [s1 w1]. by eexists _, _. }
  destruct (loopState_fields _ _ H1) as (Ha & Hp & Hb & He & Hr & Hu).
  rewrite Hp, Hu.
  destruct (pointerIsDown s || before now (enforceUntil s)); cbn [fst];
    (split; [exact Ha|]); (split; [exact Hp|]); (split; [exact Hb|]);
    (split; [done|]); intros _; repeat split; simpl;
    rewrite ?He, ?Hu; done.
Qed.

Lemma shouldBypass_pointer target pointerId now s w :
  shouldBypass (set_pointerIsDown true s) = shouldBypass s ∧
  shouldBypass (set_blockedPointerId None (set_pointerIsDown false s))
  = shouldBypass s ∧
  shouldBypass (InputGuard.onPointerDown target pointerId s w) = shouldBypass s ∧
  shouldBypass (InputGuard.onPointerUp now s) = shouldBypass s.
Proof.
  unfold InputGuard.onPointerDown, InputGuard.onPointerUp, startEnforcementLoop,
    shouldBypass.
  repeat split; repeat case_match; done.
Qed.

Lemma blockedPointerId_startEnforcementLoop until s :
  blockedPointerId (startEnforcementLoop until s) = blockedPointerId s.
Proof. apply startEnforcementLoop_fields. Qed.

(** X11.  A drag that starts on a locked card is cut off: after a pointer
    went down, without bypass, on an element inside a locked canvas node,
    the pointer moves suppressed are exactly those of that pointer; a
    pointer that goes down elsewhere changes nothing to the pointer moves
    that are suppressed; and once a pointer is released or cancelled
    after that, no pointer move is suppressed. *)
Theorem pointer_moves_of_locked_drag_blocked (s : Manager) (w : World)
    (t : elemId) (pointerId : Z) :
  shouldBypass s = false →
  let s1 := InputGuard.onPointerDown (Some t) pointerId s w in
  (is_Some (closest (dom w) t SelLockedNode) →
   ∀ p, InputGuard.onPointerMove p s1 = bool_decide (p = pointerId)) ∧
  (closest (dom w) t SelLockedNode = None →
   ∀ p, InputGuard.onPointerMove p s1 = InputGuard.onPointerMove p s) ∧
  (∀ now p, InputGuard.onPointerMove p (InputGuard.onPointerUp now s1) = false).
Proof.
  intros Hb s1.
  destruct (shouldBypass_pointer (Some t) pointerId 0 s w) as (Hb1 & _ & Hb3 & _).
  assert (Hblk : blockedPointerId s1
                 = match closest (dom w) t SelLockedNode with
                   | Some _ => Some pointerId
                   | None => blockedPointerId s
                   end).
  { subst s1. unfold InputGuard.onPointerDown. cbv zeta. rewrite Hb1, Hb.
    destruct (closest (dom w) t SelLockedNode);
      by rewrite blockedPointerId_startEnforcementLoop. }
  split; [|split].
  - intros [n Hn] p. unfold InputGuard.onPointerMove.
    fold s1 in Hb3. rewrite Hb3, Hb, Hblk, Hn. done.
  - intros Hn p. unfold InputGuard.onPointerMove.
    fold s1 in Hb3. rewrite Hb3, Hb, Hblk, Hn. done.
  - intros now p. unfold InputGuard.onPointerMove.
    destruct (shouldBypass (InputGuard.onPointerUp now s1)); [done|].
    assert (blockedPointerId (InputGuard.onPointerUp now s1) = None) as ->; [|done].
    unfold InputGuard.onPointerUp. cbv zeta.
    destruct (shouldBypass (set_blockedPointerId None (set_pointerIsDown false s1)));
      [done|].
    by rewrite blockedPointerId_startEnforcementLoop.
Qed.

Lemma pointer_moves_of_locked_drag_blocked_witness :
  InputGuard.onPointerMove 1
    (InputGuard.onPointerDown (Some 2) 1 Fixture.mgr2 Fixture.worldL) = true ∧
  InputGuard.onPointerMove 7
    (InputGuard.onPointerDown (Some 2) 1 Fixture.mgr2 Fixture.worldL) = false.
Proof.
  assert (Hb : shouldBypass Fixture.mgr2 = false) by (vm_compute; reflexivity).
  destruct (pointer_moves_of_locked_drag_blocked Fixture.mgr2 Fixture.worldL 2 1 Hb)
    as (H & _ & _).
  assert (Hc : is_Some (closest (dom Fixture.worldL) 2 SelLockedNode))
    by (vm_compute; eauto).
  split; [apply (H Hc 1%Z)|apply (H Hc 7%Z)].
Defined.

Lemma engineStep_loopState_commands css s w e :
  match e with
  | EToggle | ELockSelected | EUnlockSelected | EUnlockAll | ELeafChange
  | ESetSettings _ | EMutations _ | EHost _ => True
  | _ => False
  end →
  loopState (engineStep css (s, w) e).1 = loopState s.
Proof.
  destruct e; try done; intros _; cbn [engineStep fst snd].
  - apply loopState_toggle.
  - apply loopState_lockSelected.
  - apply loopState_unlockSelected.
  - apply loopState_unlockAll.
  - apply loopState_leafChange.
  - apply loopState_deliverMutations.
Qed.

Lemma runsForever_loopState s s' :
  loopState s' = loopState s → runsForever s → runsForever s'.
Proof.
  intros H [He Hu]. destruct (loopState_fields _ _ H) as (_ & _ & _ & E & _ & U).
  split; congruence.
Qed.

Lemma runsForever_start until s :
  runsForever s → runsForever (startEnforcementLoop until s).
Proof.
  intros [He Hu]. destruct (startEnforcementLoop_fields until s)
    as (E & _ & U & _). split; [done|]. by rewrite U, Hu.
Qed.

Lemma runsForever_step css st e :
  runsForever st.1 → runsForever (engineStep css st e).1.
Proof.
  destruct st as [s w]. cbn [fst]. intros Hrun.
  destruct e;
    try (eapply runsForever_loopState;
         [by apply engineStep_loopState_commands|done]);
    cbn [engineStep fst snd].
  - unfold AltKeyTracking.onKeyDown. by case_bool_decide.
  - unfold AltKeyTracking.onKeyUp. by case_bool_decide.
  - unfold InputGuard.onPointerDown. cbv zeta.
    destruct (shouldBypass (set_pointerIsDown true s)); [done|].
    apply runsForever_start. by repeat case_match.
  - unfold InputGuard.onPointerUp. cbv zeta.
    destruct (shouldBypass _); [done|]. by apply runsForever_start.
  - unfold InputGuard.onKeyDown. destruct (shouldBypass s); [done|].
    case_bool_decide; [|done]. by apply runsForever_start.
  - destruct Hrun as [He Hu].
    destruct (tick_fields css now s w) as (_ & _ & _ & _ & H).
    specialize (H He). rewrite Hu in H. cbn [before] in H.
    rewrite orb_true_r in H. destruct H as (E & _ & U). split; [done|].
    by rewrite U.
Qed.

(** X12.  A pointer that goes down inside the canvas, without bypass,
    starts the enforcement loop with no deadline, and nothing that
    follows ends it: after any sequence of commands, key and pointer
    events, frames and mutation deliveries the loop is still running and
    its deadline is still infinite; the deadline set when the pointer is
    released is the larger of the two, so it does not replace it. *)
Theorem pointer_down_loop_never_ends (css : CssEngine) (s : Manager) (w : World)
    (target : option elemId) (pointerId : Z) (es : list EngineEvent) :
  shouldBypass s = false →
  let st := engineRun css es (InputGuard.onPointerDown target pointerId s w, w) in
  enforcing st.1 = true ∧ enforceUntil st.1 = Forever.
Proof.
  intros Hb st. subst st. unfold engineRun.
  apply (fold_left_preserve (engineStep css) (λ x, runsForever x.1)).
  - cbn [fst]. unfold InputGuard.onPointerDown. cbv zeta.
    destruct (shouldBypass_pointer target pointerId 0 s w) as (-> & _).
    rewrite Hb. split.
    + apply startEnforcementLoop_fields.
    + destruct (startEnforcementLoop_fields Forever
                  match target with
                  | Some t =>
                      match closest (dom w) t SelLockedNode with
                      | Some _ =>
                          set_blockedPointerId (Some pointerId)
                            (set_pointerIsDown true s)
                      | None => set_pointerIsDown true s
                      end
                  | None => set_pointerIsDown true s
                  end) as (_ & _ & -> & _).
      apply deadline_max_Forever_r.
  - intros a e. apply runsForever_step.
Qed.

Lemma pointer_down_loop_never_ends_witness :
  let st := engineRun Fixture.css0 [EPointerUp 1000; EFrame 2000; EFrame 999999]
              (InputGuard.onPointerDown (Some 2) 1 Fixture.mgr2 Fixture.worldL,
               Fixture.worldL) in
  enforcing st.1 = true ∧ enforceUntil st.1 = Forever.
Proof.
  apply (pointer_down_loop_never_ends Fixture.css0 Fixture.mgr2 Fixture.worldL
           (Some 2) 1 [EPointerUp 1000; EFrame 2000; EFrame 999999]).
  vm_compute. reflexivity.
Defined.

(** X13.  A key nudge runs the loop for 400 ms.  With the loop at rest,
    no pointer down and no bypass, an arrow key pressed at clock value
    [now0] starts the loop; a frame at a clock value before [now0 + 400]
    keeps it running with that deadline, and the first frame at or after
    it stops the loop, with no frame pending and the deadline back at
    0. *)
Theorem nudge_runs_loop_400ms (css : CssEngine) (s : Manager) (w : World)
    (key : string) (now0 now : Z) :
  key ∈ ["ArrowUp"; "ArrowDown"; "ArrowLeft"; "ArrowRight"] →
  shouldBypass s = false →
  enforcing s = false → enforceUntil s = At 0 → pointerIsDown s = false →
  (0 ≤ now0 + 400)%Z →
  let s1 := InputGuard.onKeyDown key now0 s in
  let s2 := (tick css now s1 w).1 in
  enforcing s1 = true ∧ enforcementRaf s1 = true ∧
  enforceUntil s1 = At (now0 + 400) ∧
  if bool_decide (now < now0 + 400)%Z
  then enforcing s2 = true ∧ enforcementRaf s2 = true ∧
       enforceUntil s2 = At (now0 + 400)
  else enforcing s2 = false ∧ enforcementRaf s2 = false ∧ enforceUntil s2 = At 0.
Proof.
  intros Hkey Hb He Hu Hp Hnow s1 s2.
  assert (Hs1 : s1 = startEnforcementLoop (At (now0 + 400)) s).
  { subst s1. unfold InputGuard.onKeyDown. rewrite Hb.
    by rewrite bool_decide_eq_true_2. }
  destruct (startEnforcementLoop_fields (At (now0 + 400)) s)
    as (E & R & U & _ & P & _).
  rewrite <- Hs1 in E, R, U, P. rewrite He in R. rewrite Hu in U. cbn in U.
  rewrite Z.max_r in U by done.
  split; [done|]. split; [done|]. split; [done|].
  destruct (tick_fields css now s1 w) as (_ & _ & _ & _ & H).
  specialize (H E). rewrite P, Hp, U in H. cbn [orb before] in H.
  fold s2 in H. by case_bool_decide.
Qed.

Lemma nudge_runs_loop_400ms_witness :
  enforcing (tick Fixture.css0 1399
               (InputGuard.onKeyDown "ArrowLeft" 1000 Fixture.mgr2)
               Fixture.worldL).1 = true ∧
  enforcing (tick Fixture.css0 1400
               (InputGuard.onKeyDown "ArrowLeft" 1000 Fixture.mgr2)
               Fixture.worldL).1 = false.
Proof.
  assert (Hkey : "ArrowLeft" ∈ ["ArrowUp"; "ArrowDown"; "ArrowLeft"; "ArrowRight"])
    by (by repeat constructor).
  assert (Hb : shouldBypass Fixture.mgr2 = false) by (vm_compute; reflexivity).
  assert (He : enforcing Fixture.mgr2 = false) by (vm_compute; reflexivity).
  assert (Hu : enforceUntil Fixture.mgr2 = At 0) by (vm_compute; reflexivity).
  assert (Hp : pointerIsDown Fixture.mgr2 = false) by (vm_compute; reflexivity).
  assert (Hn : (0 ≤ 1000 + 400)%Z) by lia.
  split.
  - destruct (nudge_runs_loop_400ms Fixture.css0 Fixture.mgr2 Fixture.worldL
                "ArrowLeft" 1000 1399 Hkey Hb He Hu Hp Hn) as (_ & _ & _ & H).
    rewrite bool_decide_eq_true_2 in H by lia. apply H.
  - destruct (nudge_runs_loop_400ms Fixture.css0 Fixture.mgr2 Fixture.worldL
                "ArrowLeft" 1000 1400 Hkey Hb He Hu Hp Hn) as (_ & _ & _ & H).
    rewrite bool_decide_eq_false_2 in H by lia. apply H.
Defined.

Lemma loopConsistent_loopState s s' :
  loopState s' = loopState s → loopConsistent s → loopConsistent s'.
Proof.
  intros H [Hr Hu]. destruct (loopState_fields _ _ H) as (_ & _ & _ & E & R & U).
  split; [congruence|]. rewrite E, U. done.
Qed.

Lemma loopConsistent_start until s :
  loopConsistent s → loopConsistent (startEnforcementLoop until s).
Proof.
  intros [Hr Hu]. destruct (startEnforcementLoop_fields until s)
    as (E & R & _). split; [|by rewrite E].
  rewrite E, R. destruct (enforcing s); [done|done].
Qed.

Lemma loopConsistent_step css st e :
  loopConsistent st.1 → loopConsistent (engineStep css st e).1.
Proof.
  destruct st as [s w]. cbn [fst]. intros Hc.
  destruct e;
    try (eapply loopConsistent_loopState;
         [by apply engineStep_loopState_commands|done]);
    cbn [engineStep fst snd].
  - unfold AltKeyTracking.onKeyDown. by case_bool_decide.
  - unfold AltKeyTracking.onKeyUp. by case_bool_decide.
  - unfold InputGuard.onPointerDown. cbv zeta.
    destruct (shouldBypass (set_pointerIsDown true s)); [done|].
    apply loopConsistent_start. by repeat case_match.
  - unfold InputGuard.onPointerUp. cbv zeta.
    destruct (shouldBypass _); [done|]. by apply loopConsistent_start.
  - unfold InputGuard.onKeyDown. destruct (shouldBypass s); [done|].
    case_bool_decide; [|done]. by apply loopConsistent_start.
  - destruct Hc as [Hr Hu].
    destruct (tick_fields css now s w) as (_ & _ & _ & Hoff & Hon).
    destruct (enforcing s) eqn:E.
    + specialize (Hon eq_refl).
      destruct (pointerIsDown s || before now (enforceUntil s));
        destruct Hon as (E' & R' & U'); split; congruence.
    + eapply loopConsistent_loopState; [by apply Hoff|].
      split; [by rewrite E|]. intros _. by apply Hu.
Qed.

(** X14.  The enforcement loop is never left half stopped.  From the
    engine as the plugin creates it and through any sequence of commands,
    key and pointer events, frames and mutation deliveries, a frame
    callback is pending exactly when the loop is marked as running, and
    when it is not running its deadline is back at 0, so that a loop
    started later takes the deadline it is given. *)
Theorem enforcement_loop_consistent (css : CssEngine)
    (locked : gmap string (list string)) (st : LockCardsSettings) (w : World)
    (es : list EngineEvent) :
  let s' := (engineRun css es (initManager locked st, w)).1 in
  enforcementRaf s' = enforcing s' ∧
  (enforcing s' = false → enforceUntil s' = At 0 ∧
   ∀ t, enforceUntil (startEnforcementLoop (At t) s') = At (Z.max 0 t)).
Proof.
  intros s'.
  assert (loopConsistent s') as [Hr Hu].
  { subst s'. unfold engineRun.
    apply (fold_left_preserve (engineStep css) (λ x, loopConsistent x.1)).
    - by split.
    - intros a e. apply loopConsistent_step. }
  split; [done|]. intros Hoff. split; [by apply Hu|]. intros t.
  destruct (startEnforcementLoop_fields (At t) s') as (_ & _ & -> & _).
  by rewrite (Hu Hoff).
Qed.

(** ** What the detectors do to the host *)

Lemma restoreModelSnapshotIn_dom w v y sv :
  dom (restoreModelSnapshotIn w v y sv) = dom w ∧
  mostRecentLeaf (restoreModelSnapshotIn w v y sv) = mostRecentLeaf w ∧
  canvasLeaves (restoreModelSnapshotIn w v y sv) = canvasLeaves w.
Proof.
  unfold restoreModelSnapshotIn. destruct (viewOf w v) as [view|]; [|done].
  by destruct (restoreModelSnapshot view y sv).
Qed.

(** One round of the loop of [enforceLockedNodesOnce], on the host. *)
Lemma enforceNode_host css v path s w y :
  let w' := (enforceNode css v path (s, w) y).2 in
  skeleton (dom w') = skeleton (dom w) ∧
  mostRecentLeaf w' = mostRecentLeaf w ∧ canvasLeaves w' = canvasLeaves w ∧
  (is_Some (savedModelOf s path y) → dom w' = dom w) ∧
  (savedModelOf s path y = None → views w' = views w ∧ hostCalls w' = hostCalls w).
Proof.
  cbv zeta. unfold enforceNode.
  pose proof (resolveNodeElById_sameButCaches w v y s) as H2.
  destruct (resolveNodeElById w v y s) as [[el|] s1]; cbn [fst snd] in *.
  2:{ repeat split; done. }
  assert (∀ x, savedModelOf (set_nodeIdByEl x s1) path y = savedModelOf s path y)
    as Hs.
  { intros x. apply savedModelOf_sameButCaches.
    eapply sameButCaches_trans; [exact H2|apply sameButCaches_nodeIdByEl]. }
  rewrite Hs. destruct (savedModelOf s path y) as [sv|].
  - destruct (restoreModelSnapshotIn_dom w v y sv) as (Hd & Hm & Hl).
    destruct (diverged w v y sv); cbn [snd];
      rewrite ?Hd, ?Hm, ?Hl; repeat split; done.
  - repeat case_match; cbn [snd]; repeat split; try done;
      try (by intros [? ?]); simpl; apply skeleton_restorePositionStyleOnly.
Qed.

Lemma enforceLockedNodesOnce_host css s w :
  let w' := (enforceLockedNodesOnce css s w).2 in
  skeleton (dom w') = skeleton (dom w) ∧
  mostRecentLeaf w' = mostRecentLeaf w ∧ canvasLeaves w' = canvasLeaves w ∧
  (∀ path, observedCanvasPath s = Some path →
     (∀ id, id ∈ lockedIdsOf s path → is_Some (savedModelOf s path id)) →
     dom w' = dom w) ∧
  (∀ path, observedCanvasPath s = Some path →
     (∀ id, id ∈ lockedIdsOf s path → savedModelOf s path id = None) →
     views w' = views w ∧ hostCalls w' = hostCalls w).
Proof.
  cbv zeta. unfold enforceLockedNodesOnce.
  destruct (observedView s) as [v|]; [|by repeat split].
  destruct (observedCanvasPath s) as [path|]; [|by repeat split].
  case_bool_decide; [by repeat split|].
  set (ids := lockedIdsOf s path).
  assert (Hfold : ∀ l a wa,
    sameButCaches s a → (∀ y, y ∈ l → y ∈ ids) →
    let r := fold_left (enforceNode css v path) l (a, wa) in
    skeleton (dom r.2) = skeleton (dom wa) ∧
    mostRecentLeaf r.2 = mostRecentLeaf wa ∧ canvasLeaves r.2 = canvasLeaves wa ∧
    ((∀ id, id ∈ ids → is_Some (savedModelOf s path id)) → dom r.2 = dom wa) ∧
    ((∀ id, id ∈ ids → savedModelOf s path id = None) →
     views r.2 = views wa ∧ hostCalls r.2 = hostCalls wa)).
  { induction l as [|y l IH]; intros a wa Ha Hin; cbv zeta; [by repeat split|].
    cbn [fold_left].
    pose proof (enforceNode_sameButCaches css v path a wa y) as Hc.
    destruct (enforceNode_host css v path a wa y) as (Hsk & Hm & Hl & Hmod & Hsty).
    rewrite (savedModelOf_sameButCaches s a) in Hmod, Hsty by done.
    destruct (enforceNode css v path (a, wa) y) as [a1 w1]. cbn [fst snd] in *.
    destruct (IH a1 w1) as (Hsk' & Hm' & Hl' & Hmod' & Hsty').
    { by eapply sameButCaches_trans. }
    { intros z Hz. apply Hin. by right. }
    assert (y ∈ ids) as Hy by (apply Hin; by left).
    split; [by rewrite Hsk'|]. split; [by rewrite Hm'|]. split; [by rewrite Hl'|].
    split.
    - intros Hall. rewrite Hmod' by done. apply Hmod. by apply Hall.
    - intros Hall. destruct (Hsty' Hall) as [-> ->]. apply Hsty. by apply Hall. }
  destruct (Hfold ids s w (sameButCaches_refl s)) as (Hsk & Hm & Hl & Hmod & Hsty);
    [done|].
  split; [done|]. split; [done|]. split; [done|].
  split; intros p [= <-]; [apply Hmod|apply Hsty].
Qed.

Lemma observeRecord_host css path v s w pending rec :
  let w' := (observeRecord css path v (s, w, pending) rec).1.2 in
  skeleton (dom w') = skeleton (dom w) ∧
  mostRecentLeaf w' = mostRecentLeaf w ∧ canvasLeaves w' = canvasLeaves w.
Proof.
  cbv zeta. unfold observeRecord. destruct rec as [m now].
  repeat case_match; simplify_eq; cbn [fst snd]; try done;
    try (split; [|done]; simpl; apply skeleton_restorePositionStyleOnly);
    match goal with
    | |- context [restoreModelSnapshotIn ?w0 ?v0 ?y ?sv] =>
        destruct (restoreModelSnapshotIn_dom w0 v0 y sv) as (-> & -> & ->); done
    end.
Qed.

(** X15.  The detectors restore and nothing else.  A frame of the
    enforcement loop and a delivery of mutation records leave the
    structure of the document as it was: the elements, their parents,
    their classes and their attributes; only inline styles may change.
    The leaves of the workspace are untouched.  On a frame, when every
    locked node of the observed canvas has a geometry snapshot the
    document is not touched at all, and when none has one the canvas
    model is not touched and no redraw hook is called. *)
Theorem detectors_only_restore (css : CssEngine) (now : Z)
    (batch : list (MutationRecord * Z)) (s : Manager) (w : World) :
  let w1 := (tick css now s w).2 in
  let w2 := (deliverMutations css batch s w).2 in
  (skeleton (dom w1) = skeleton (dom w) ∧
   mostRecentLeaf w1 = mostRecentLeaf w ∧ canvasLeaves w1 = canvasLeaves w) ∧
  (skeleton (dom w2) = skeleton (dom w) ∧
   mostRecentLeaf w2 = mostRecentLeaf w ∧ canvasLeaves w2 = canvasLeaves w) ∧
  (∀ path, observedCanvasPath s = Some path →
     (∀ id, id ∈ lockedIdsOf s path → is_Some (savedModelOf s path id)) →
     dom w1 = dom w) ∧
  (∀ path, observedCanvasPath s = Some path →
     (∀ id, id ∈ lockedIdsOf s path → savedModelOf s path id = None) →
     views w1 = views w ∧ hostCalls w1 = hostCalls w).
Proof.
  intros w1 w2.
  destruct (enforceLockedNodesOnce_host css s w) as (Hsk & Hm & Hl & Hmod & Hsty).
  assert (Hw1 : w1 = w ∨ w1 = (enforceLockedNodesOnce css s w).2).
  { subst w1. rewrite tick_world.
    destruct (enforcing s && negb (shouldBypass s)); [by right|by left]. }
  assert (Hd : skeleton (dom w2) = skeleton (dom w) ∧
               mostRecentLeaf w2 = mostRecentLeaf w ∧
               canvasLeaves w2 = canvasLeaves w).
  { subst w2. unfold deliverMutations.
    destruct (observer s) as [path|]; [|done].
    assert (skeleton (dom (observerCallback css path batch s w).1.2)
            = skeleton (dom w) ∧
            mostRecentLeaf (observerCallback css path batch s w).1.2
            = mostRecentLeaf w ∧
            canvasLeaves (observerCallback css path batch s w).1.2
            = canvasLeaves w) as H.
    { unfold observerCallback. destruct (shouldBypass s); [done|].
      destruct (observedView s) as [v|]; [|done].
      apply (fold_left_preserve (observeRecord css path v)
               (λ st, skeleton (dom st.1.2) = skeleton (dom w) ∧
                      mostRecentLeaf st.1.2 = mostRecentLeaf w ∧
                      canvasLeaves st.1.2 = canvasLeaves w)); [done|].
      intros [[a wa] pa] rec (H1 & H2 & H3). cbn [fst snd] in *.
      destruct (observeRecord_host css path v a wa pa rec) as (-> & -> & ->).
      done. }
    by destruct (observerCallback css path batch s w) as [[s1 wo] pending]. }
  split; [|split; [done|]].
  - destruct Hw1 as [->| ->]; done.
  - split.
    + intros path Hp Hall. destruct Hw1 as [->| ->]; [done|]. by eapply Hmod.
    + intros path Hp Hall. destruct Hw1 as [->| ->]; [done|]. by eapply Hsty.
Qed.

(** ** The re-entry guard of the observer *)

Lemma restoring_shouldThrottleRestore path nodeId now s :
  restoring (shouldThrottleRestore path nodeId now s).2 = restoring s.
Proof. unfold shouldThrottleRestore. cbv zeta. by case_bool_decide. Qed.

(** A record either is left alone or marks one element that was not
    marked. *)
Lemma observeRecord_restoring css path v s w pending rec :
  let r := observeRecord css path v (s, w, pending) rec in
  (restoring r.1.1 = restoring s ∧ r.2 = pending) ∨
  (∃ el, (el ∉ restoring s) ∧ restoring r.1.1 = {[el]} ∪ restoring s ∧
         r.2 = pending ++ [el]).
Proof.
  cbv zeta. unfold observeRecord. destruct rec as [m now].
  repeat case_match; simplify_eq; cbn [fst snd]; try (by left);
    right;
    match goal with
    | H : bool_decide (?el ∈ restoring s) = false |- _ =>
        exists el; apply bool_decide_eq_false in H; split; [done|]
    end;
    try (split; done);
    match goal with
    | H : shouldThrottleRestore ?p ?n ?t ?a = (_, ?s2) |- _ =>
        pose proof (restoring_shouldThrottleRestore p n t a) as Hs;
        rewrite H in Hs; cbn [snd] in Hs; by rewrite Hs
    end.
Qed.

Lemma observerCallback_restoring css path batch s w :
  let r := observerCallback css path batch s w in
  NoDup r.2 ∧ (∀ el, el ∈ r.2 → el ∉ restoring s) ∧
  restoring r.1.1 = restoring s ∪ list_to_set r.2.
Proof.
  cbv zeta. unfold observerCallback.
  destruct (shouldBypass s).
  { cbn [fst snd]. split; [constructor|]. split; [by intros el H%elem_of_nil|].
    set_solver. }
  destruct (observedView s) as [v|].
  2:{ cbn [fst snd]. split; [constructor|]. split; [by intros el H%elem_of_nil|].
      set_solver. }
  apply (fold_left_preserve (observeRecord css path v)
           (λ st, NoDup st.2 ∧ (∀ el, el ∈ st.2 → el ∉ restoring s) ∧
                  restoring st.1.1 = restoring s ∪ list_to_set st.2)).
  { cbn [fst snd]. split; [constructor|]. split; [by intros el H%elem_of_nil|].
    set_solver. }
  intros [[a wa] pa] rec (Hnd & Hin & Heq). cbn [fst snd] in *.
  destruct (observeRecord_restoring css path v a wa pa rec)
    as [[-> ->]|(el & Hel & -> & ->)]; [done|].
  rewrite Heq in Hel. apply not_elem_of_union in Hel as [Hel1 Hel2].
  rewrite elem_of_list_to_set in Hel2.
  split; [|split].
  - apply NoDup_app. split; [done|]. split; [|apply NoDup_singleton].
    by intros x Hx ->%list_elem_of_singleton.
  - intros x [Hx| ->%list_elem_of_singleton]%elem_of_app; [by apply Hin|done].
  - rewrite Heq, list_to_set_app_L. simpl. set_solver.
Qed.

Lemma runMicrotasks_restoring pending s :
  restoring (runMicrotasks pending s) = restoring s ∖ list_to_set pending.
Proof.
  unfold runMicrotasks. simpl. generalize (restoring s). intros r.
  revert r. induction pending as [|el pending IH]; intros r; simpl.
  - set_solver.
  - rewrite IH. set_solver.
Qed.

(** X16.  The re-entry guard of the observer.  In one delivery of
    mutation records the elements the callback marks as being restored
    are distinct and were not marked before, so that an element is
    handled at most once however many records name it; the marks stay
    until the queued microtasks run, and once they have run the set of
    marks is what it was before the delivery: empty when it was empty. *)
Theorem observer_handles_each_element_once (css : CssEngine) (path : string)
    (batch : list (MutationRecord * Z)) (s : Manager) (w : World) :
  let r := observerCallback css path batch s w in
  NoDup r.2 ∧ (∀ el, el ∈ r.2 → el ∉ restoring s) ∧
  restoring r.1.1 = restoring s ∪ list_to_set r.2 ∧
  restoring (runMicrotasks r.2 r.1.1) = restoring s ∧
  restoring (deliverMutations css batch s w).1 = restoring s.
Proof.
  intros r.
  assert (Hany : ∀ p,
    restoring (runMicrotasks (observerCallback css p batch s w).2
                 (observerCallback css p batch s w).1.1) = restoring s).
  { intros p. destruct (observerCallback_restoring css p batch s w)
      as (_ & Hin & Heq).
    rewrite runMicrotasks_restoring, Heq.
    apply set_eq. intros x. rewrite elem_of_difference, elem_of_union,
      elem_of_list_to_set. split; [|intros Hx; split; [by left|]].
    - by intros [[?|?] ?].
    - intros Hp. by apply (Hin x). }
  destruct (observerCallback_restoring css path batch s w) as (Hnd & Hin & Heq).
  split; [done|]. split; [done|]. split; [done|]. split; [apply Hany|].
  unfold deliverMutations. destruct (observer s) as [p|]; [|done].
  specialize (Hany p).
  by destruct (observerCallback css p batch s w) as [[s1 w1] pending].
Qed.

(** ** Disposal *)

(** X17.  [dispose] stops both detectors and keeps what is locked: after
    it a frame of the enforcement loop and a delivery of mutation records
    change neither the engine nor the host, while the locked ids, the
    snapshots and the settings are what they were. *)
Theorem dispose_stops_detectors (css : CssEngine) (now : Z)
    (batch : list (MutationRecord * Z)) (s : Manager) (w : World) :
  tick css now (dispose s) w = (dispose s, w) ∧
  deliverMutations css batch (dispose s) w = (dispose s, w) ∧
  lockStore (dispose s) = lockStore s ∧
  ∀ p i, isLocked (dispose s) p i = isLocked s p i.
Proof.
  split; [|split; [|split]].
  - unfold tick. by destruct s.
  - unfold deliverMutations. by destruct s.
  - by destruct s.
  - intros p i. by destruct s.
Qed.

(** ** Restoring what was just read *)

Lemma insert_get_prop f k v :
  get_prop (VObj f) k = v → v ≠ VUndefined → <[k := v]> f = f.
Proof.
  unfold get_prop. intros H Hv. apply insert_id.
  destruct (f !! k); simpl in H; by simplify_eq.
Qed.

Lemma applyTo_own snap base m :
  fromObj base m = Some snap → applyTo snap base = (base, true).
Proof.
  intros H. unfold fromObj in H.
  destruct base as [| | | | | | |f| | |]; try done.
  cbn [is_object] in H.
  destruct (get_prop (VObj f) "x") as [| | |x| | | | | | |] eqn:Ex; try done.
  destruct (get_prop (VObj f) "y") as [| | |y| | | | | | |] eqn:Ey; try done.
  injection H as <-. unfold applyTo. cbn [snap_x snap_y snap_w snap_h].
  rewrite Ex. cbn [is_number].
  rewrite (insert_get_prop f "x" (VNum x)) by done.
  rewrite Ey. cbn [is_number].
  rewrite (insert_get_prop f "y" (VNum y)) by done.
  assert (Hsize : ∀ k1 k2,
    match num_or (get_prop (VObj f) k1) (get_prop (VObj f) k2) with
    | Some q =>
        if is_number (get_prop (VObj f) k1) then <[k1 := VNum q]> f
        else if is_number (get_prop (VObj f) k2) then <[k2 := VNum q]> f else f
    | None => f
    end = f).
  { intros k1 k2. unfold num_or.
    destruct (get_prop (VObj f) k1) eqn:E1;
      destruct (get_prop (VObj f) k2) eqn:E2; cbn [is_number]; try done;
      by rewrite ?(insert_get_prop f k1 _ E1), ?(insert_get_prop f k2 _ E2). }
  change (default VUndefined (f !! "width")) with (get_prop (VObj f) "width").
  change (default VUndefined (f !! "w")) with (get_prop (VObj f) "w").
  change (default VUndefined (f !! "height")) with (get_prop (VObj f) "height").
  change (default VUndefined (f !! "h")) with (get_prop (VObj f) "h").
  by rewrite (Hsize "width" "w"), (Hsize "height" "h").
Qed.

Lemma fromObj_VObj base m snap :
  fromObj base m = Some snap → ∃ f, base = VObj f.
Proof.
  unfold fromObj. destruct base; try done. eauto.
Qed.

Lemma restoreNode_own o snap : readNode o = Some snap → restoreNode snap o = o.
Proof.
  intros (pre & p & post & Hsplit & _ & Hp)%readNode_Some.
  destruct (readOrder_recorded pre p (mode snap) post Hsplit) as [Hrec _].
  destruct (bases_recorded _ _ Hrec) as (rest & Hb & _).
  unfold restoreNode. rewrite Hb. cbn [applyBases]. rewrite applyAt_eq.
  destruct p as [|k]; cbn [base_of] in Hp.
  - by rewrite (applyTo_own snap o (mode snap)).
  - destruct (fromObj_VObj _ _ _ Hp) as [f Hf]. rewrite Hf.
    rewrite Hf in Hp. rewrite (applyTo_own snap (VObj f) (mode snap)) by done.
    cbn [fst snd]. unfold get_prop in Hf.
    destruct o as [| | | | | | |g| | |]; try done.
    cbn [set_prop]. f_equal. apply insert_id.
    destruct (g !! k); simpl in Hf; by simplify_eq.
Qed.

Lemma putNode_own view nodeId o :
  nodeObject view nodeId = Some o → putNode view nodeId o = view.
Proof.
  intros (m & Hm & Hlook & _)%nodeObject_nodesMap.
  unfold putNode. rewrite Hm. rewrite (insert_id m nodeId o) by done.
  unfold nodesMap, getCanvasFromView in Hm.
  destruct view as [ty cont fl c]. unfold set_canvas. cbn in *. f_equal.
  destruct (is_object c); [|done].
  destruct c as [| | | | | | |g| | |]; try done.
  cbn [set_prop]. f_equal. apply insert_id.
  unfold get_prop in Hm. destruct (g !! "nodes") as [x|]; simpl in Hm; [|done].
  by destruct x; simplify_eq.
Qed.

(** X18.  Restoring the geometry that was just read writes nothing new:
    when [readModelSnapshot] gives a snapshot for a node,
    [restoreModelSnapshot] with that snapshot leaves the view, with the
    canvas object and every node object, exactly as it was; the redraw
    hooks are called all the same. *)
Theorem restore_of_own_snapshot_changes_nothing (view : CanvasViewLike)
    (nodeId : string) (snap : ModelSnapshot) :
  readModelSnapshot view nodeId = Some snap →
  restoreModelSnapshot view nodeId snap
  = (view, callRedraw (canvas view) maybeMethods).
Proof.
  unfold readModelSnapshot, restoreModelSnapshot.
  destruct (nodeObject view nodeId) as [o|] eqn:Ho; [|done].
  intros Hread. rewrite (restoreNode_own o snap Hread).
  by rewrite (putNode_own view nodeId o Ho).
Qed.

Lemma restore_of_own_snapshot_changes_nothing_witness :
  restoreModelSnapshot Fixture.viewA "n1" Fixture.snapN1
  = (Fixture.viewA, ["requestFrame"]).
Proof.
  rewrite (restore_of_own_snapshot_changes_nothing Fixture.viewA "n1" Fixture.snapN1).
  - reflexivity.
  - vm_compute. reflexivity.
Defined.

(** ** The redraw hooks *)

Lemma callRedraw_all_throw c ms :
  (∀ m, m ∈ ms → returning c m = false) →
  callRedraw c ms = filter (λ m, throwing c m = true) ms.
Proof.
  induction ms as [|m ms IH]; intros Hall; [done|].
  cbn [callRedraw]. rewrite filter_cons.
  assert (returning c m = false) as Hm by (apply Hall; by left).
  assert (callRedraw c ms = filter (λ m, throwing c m = true) ms) as Hrest.
  { apply IH. intros m' Hm'. apply Hall. by right. }
  unfold returning, throwing in *.
  destruct (get_prop c m) as [| | | | |[|]| | | | |]; try done;
    try (by rewrite decide_False by done).
  rewrite decide_True by done. by rewrite Hrest.
Qed.

(** X19.  The redraw request.  The hooks [requestRender],
    [requestFrame], [render], [redraw] are tried in this order; a hook
    that is not a function is passed over; a hook that throws is called
    and the next one is tried; the first hook that returns ends the
    request, and no hook after it is called.  When no hook returns, every
    hook that is a function has been called. *)
Theorem redraw_stops_at_first_returning_hook (c : value) (pre post : list string)
    (m : string) :
  (∀ m', m' ∈ pre → returning c m' = false) →
  (returning c m = true →
   callRedraw c (pre ++ m :: post)
   = filter (λ m', throwing c m' = true) pre ++ [m]) ∧
  ((∀ m', m' ∈ m :: post → returning c m' = false) →
   callRedraw c (pre ++ m :: post)
   = filter (λ m', throwing c m' = true) (pre ++ m :: post)).
Proof.
  intros Hpre. split.
  - intros Hm. induction pre as [|p pre IH].
    + cbn [app callRedraw]. unfold returning in Hm. rewrite filter_nil.
      by destruct (get_prop c m) as [| | | | |[|]| | | | |].
    + assert (returning c p = false) as Hp by (apply Hpre; by left).
      assert (Hrest : callRedraw c (pre ++ m :: post)
                      = filter (λ m', throwing c m' = true) pre ++ [m]).
      { apply IH. intros m' Hm'. apply Hpre. by right. }
      cbn [app callRedraw]. rewrite filter_cons.
      unfold returning, throwing in *.
      destruct (get_prop c p) as [| | | | |[|]| | | | |]; try done;
        try (by rewrite decide_False by done).
      rewrite decide_True by done. by rewrite Hrest.
  - intros Hrest. apply callRedraw_all_throw.
    intros m' [Hm'|Hm']%elem_of_app; [by apply Hpre|by apply Hrest].
Qed.

Lemma redraw_stops_at_first_returning_hook_witness :
  callRedraw (VObj {[ "requestRender" := VFun true; "render" := VFun false;
                      "redraw" := VFun false ]}) maybeMethods
  = ["requestRender"; "render"].
Proof.
  set (c := VObj {[ "requestRender" := VFun true; "render" := VFun false;
                    "redraw" := VFun false ]}).
  assert (Hpre : ∀ m', m' ∈ ["requestRender"; "requestFrame"] →
                       returning c m' = false).
  { intros m' [->|[->|H%elem_of_nil]%elem_of_cons]%elem_of_cons;
      [vm_compute; reflexivity..|done]. }
  destruct (redraw_stops_at_first_returning_hook c
              ["requestRender"; "requestFrame"] ["redraw"] "render" Hpre)
    as [H _].
  etransitivity; [apply H; vm_compute; reflexivity|].
  vm_compute. reflexivity.
Defined.

(** ** The stored plugin data *)

Section PluginDataProperties.
Variable isRecord : value → bool.

(** X20.  What is saved is what is loaded: when [isRecord] accepts plain
    objects, the data [savePluginState] hands to the host for a state
    whose locked map is an object loads back, through [loadPluginState],
    as that state: the same locked map and the same two settings. *)
Theorem load_of_saved_state (state : LoadedPluginState) :
  (∀ f, isRecord (VObj f) = true) →
  is_object (loaded_lockedByCanvas state) = true →
  loadPluginState isRecord (savePluginState state) = state.
Proof.
  intros Hrec Hobj. unfold loadPluginState, savePluginState.
  cbn [is_object negb]. simp_get. cbn [is_one Qeq_bool].
  assert (Qeq_bool 1 1 = true) as -> by done.
  unfold settingsObject. rewrite Hrec. simp_get.
  destruct state as [locked [dis dbg]]. cbn in *.
  assert (nullish_or locked (VObj ∅) = locked) as ->
    by (by destruct locked).
  by destruct dis, dbg.
Qed.

(** X21.  The settings a load gives are the defaults unless the stored
    data says otherwise in so many words: the bypass option is off only
    for version-1 data whose [settings] is a record holding
    [disableLockWhileAltDown: false], and debug logging is on only for
    version-1 data whose [settings] is a record holding
    [enableDebugLogging: true]; data that is no object, data of another
    version and legacy data all give the default settings. *)
Theorem loaded_settings_default_unless_explicit (loaded : value) :
  let st := loaded_settings (loadPluginState isRecord loaded) in
  let explicit (k : string) (b : bool) : Prop :=
    is_object loaded = true ∧ is_one (get_prop loaded "version") = true ∧
    isRecord (get_prop loaded "settings") = true ∧
    get_prop (get_prop loaded "settings") k = VBool b in
  (disableLockWhileAltDown st = false ↔ explicit "disableLockWhileAltDown" false) ∧
  (enableDebugLogging st = true ↔ explicit "enableDebugLogging" true) ∧
  (is_object loaded = false ∨ is_one (get_prop loaded "version") = false →
   st = DEFAULT_SETTINGS).
Proof.
  cbv zeta. unfold loadPluginState.
  destruct (is_object loaded) eqn:Eo; cbn [negb].
  2:{ cbn. split; [|split]; [split; [done|by intros (? & _)]..|done]. }
  destruct (is_one (get_prop loaded "version")) eqn:Ev.
  2:{ cbn. split; [|split]; [split; [done|by intros (_ & ? & _)]..|done]. }
  cbn [loaded_settings disableLockWhileAltDown enableDebugLogging].
  destruct (isRecord (get_prop loaded "settings")) eqn:Er.
  - split; [|split].
    + destruct (get_prop (get_prop loaded "settings") "disableLockWhileAltDown")
        as [| |[|]| | | | | | | |]; split; try done; try (by intros (_ & _ & _ & ?)).
    + destruct (get_prop (get_prop loaded "settings") "enableDebugLogging")
        as [| |[|]| | | | | | | |]; split; try done; try (by intros (_ & _ & _ & ?)).
    + by intros [?|?].
  - cbn. split; [|split]; [split; [done|by intros (_ & _ & ? & _)]..|by intros [?|?]].
Qed.
End PluginDataProperties.

Lemma load_of_saved_state_witness :
  loadPluginState is_object
    (savePluginState
       (mkLoaded (VObj {[ "a.canvas" := VArr [VStr "n1"] ]}) (mkSettings false true)))
  = mkLoaded (VObj {[ "a.canvas" := VArr [VStr "n1"] ]}) (mkSettings false true).
Proof.
  apply (load_of_saved_state is_object).
  - intros f. reflexivity.
  - reflexivity.
Defined.

Example load_legacy_data :
  loadPluginState is_object (VObj {[ "a.canvas" := VArr [VStr "n1"] ]})
  = mkLoaded (VObj {[ "a.canvas" := VArr [VStr "n1"] ]}) DEFAULT_SETTINGS.
Proof. vm_compute. reflexivity. Qed.

Example load_nothing :
  loadPluginState is_object VNull = mkLoaded (VObj ∅) DEFAULT_SETTINGS.
Proof. reflexivity. Qed.

(** ** The active canvas *)

Lemma canvasLeaf_ctxOf w leaf ctx :
  match leaf_view leaf with
  | Some v =>
      match viewOf w v with
      | Some view =>
          if bool_decide (getViewType view = "canvas") then
            match file view with
            | Some path =>
                if bool_decide (path = "") then None
                else Some {| ctx_view := v; canvasPath := path |}
            | None => None
            end
          else None
      | None => None
      end
  | None => None
  end = Some ctx ↔ canvasLeaf w leaf ctx.
Proof.
  unfold canvasLeaf. split.
  - intros H. repeat case_match; simplify_eq. cbn.
    repeat match goal with
           | H : bool_decide _ = true |- _ => apply bool_decide_eq_true in H
           | H : bool_decide _ = false |- _ => apply bool_decide_eq_false in H
           end.
    eexists. repeat split; done.
  - intros (view & -> & -> & Ht & -> & Hp). destruct ctx as [v path]. cbn in *.
    rewrite bool_decide_eq_true_2 by done.
    by rewrite bool_decide_eq_false_2 by done.
Qed.

Lemma head_omap_first {A B} (f : A → option B) (l : list A) :
  match head (omap f l) with
  | Some b => ∃ pre x post, l = pre ++ x :: post ∧ f x = Some b ∧
                            ∀ y, y ∈ pre → f y = None
  | None => ∀ y, y ∈ l → f y = None
  end.
Proof.
  induction l as [|x l IH]; [cbn; by intros y H%elem_of_nil|].
  cbn. destruct (f x) as [b|] eqn:E.
  - cbn. exists [], x, l. split; [done|]. split; [done|].
    by intros y H%elem_of_nil.
  - destruct (head (omap f l)) as [b|].
    + destruct IH as (pre & y & post & -> & Hy & Hpre).
      exists (x :: pre), y, post. split; [done|]. split; [done|].
      intros z [->|Hz]%elem_of_cons; [done|by apply Hpre].
    + intros y [->|Hy]%elem_of_cons; [done|by apply IH].
Qed.

(** X22.  The active canvas is the first leaf that holds one.
    [getActiveCanvasContext] looks at the most recent leaf and then at
    the canvas leaves in order; it returns the context of the first leaf
    whose view is a canvas view with a file of non-empty path, named by
    that view and that path, and it returns nothing only when no leaf is
    such a leaf. *)
Theorem getActiveCanvasContext_first_canvas_leaf (w : World) :
  match getActiveCanvasContext w with
  | Some ctx =>
      ∃ pre leaf post,
        candidateLeaves w = pre ++ leaf :: post ∧ canvasLeaf w leaf ctx ∧
        ∀ l c, l ∈ pre → ¬ canvasLeaf w l c
  | None => ∀ l c, l ∈ candidateLeaves w → ¬ canvasLeaf w l c
  end.
Proof.
  unfold getActiveCanvasContext. fold (candidateLeaves w).
  match goal with
  | |- context [omap ?f (candidateLeaves w)] =>
      pose proof (head_omap_first f (candidateLeaves w)) as H;
      destruct (head (omap f (candidateLeaves w))) as [ctx|]
  end.
  - destruct H as (pre & leaf & post & Hsplit & Hleaf & Hpre).
    exists pre, leaf, post. split; [done|].
    split; [by apply canvasLeaf_ctxOf|].
    intros l c Hl Hc%canvasLeaf_ctxOf. by rewrite (Hpre l Hl) in Hc.
  - intros l c Hl Hc%canvasLeaf_ctxOf. by rewrite (H l Hl) in Hc.
Qed.

Example getActiveCanvasContext_skips_unsaved_canvas :
  getActiveCanvasContext
    {| dom := []; hostCalls := [];
       views := {[ 0 := mkView "canvas" 0 None VNull;
                   1 := mkView "markdown" 0 (Some "note.md") VNull;
                   2 := mkView "canvas" 0 (Some "b.canvas") VNull ]};
       mostRecentLeaf := Some (mkLeaf (Some 0));
       canvasLeaves := [mkLeaf (Some 1); mkLeaf None; mkLeaf (Some 2)] |}
  = Some {| ctx_view := 2; canvasPath := "b.canvas" |}.
Proof. vm_compute. reflexivity. Qed.

(** ** Commands that only ask *)

(** X23.  A command that is only asked whether it can run does nothing:
    called with [checking], each of the three selection commands leaves
    the engine and the host as they are, and what it answers is what it
    answers when it runs, which is whether a canvas is active and holds a
    non-empty selection; the three commands answer alike. *)
Theorem checking_commands_do_nothing (s : Manager) (w : World) :
  let available :=
    match getActiveCanvasContext w with
    | Some ctx => negb (bool_decide (getSelectedNodeIds w ctx = []))
    | None => false
    end in
  (toggleLockSelectedCards true s w = (available, (s, w)) ∧
   lockSelectedCards true s w = (available, (s, w)) ∧
   unlockSelectedCards true s w = (available, (s, w))) ∧
  (toggleLockSelectedCards false s w).1 = available ∧
  (lockSelectedCards false s w).1 = available ∧
  (unlockSelectedCards false s w).1 = available ∧
  (available = false →
   toggleLockSelectedCards false s w = (false, (s, w)) ∧
   lockSelectedCards false s w = (false, (s, w)) ∧
   unlockSelectedCards false s w = (false, (s, w))).
Proof.
  cbv zeta. unfold toggleLockSelectedCards, lockSelectedCards, unlockSelectedCards.
  destruct (getActiveCanvasContext w) as [ctx|]; [|done].
  destruct (getSelectedNodeIds w ctx) as [|y l] eqn:E; [done|].
  rewrite (bool_decide_eq_false_2 (length (y :: l) = 0)) by done.
  rewrite (bool_decide_eq_false_2 (y :: l = [])) by done.
  done.
Qed.

(** ** The restore interval, node by node *)

(** X24.  The restore interval is kept for each node of each canvas on
    its own: [shouldThrottleRestore] answers [true] exactly when less
    than 50 ms have passed since the time recorded for the node, it
    records the clock value for that node exactly when it answers
    [false], and it never changes the time recorded for another node or
    for a node of another canvas. *)
Theorem throttle_is_per_node (path nodeId : string) (now : Z) (s : Manager) :
  let r := shouldThrottleRestore path nodeId now s in
  r.1 = bool_decide (now - lastOf s path nodeId < 50)%Z ∧
  (∀ p i, lastOf r.2 p i
          = if bool_decide (p = path ∧ i = nodeId) && negb r.1 then now
            else lastOf s p i) ∧
  lockStore r.2 = lockStore s ∧ loopState r.2 = loopState s.
Proof.
  cbv zeta. split; [apply lastOf_shouldThrottleRestore|].
  split; [|split; [apply lockStore_shouldThrottleRestore
                  |apply loopState_shouldThrottleRestore]].
  intros p i. unfold shouldThrottleRestore, lastOf. cbv zeta.
  destruct (bool_decide (now - default 0%Z
              (default ∅ (lastRestoreAtByCanvas s !! path) !! nodeId) < 50)%Z);
    cbn [fst snd negb lastRestoreAtByCanvas set_lastRestoreAtByCanvas].
  - rewrite andb_false_r.
    destruct (decide (p = path)) as [->|Hp];
      [by rewrite lookup_insert_eq|by rewrite lookup_insert_ne].
  - rewrite andb_true_r.
    destruct (decide (p = path)) as [->|Hp].
    + rewrite lookup_insert_eq. cbn [default id].
      destruct (decide (i = nodeId)) as [->|Hi].
      * rewrite lookup_insert_eq. by rewrite bool_decide_eq_true_2.
      * rewrite lookup_insert_ne by done.
        rewrite bool_decide_eq_false_2; [done|]. by intros [_ ?].
    + rewrite lookup_insert_ne by done.
      rewrite bool_decide_eq_false_2; [done|]. by intros [? _].
Qed.

(** ** The observer and the marker *)

Lemma querySelectorAll_matches d c sel e :
  e ∈ querySelectorAll d c sel → matchesSel d e sel = true.
Proof.
  unfold querySelectorAll. rewrite list_elem_of_filter.
  intros [H _]. by apply andb_true_iff in H as [_ H].
Qed.

Lemma matchesSel_locked d e :
  matchesSel d e SelLockedNode = true → hasClass d e "lc-locked" = true.
Proof.
  unfold matchesSel, hasClass. destruct (d !! e); [|done].
  by intros [_ H]%andb_true_iff.
Qed.



(** ** The input guard under the bypass *)

(** X26.  While the bypass holds (the option is on and the modifier is
    down) the input guard lets everything through: no pointer move is
    suppressed, whatever pointer was blocked before; a pointer that goes
    down is recorded as down but blocks nothing and starts no loop; a
    pointer that goes up is recorded as up and unblocks, without the
    250 ms of enforcement that follow a release otherwise; an arrow key
    starts no loop. *)
Theorem bypass_makes_input_guard_inert (s : Manager) (w : World)
    (target : option elemId) (pointerId : Z) (key : string) (now : Z) :
  shouldBypass s = true →
  (∀ p, InputGuard.onPointerMove p s = false) ∧
  InputGuard.onPointerDown target pointerId s w = set_pointerIsDown true s ∧
  InputGuard.onPointerUp now s
  = set_blockedPointerId None (set_pointerIsDown false s) ∧
  InputGuard.onKeyDown key now s = s.
Proof.
  intros Hb.
  destruct (shouldBypass_pointer target pointerId now s w) as (H1 & H2 & _).
  split; [|split; [|split]].
  - intros p. unfold InputGuard.onPointerMove. by rewrite Hb.
  - unfold InputGuard.onPointerDown. cbv zeta. by rewrite H1, Hb.
  - unfold InputGuard.onPointerUp. cbv zeta. by rewrite H2, Hb.
  - unfold InputGuard.onKeyDown. by rewrite Hb.
Qed.

Lemma bypass_makes_input_guard_inert_witness :
  InputGuard.onPointerMove 1 Fixture.mgrAlt = false ∧
  InputGuard.onKeyDown "ArrowUp" 10 Fixture.mgrAlt = Fixture.mgrAlt.
Proof.
  assert (Hb : shouldBypass Fixture.mgrAlt = true) by (vm_compute; reflexivity).
  destruct (bypass_makes_input_guard_inert Fixture.mgrAlt Fixture.worldL None 0
              "ArrowUp" 10 Hb) as (H1 & _ & _ & H4).
  split; [apply H1|apply H4].
Defined.

(** ** Markers and locks after a command *)




(** ** The selection *)




Example selection_falls_through_empty_nodes :
  selectedIdsWithOut
    (mkView "canvas" 0 (Some "a.canvas")
       (VObj {[ "selection" :=
                  VObj {[ "nodes" := VSet [VNum 3; VObj ∅];
                          "items" := VArr [VObj {[ "id" := VStr "n7" ]}; VStr "n8"] ]} ]}))
  = ["n7"; "n8"].
Proof. vm_compute. reflexivity. Qed.

(** ** Attaching the guard *)

(** X29.  Attaching the guard follows the canvas path and nothing else.
    After [ensureGuardAttached] the observed path is the path of the
    context, and a second call changes nothing.  When an observer was
    attached for that path already the engine is left exactly as it was,
    so the view observed before stays observed even if the context names
    another view; otherwise the observer, the observed path and the
    observed view become those of the context.  In both cases the locked
    ids, the snapshots, the settings, the pointer that is blocked and the
    state of the enforcement loop are untouched. *)
Theorem ensureGuardAttached_follows_path (ctx : CanvasContext) (s : Manager) :
  let s' := ensureGuardAttached ctx s in
  observedCanvasPath s' = Some (canvasPath ctx) ∧
  is_Some (observer s') ∧
  ensureGuardAttached ctx s' = s' ∧
  (is_Some (observer s) ∧ observedCanvasPath s = Some (canvasPath ctx) → s' = s) ∧
  (¬ (is_Some (observer s) ∧ observedCanvasPath s = Some (canvasPath ctx)) →
   observer s' = Some (canvasPath ctx) ∧ observedView s' = Some (ctx_view ctx)) ∧
  lockStore s' = lockStore s ∧ loopState s' = loopState s.
Proof.
  cbv zeta. unfold ensureGuardAttached, attachStyleGuardToCanvas.
  destruct (decide (is_Some (observer s)
                    ∧ observedCanvasPath s = Some (canvasPath ctx))) as [[Ho Hp]|Hn].
  - repeat (rewrite (bool_decide_eq_true_2 _ Ho), (bool_decide_eq_true_2 _ Hp);
            cbn [andb]).
    split; [done|]. split; [done|]. split; [done|].
    split; [done|]. split; [|done]. intros Hn. destruct Hn. by split.
  - assert (bool_decide (is_Some (observer s))
            && bool_decide (observedCanvasPath s = Some (canvasPath ctx)) = false)
      as ->.
    { apply andb_false_iff.
      destruct (decide (is_Some (observer s))) as [Ho|Ho].
      - right. apply bool_decide_eq_false_2. intros Hp. apply Hn. by split.
      - left. by apply bool_decide_eq_false_2. }
    cbn [observedCanvasPath observer observedView set_observer set_observedView
         set_observedCanvasPath].
    assert (bool_decide (is_Some (Some (canvasPath ctx))) = true) as ->
      by (apply bool_decide_eq_true_2; eauto).
    rewrite (bool_decide_eq_true_2 (Some (canvasPath ctx) = Some (canvasPath ctx)))
      by done.
    cbn [andb]. split; [done|]. split; [eauto|]. split; [done|].
    split; [by intros H; destruct (Hn H)|]. by split.
Qed.

Example guard_keeps_first_view_of_a_path :
  let s1 := ensureGuardAttached (mkCtx 0 "a.canvas") Fixture.mgr0 in
  let s2 := ensureGuardAttached (mkCtx 5 "a.canvas") s1 in
  let s3 := ensureGuardAttached (mkCtx 5 "b.canvas") s2 in
  observedView s2 = Some 0 ∧ observedView s3 = Some 5.
Proof. vm_compute. done. Qed.

(** ** Restoring twice *)

(** X30.  A restore is idempotent.  When the snapshot was read from the
    node while its object held numbers in the same geometry properties
    as now, after [restoreModelSnapshot] the node reads as the snapshot
    itself, so that the divergence test finds nothing to restore, and
    restoring once more leaves the view exactly as the first restore
    left it. *)
Theorem restore_is_idempotent (view : CanvasViewLike) (nodeId : string)
    (snap : ModelSnapshot) (o0 o : value) :
  readNode o0 = Some snap →
  nodeObject view nodeId = Some o →
  numProfile o0 o →
  let view1 := (restoreModelSnapshot view nodeId snap).1 in
  readModelSnapshot view1 nodeId = Some snap ∧
  isSameSnapshot snap snap = true ∧
  (restoreModelSnapshot view1 nodeId snap).1 = view1.
Proof.
  intros Hread Ho Hprof view1.
  assert (Ho1 : nodeObject view1 nodeId = Some (restoreNode snap o)).
  { subst view1. rewrite nodeObject_restore, Ho. by rewrite decide_True. }
  assert (Hr1 : readNode (restoreNode snap o) = Some snap)
    by (by apply (restoreNode_reads snap o0)).
  split; [|split].
  - unfold readModelSnapshot. by rewrite Ho1.
  - apply isSameSnapshot_refl.
  - rewrite restoreModelSnapshot_view, Ho1.
    rewrite (restoreNode_own _ _ Hr1). by apply putNode_own.
Qed.

Lemma restore_is_idempotent_witness :
  let view1 := (restoreModelSnapshot Fixture.viewA "n1" Fixture.snapA).1 in
  readModelSnapshot view1 "n1" = Some Fixture.snapA ∧
  (restoreModelSnapshot view1 "n1" Fixture.snapA).1 = view1.
Proof.
  assert (Hread : readNode (restoreNode Fixture.snapA Fixture.nodeA)
                  = Some Fixture.snapA) by (vm_compute; reflexivity).
  assert (Ho : nodeObject Fixture.viewA "n1" = Some Fixture.nodeA)
    by (vm_compute; reflexivity).
  assert (Hprof : numProfile (restoreNode Fixture.snapA Fixture.nodeA) Fixture.nodeA)
    by (intros b f Hb Hf; symmetry; by apply restoreNode_numProfile).
  destruct (restore_is_idempotent Fixture.viewA "n1" Fixture.snapA
              (restoreNode Fixture.snapA Fixture.nodeA) Fixture.nodeA Hread Ho Hprof)
    as (H1 & _ & H3).
  split; [exact H1|exact H3].
Defined.
